(** * signalmice: a shallow embedding of the agent and its shutdown chain

    The Go program polls a Redis key and, when the key is present, deletes it
    and powers the host off through an ordered chain of methods.  The packages
    [config], [logger], [redis], [shutdown] and the [main] program are embedded
    as state-passing functions over a [World] that holds everything outside
    the process: the Redis key space, the trace of requests the process has
    issued, the goroutines it has spawned, and a [Host] that answers every
    request (command exit status, file system replies, network faults, clock)
    as a function of the history so far. *)

From Stdlib Require Import ZArith Lia Ascii String.
From stdpp Require Import gmap strings list.

Local Open Scope string_scope.
Local Open Scope list_scope.

(** ** Go errors *)

(** [redis.Nil] is the sentinel of go-redis; an [OsError] is an error value
    produced outside this repository (os/exec, os.WriteFile, the network
    clients); [ErrorString] is [fmt.Errorf] without [%w]; [WrapError] is
    [fmt.Errorf] with one [%w] operand. *)
Inductive error : Type :=
| RedisNil
| OsError (msg : string)
| ErrorString (msg : string)
| WrapError (msg : string) (err : error).

(** [err.Error()] *)
Definition Error (e : error) : string :=
  match e with
  | RedisNil => "redis: nil"
  | OsError msg => msg
  | ErrorString msg => msg
  | WrapError msg _ => msg
  end.

(** [errors.Unwrap] *)
Definition Unwrap (e : error) : option error :=
  match e with
  | WrapError _ err => Some err
  | _ => None
  end.

(** The chain [e, Unwrap e, Unwrap (Unwrap e), ...] that [errors.Is] walks. *)
Fixpoint errChain (e : error) : list error :=
  match e with
  | WrapError _ err => e :: errChain err
  | _ => [e]
  end.

(** [fmt.Errorf(pre + "%w" + post, e)] *)
Definition Errorf_w (pre : string) (e : error) (post : string) : error :=
  WrapError (pre +:+ Error e +:+ post) e.

(** [context.Canceled], the error of a context that has been cancelled. *)
Definition context_Canceled : error := ErrorString "context canceled".

(** ** Wall clock, UTC *)

Record Time := {
  year : nat; month : nat; day : nat;
  hour : nat; minute : nat; second : nat
}.

Definition digit (n : nat) : ascii := ascii_of_nat (48 + n mod 10).

Definition pad2 (n : nat) : string :=
  String (digit (n / 10)) (String (digit n) EmptyString).

Definition pad4 (n : nat) : string :=
  String (digit (n / 1000)) (String (digit (n / 100)) (pad2 n)).

(** [t.Format("2006-01-02")] *)
Definition Format_date (t : Time) : string :=
  pad4 (year t) +:+ "-" +:+ pad2 (month t) +:+ "-" +:+ pad2 (day t).

(** [t.Format(time.RFC3339)] of a UTC time *)
Definition Format_RFC3339 (t : Time) : string :=
  Format_date t +:+ "T" +:+ pad2 (hour t) +:+ ":" +:+ pad2 (minute t)
    +:+ ":" +:+ pad2 (second t) +:+ "Z".

(** ** Log entries (package logger, types) *)

Inductive Level := LevelInfo | LevelWarn | LevelError | LevelDebug.

Definition Level_string (l : Level) : string :=
  match l with
  | LevelInfo => "INFO"
  | LevelWarn => "WARN"
  | LevelError => "ERROR"
  | LevelDebug => "DEBUG"
  end.

(** The [extra] argument is [nil] or a map of strings at every call site of
    the program; [encoding/json] cannot fail on such an entry. *)
Record LogEntry := {
  Timestamp : string;
  EntryLevel : Level;
  Message : string;
  Hostname : string;
  Service : string;
  EntryRedisKey : string;
  Extra : option (list (string * string))
}.

(** [opensearch.Config] as the client keeps it *)
Record OpensearchClient := {
  Addresses : list string;
  Username : string;
  Password : string
}.

Record Logger := {
  client : option OpensearchClient;
  index : string;
  hostname : string;
  redisKey : string
}.

(** ** The world outside the process *)

Inductive RedisCmd :=
| Ping
| Get (key : string)
| Del (key : string).

Inductive StatReply := StatOk | StatNotExist | StatError (msg : string).

Inductive IndexReply :=
| IndexTransportError (msg : string)
| IndexResponse (status : string) (isError : bool).

(** Every request the process issues, in program order. *)
Inductive Event :=
| EvStdout (line : string)
| EvExec (argv : list string)
| EvStat (path : string)
| EvWriteFile (path data : string)
| EvRedis (cmd : RedisCmd)
| EvOpensearchInfo
| EvOpensearchIndex (idx : string) (doc : LogEntry)
| EvCancel.

(** [ctx.Done()] of the context that [main] creates and hands to every call:
    it is done once [cancel] has been called. *)
Definition is_cancel (e : Event) : bool :=
  match e with EvCancel => true | _ => false end.

Definition ctx_done (tr : list Event) : bool := existsb is_cancel tr.

(** The host answers each request from the history of requests so far. *)
Record Host := {
  LookupEnv : string -> option string;
  Hostname_reply : string;
  Now : list Event -> Time;
  exec_reply : list Event -> list string -> string * option string;
  stat_reply : list Event -> string -> StatReply;
  write_reply : list Event -> string -> string -> option string;
  redis_fault : list Event -> RedisCmd -> option string;
  opensearch_NewClient_reply : list string -> option string;
  opensearch_Info_reply : list Event -> option string;
  opensearch_Index_reply : list Event -> string -> IndexReply;
  filepath_Join : string -> string -> string;
  Duration_String : Z -> string
}.

(** [store] is the part of the key space of the Redis server that GET can
    read: the keys that hold a string, with their values.  Keys that hold a
    value of another type show in the replies of the host (see
    [typed_host]). *)
Record World := {
  host : Host;
  trace : list Event;
  store : gmap string string;
  goroutines : list (Logger * LogEntry)
}.

(** ** State passing *)

Definition M (A : Type) : Type := World -> A * World.

Definition ret {A} (a : A) : M A := fun w => (a, w).

Definition bind {A B} (c : M A) (k : A -> M B) : M B :=
  fun w => let (a, w') := c w in k a w'.

Declare Scope go_scope.
Delimit Scope go_scope with go.
Notation "x <- c ;; k" := (bind c (fun x => k))
  (at level 100, c at next level, right associativity) : go_scope.
Notation "c ;; k" := (bind c (fun _ => k))
  (at level 100, right associativity) : go_scope.
Local Open Scope go_scope.

Definition emit (e : Event) : M unit :=
  fun w => (tt, {| host := host w; trace := trace w ++ [e];
                   store := store w; goroutines := goroutines w |}).

(** The reply of the host to a request, read before the request is traced. *)
Definition ask {A} (f : Host -> list Event -> A) : M A :=
  fun w => (f (host w) (trace w), w).

Definition set_store (s : gmap string string) : M unit :=
  fun w => (tt, {| host := host w; trace := trace w;
                   store := s; goroutines := goroutines w |}).

Definition get_store : M (gmap string string) := fun w => (store w, w).

(** [go f(x)]: the call is queued; it runs at an unspecified later time. *)
Definition spawn (t : Logger * LogEntry) : M unit :=
  fun w => (tt, {| host := host w; trace := trace w;
                   store := store w; goroutines := goroutines w ++ [t] |}).

(** [log.Printf] of the standard library (its date prefix is left out). *)
Definition Printf (line : string) : M unit := emit (EvStdout line).

(** ** strconv.Atoi and int64 arithmetic *)

Definition is_digit (a : ascii) : bool :=
  (48 <=? nat_of_ascii a)%nat && (nat_of_ascii a <=? 57)%nat.

(** [strconv.ErrSyntax] and [strconv.ErrRange] *)
Inductive NumError := ErrSyntax | ErrRange.

(** The digit loop of [strconv.ParseUint(s, 10, 64)]: a character that is not
    a digit is a syntax error with value 0; an overflow stops the loop with
    the largest uint64 and a range error. *)
Fixpoint ParseUint_digits (s : string) (n : Z) : Z * option NumError :=
  match s with
  | EmptyString => (n, None)
  | String c s' =>
      if is_digit c then
        if (2 ^ 64 / 10 + 1 <=? n)%Z then ((2 ^ 64 - 1)%Z, Some ErrRange)
        else
          let n1 := (n * 10 + Z.of_nat (nat_of_ascii c - 48))%Z in
          if (2 ^ 64 - 1 <? n1)%Z then ((2 ^ 64 - 1)%Z, Some ErrRange)
          else ParseUint_digits s' n1
      else (0%Z, Some ErrSyntax)
  end.

(** [strconv.Atoi] on a 64-bit platform; its fast path for short strings
    returns what [ParseInt(s, 10, 0)] returns.  The value is 0 on a syntax
    error and is clamped to the int64 range on a range error. *)
Definition Atoi (s : string) : Z * option NumError :=
  match s with
  | EmptyString => (0%Z, Some ErrSyntax)
  | String a rest =>
      let neg := Ascii.eqb a "-" in
      let body := if Ascii.eqb a "-" || Ascii.eqb a "+" then rest else s in
      match body with
      | EmptyString => (0%Z, Some ErrSyntax)
      | _ =>
          match ParseUint_digits body 0 with
          | (_, Some ErrSyntax) => (0%Z, Some ErrSyntax)
          | (un, _) =>
              if negb neg && (2 ^ 63 <=? un)%Z then ((2 ^ 63 - 1)%Z, Some ErrRange)
              else if neg && (2 ^ 63 <? un)%Z then ((- 2 ^ 63)%Z, Some ErrRange)
              else ((if neg then - un else un)%Z, None)
          end
      end
  end.

(** Two's complement wrap-around of int64. *)
Definition wrap64 (z : Z) : Z := ((z + 2 ^ 63) mod 2 ^ 64 - 2 ^ 63)%Z.

(** ** package config *)

Module config.

Record Config := {
  RedisHost : string;
  RedisPort : string;
  RedisPassword : string;
  RedisDB : Z;
  OpensearchURL : string;
  OpensearchUsername : string;
  OpensearchPassword : string;
  OpensearchIndex : string;
  OpensearchUseDailyIndex : bool;
  RedisKey : string;
  CheckInterval : Z;  (* time.Duration, nanoseconds *)
  HostProcPath : string
}.

Definition DefaultRedisKey : string :=
  "signalmice:00000000-0000-0000-0000-000000000000".

Definition getEnv (h : Host) (key defaultValue : string) : string :=
  match LookupEnv h key with
  | Some value => value
  | None => defaultValue
  end.

Definition getEnvBool (h : Host) (key : string) (defaultValue : bool) : bool :=
  match LookupEnv h key with
  | Some value =>
      String.eqb value "true" || String.eqb value "1" || String.eqb value "yes"
  | None => defaultValue
  end.

Definition Load (h : Host) : Config :=
  let checkInterval := fst (Atoi (getEnv h "SIGNALMICE_CHECK_INTERVAL" "60")) in
  let redisDB := fst (Atoi (getEnv h "REDIS_DB" "0")) in
  {| RedisHost := getEnv h "REDIS_HOST" "localhost";
     RedisPort := getEnv h "REDIS_PORT" "6379";
     RedisPassword := getEnv h "REDIS_PASSWORD" EmptyString;
     RedisDB := redisDB;
     OpensearchURL := getEnv h "OPENSEARCH_URL" "http://localhost:9200";
     OpensearchUsername := getEnv h "OPENSEARCH_USERNAME" EmptyString;
     OpensearchPassword := getEnv h "OPENSEARCH_PASSWORD" EmptyString;
     OpensearchIndex := getEnv h "OPENSEARCH_INDEX" "signalmice-logs";
     OpensearchUseDailyIndex := getEnvBool h "OPENSEARCH_USE_DAILY_INDEX" true;
     RedisKey := getEnv h "SIGNALMICE_KEY" DefaultRedisKey;
     CheckInterval := wrap64 (checkInterval * 1000000000);
     HostProcPath := getEnv h "HOST_PROC_PATH" "/host/proc" |}.

Definition RedisAddr (c : Config) : string :=
  RedisHost c +:+ ":" +:+ RedisPort c.

End config.

(** ** package logger *)

Module logger.

(** [NewLogger]: a configuration the Opensearch library rejects is the only
    error; a failed connection test yields a logger without a client. *)
Definition NewLogger (cfg : config.Config) : M (Logger + error) :=
  hostname <- ask (fun h _ => Hostname_reply h) ;;
  let osConfig :=
    if String.eqb (config.OpensearchUsername cfg) EmptyString
    then {| Addresses := [config.OpensearchURL cfg]; Username := EmptyString; Password := EmptyString |}
    else {| Addresses := [config.OpensearchURL cfg];
            Username := config.OpensearchUsername cfg;
            Password := config.OpensearchPassword cfg |} in
  created <- ask (fun h _ => opensearch_NewClient_reply h (Addresses osConfig)) ;;
  match created with
  | Some msg =>
      ret (inr (Errorf_w "failed to create Opensearch client: " (OsError msg) EmptyString))
  | None =>
      info <- ask opensearch_Info_reply ;;
      emit EvOpensearchInfo ;;
      match info with
      | Some msg =>
          Printf ("[WARN] Could not connect to Opensearch: " +:+ msg
                    +:+ ". Logging will continue to stdout only.") ;;
          ret (inl {| client := None;
                      index := config.OpensearchIndex cfg;
                      hostname := hostname;
                      redisKey := config.RedisKey cfg |})
      | None =>
          ret (inl {| client := Some osConfig;
                      index := config.OpensearchIndex cfg;
                      hostname := hostname;
                      redisKey := config.RedisKey cfg |})
      end
  end.

(** [log]: the console line is written in program order; the remote write is
    handed to a goroutine. *)
Definition log (l : Logger) (level : Level) (message : string)
    (extra : option (list (string * string))) : M unit :=
  now <- ask Now ;;
  let entry := {| Timestamp := Format_RFC3339 now;
                  EntryLevel := level;
                  Message := message;
                  Hostname := hostname l;
                  Service := "signalmice";
                  EntryRedisKey := redisKey l;
                  Extra := extra |} in
  Printf ("[" +:+ Level_string level +:+ "] " +:+ message) ;;
  match client l with
  | Some _ => spawn (l, entry)
  | None => ret tt
  end.

(** [l.client.Index(l.index, body, l.client.Index.WithContext(ctx))]: one
    call of the Opensearch client.  [ctx] is the context of [main].  While it
    is not done the call hands the document to the transport, which is the
    event [EvOpensearchIndex]: the client sends it at least once and, as
    [NewLogger] configures it (retries are not disabled), may send it again
    before it returns; the reply of the host is the outcome of the whole
    call.  Once [ctx] is done the transport returns the error of [ctx] and
    nothing is sent. *)
Definition client_Index (l : Logger) (entry : LogEntry) : M IndexReply :=
  done <- ask (fun _ tr => ctx_done tr) ;;
  if done then ret (IndexTransportError (Error context_Canceled))
  else
    res <- ask (fun h tr => opensearch_Index_reply h tr (index l)) ;;
    emit (EvOpensearchIndex (index l) entry) ;;
    ret res.

(** [sendToOpensearch], the body of the goroutine.  The result is [Some] of
    a panic message when the receiver has no client (a nil dereference);
    [log] never spawns it on such a logger. *)
Definition sendToOpensearch (l : Logger) (entry : LogEntry) : M (option string) :=
  match client l with
  | None => ret (Some "invalid memory address or nil pointer dereference")
  | Some _ =>
      res <- client_Index l entry ;;
      match res with
      | IndexTransportError msg =>
          Printf ("[ERROR] Failed to send log to Opensearch: " +:+ msg) ;;
          ret None
      | IndexResponse status isError =>
          (if isError
           then Printf ("[ERROR] Opensearch returned error: " +:+ status)
           else ret tt) ;;
          ret None
      end
  end.

Definition Info l message := log l LevelInfo message None.
Definition InfoWithExtra l message extra := log l LevelInfo message extra.
Definition Warn l message := log l LevelWarn message None.
Definition WarnWithExtra l message extra := log l LevelWarn message extra.
Definition Error l message := log l LevelError message None.
Definition ErrorWithExtra l message extra := log l LevelError message extra.
Definition Debug l message := log l LevelDebug message None.
Definition DebugWithExtra l message extra := log l LevelDebug message extra.

End logger.

(** ** package redis *)

Module redis.

Record Client := { key : string }.

(** One round trip of the go-redis client against the server that owns
    [store].  A fault of the host is any error the client returns for the
    command: a failure of the transport or an error reply of the server, the
    reply WRONGTYPE to a GET of a key that does not hold a string included.
    A missing key is reported by GET as the error [redis.Nil].  A command
    that ends in a fault is taken as not applied to the key space; a DEL that
    the server applies while its reply is lost on the way back is not
    modelled. *)
Definition cmd_Ping : M (option error) :=
  f <- ask (fun h tr => redis_fault h tr Ping) ;;
  emit (EvRedis Ping) ;;
  ret (option_map OsError f).

Definition cmd_Get (k : string) : M (string * option error) :=
  f <- ask (fun h tr => redis_fault h tr (Get k)) ;;
  emit (EvRedis (Get k)) ;;
  match f with
  | Some msg => ret (EmptyString, Some (OsError msg))
  | None =>
      s <- get_store ;;
      match s !! k with
      | Some v => ret (v, None)
      | None => ret (EmptyString, Some RedisNil)
      end
  end.

Definition cmd_Del (k : string) : M (option error) :=
  f <- ask (fun h tr => redis_fault h tr (Del k)) ;;
  emit (EvRedis (Del k)) ;;
  match f with
  | Some msg => ret (Some (OsError msg))
  | None =>
      s <- get_store ;; set_store (delete k s) ;; ret None
  end.

Definition NewClient (cfg : config.Config) : M (Client + error) :=
  err <- cmd_Ping ;;
  match err with
  | Some e => ret (inr (Errorf_w "failed to connect to Redis: " e EmptyString))
  | None => ret (inl {| key := config.RedisKey cfg |})
  end.

Definition is_RedisNil (e : option error) : bool :=
  match e with Some RedisNil => true | _ => false end.

Definition CheckAndDeleteKey (c : Client) : M (bool * option error) :=
  r <- cmd_Get (key c) ;;
  let result := fst r in
  let err := snd r in
  if is_RedisNil err then ret (false, None)
  else
    match err with
    | Some e => ret (false, Some (Errorf_w "failed to get key: " e EmptyString))
    | None =>
        derr <- cmd_Del (key c) ;;
        match derr with
        | Some e => ret (false, Some (Errorf_w "failed to delete key: " e EmptyString))
        | None => let _ := result in ret (true, None)
        end
    end.

Definition GetKey (c : Client) : string := key c.

End redis.

(** ** package shutdown *)

Module shutdown.

Record Manager := {
  hostProcPath : string;
  logger : Logger
}.

Definition NewManager (cfg : config.Config) (log : Logger) : Manager :=
  {| hostProcPath := config.HostProcPath cfg; logger := log |}.

(** [exec.CommandContext(ctx, argv...).CombinedOutput()] *)
Definition CombinedOutput (argv : list string) : M (string * option error) :=
  r <- ask (fun h tr => exec_reply h tr argv) ;;
  emit (EvExec argv) ;;
  ret (fst r, option_map OsError (snd r)).

(** [os.Stat] *)
Definition Stat (path : string) : M StatReply :=
  r <- ask (fun h tr => stat_reply h tr path) ;;
  emit (EvStat path) ;;
  ret r.

(** [os.WriteFile(path, data, 0644)] *)
Definition WriteFile (path data : string) : M (option error) :=
  r <- ask (fun h tr => write_reply h tr path data) ;;
  emit (EvWriteFile path data) ;;
  ret (option_map OsError r).

Definition nsenter_argv : list string :=
  ["nsenter"; "--target"; "1"; "--mount"; "--uts"; "--ipc"; "--net"; "--pid";
   "--"; "poweroff"].

Definition shutdownViaNsenter (m : Manager) : M (option error) :=
  r <- CombinedOutput nsenter_argv ;;
  match snd r with
  | Some err =>
      ret (Some (Errorf_w "nsenter poweroff failed: " err (", output: " +:+ fst r)))
  | None => ret None
  end.

Definition shutdownViaSysrq (m : Manager) : M (option error) :=
  syncPath <- ask (fun h _ => filepath_Join h (hostProcPath m) "sysrq-trigger") ;;
  st <- Stat (hostProcPath m) ;;
  match st with
  | StatNotExist =>
      ret (Some (ErrorString ("host proc path not mounted: " +:+ hostProcPath m)))
  | _ =>
      e1 <- WriteFile syncPath "s" ;;
      (match e1 with
       | Some _ => logger.Warn (logger m) "Failed to sync filesystems via sysrq"
       | None => ret tt
       end) ;;
      e2 <- WriteFile syncPath "u" ;;
      (match e2 with
       | Some _ =>
           logger.Warn (logger m) "Failed to remount filesystems read-only via sysrq"
       | None => ret tt
       end) ;;
      e3 <- WriteFile syncPath "o" ;;
      match e3 with
      | Some err => ret (Some (Errorf_w "failed to write to sysrq-trigger: " err EmptyString))
      | None => ret None
      end
  end.

Definition shutdownViaDirect (m : Manager) : M (option error) :=
  r <- CombinedOutput ["poweroff"] ;;
  match snd r with
  | Some _ =>
      r2 <- CombinedOutput ["shutdown"; "-h"; "now"] ;;
      match snd r2 with
      | Some err =>
          ret (Some (Errorf_w "shutdown commands failed: " err
                       (", output: " +:+ fst r2)))
      | None => ret None
      end
  | None => ret None
  end.

Record method := { name : string; fn : M (option error) }.

Definition methods (m : Manager) : list method :=
  [ {| name := "nsenter"; fn := shutdownViaNsenter m |};
    {| name := "sysrq-trigger"; fn := shutdownViaSysrq m |};
    {| name := "direct-command"; fn := shutdownViaDirect m |} ].

(** How the [for ... range methods] loop is left. *)
Inductive LoopExit :=
| Returned (result : option error)
| Exhausted (lastErr : option error).

Fixpoint rangeMethods (l : Logger) (ms : list method) (lastErr : option error)
    : M LoopExit :=
  match ms with
  | [] => ret (Exhausted lastErr)
  | mth :: rest =>
      logger.InfoWithExtra l ("Attempting shutdown via " +:+ name mth) None ;;
      r <- fn mth ;;
      match r with
      | Some err =>
          logger.WarnWithExtra l ("Shutdown via " +:+ name mth +:+ " failed")
            (Some [("error", Error err)]) ;;
          rangeMethods l rest (Some err)
      | None =>
          logger.Info l ("Shutdown initiated successfully via " +:+ name mth) ;;
          ret (Returned None)
      end
  end.

(** [fmt.Errorf("all shutdown methods failed, last error: %w", lastErr)];
    a nil operand of [%w] prints as a bad verb and wraps nothing. *)
Definition allFailed (lastErr : option error) : error :=
  match lastErr with
  | Some e => Errorf_w "all shutdown methods failed, last error: " e EmptyString
  | None => ErrorString "all shutdown methods failed, last error: %!w(<nil>)"
  end.

Definition NeutralizeStuartLittle (m : Manager) : M (option error) :=
  logger.Info (logger m) "Initiating host machine shutdown..." ;;
  r <- rangeMethods (logger m) (methods m) None ;;
  match r with
  | Returned result => ret result
  | Exhausted lastErr => ret (Some (allFailed lastErr))
  end.

End shutdown.

(** ** package main *)

Definition appName : string := "signalmice".
Definition appVersion : string := "1.0.0".

Definition checkAndShutdown (redisClient : redis.Client)
    (shutdownManager : shutdown.Manager) (appLogger : Logger) : M unit :=
  r <- redis.CheckAndDeleteKey redisClient ;;
  match snd r with
  | Some err =>
      logger.ErrorWithExtra appLogger "Error checking Redis key"
        (Some [("error", Error err)])
  | None =>
      if negb (fst r)
      then logger.Debug appLogger "Redis key not found, continuing to monitor..."
      else
        logger.InfoWithExtra appLogger "Shutdown signal received! Key found and deleted."
          (Some [("key", redis.GetKey redisClient)]) ;;
        err <- shutdown.NeutralizeStuartLittle shutdownManager ;;
        match err with
        | Some e =>
            logger.ErrorWithExtra appLogger "Failed to initiate host shutdown"
              (Some [("error", Error e)])
        | None => logger.Info appLogger "Host shutdown initiated successfully"
        end
  end.

(** What the [select] of the control loop receives, in the order it receives
    it: a tick of the ticker or an operating-system signal. *)
Inductive LoopInput :=
| Tick
| Signal (sig : string).

(** How far [main] got when the inputs are used up: the process has exited,
    has panicked, or is blocked in [select]. *)
Inductive Outcome :=
| Exit (code : Z)
| Panic (msg : string)
| Waiting.

(** The [for { select { ... } }] of [main]. *)
Fixpoint forSelect (redisClient : redis.Client) (shutdownManager : shutdown.Manager)
    (appLogger : Logger) (inputs : list LoopInput) : M Outcome :=
  match inputs with
  | [] => ret Waiting
  | Tick :: rest =>
      checkAndShutdown redisClient shutdownManager appLogger ;;
      forSelect redisClient shutdownManager appLogger rest
  | Signal sig :: _ =>
      logger.InfoWithExtra appLogger "Received shutdown signal"
        (Some [("signal", sig)]) ;;
      emit EvCancel ;;
      logger.Info appLogger "Graceful shutdown complete" ;;
      ret (Exit 0)
  end.

(** [main] from "Starting Redis key monitoring" on: the initial check, then
    the loop. *)
Definition monitor (cfg : config.Config) (redisClient : redis.Client)
    (shutdownManager : shutdown.Manager) (appLogger : Logger)
    (inputs : list LoopInput) : M Outcome :=
  interval <- ask (fun h _ => Duration_String h (config.CheckInterval cfg)) ;;
  logger.Info appLogger
    ("Starting Redis key monitoring (key: " +:+ config.RedisKey cfg
       +:+ ", interval: " +:+ interval +:+ ")") ;;
  checkAndShutdown redisClient shutdownManager appLogger ;;
  forSelect redisClient shutdownManager appLogger inputs.

Definition main (inputs : list LoopInput) : M Outcome :=
  Printf (appName +:+ " v" +:+ appVersion +:+ " starting...") ;;
  cfg <- ask (fun h _ => config.Load h) ;;
  created <- logger.NewLogger cfg ;;
  match created with
  | inr err =>
      Printf ("Failed to initialize logger: " +:+ Error err) ;;
      ret (Exit 1)
  | inl appLogger =>
      interval <- ask (fun h _ => Duration_String h (config.CheckInterval cfg)) ;;
      logger.InfoWithExtra appLogger (appName +:+ " starting")
        (Some [("version", appVersion); ("check_interval", interval);
               ("redis_key", config.RedisKey cfg)]) ;;
      connected <- redis.NewClient cfg ;;
      match connected with
      | inr err =>
          logger.ErrorWithExtra appLogger "Failed to connect to Redis"
            (Some [("error", Error err)]) ;;
          ret (Exit 1)
      | inl redisClient =>
          logger.Info appLogger "Connected to Redis successfully" ;;
          let shutdownManager := shutdown.NewManager cfg appLogger in
          if (config.CheckInterval cfg <=? 0)%Z
          then ret (Panic "non-positive interval for NewTicker")
          else monitor cfg redisClient shutdownManager appLogger inputs
      end
  end.

(** ** Observations on runs *)

(** The requests issued between two worlds of one run. *)
Definition issued (w w' : World) : list Event :=
  drop (length (trace w)) (trace w').

(** The requests a computation issues when started in [w]. *)
Definition effect {A} (c : M A) (w : World) : list Event :=
  issued w (snd (c w)).

Fixpoint strip_prefix (p s : string) : option string :=
  match p with
  | EmptyString => Some s
  | String a p' =>
      match s with
      | EmptyString => None
      | String b s' => if Ascii.eqb a b then strip_prefix p' s' else None
      end
  end.

(** What a run of the shutdown chain shows from outside: the console line that
    announces an attempt, and the first request of each method (the [nsenter]
    command, the [os.Stat] of the host proc path, the [poweroff] command). *)
Inductive Obs :=
| Announced (name : string)
| Entered (name : string).

Definition observe (e : Event) : option Obs :=
  match e with
  | EvStdout line => Announced <$> strip_prefix "[INFO] Attempting shutdown via " line
  | EvExec argv =>
      if decide (argv = shutdown.nsenter_argv) then Some (Entered "nsenter")
      else if decide (argv = ["poweroff"]) then Some (Entered "direct-command")
      else None
  | EvStat _ => Some (Entered "sysrq-trigger")
  | _ => None
  end.

Definition observed (d : list Event) : list Obs := omap observe d.

(** The observations of a run that attempts exactly the given methods. *)
Definition attempts_of (names : list string) : list Obs :=
  names ≫= (fun n => [Announced n; Entered n]).

Definition write_of (e : Event) : option (string * string) :=
  match e with EvWriteFile path data => Some (path, data) | _ => None end.

(** The file writes of a run, in order. *)
Definition writes (d : list Event) : list (string * string) := omap write_of d.

Definition redis_of (e : Event) : option RedisCmd :=
  match e with EvRedis cmd => Some cmd | _ => None end.

(** The Redis commands of a run, in order. *)
Definition redis_cmds (d : list Event) : list RedisCmd := omap redis_of d.

Definition is_Get (cmd : RedisCmd) : bool :=
  match cmd with Get _ => true | _ => false end.

(** Every detection cycle opens with one GET: the number of cycles of a run. *)
Definition cycles (d : list Event) : nat :=
  length (filter (fun cmd => is_Get cmd = true) (redis_cmds d)).

Definition index_of (e : Event) : option string :=
  match e with EvOpensearchIndex idx _ => Some idx | _ => None end.

(** The indices to which the Opensearch client was handed a document in a
    run, one entry per call of [client.Index] that reached the transport. *)
Definition delivered_to (d : list Event) : list string := omap index_of d.

Definition stdout_of (e : Event) : option string :=
  match e with EvStdout line => Some line | _ => None end.

(** The console lines of a run. *)
Definition console (d : list Event) : list string := omap stdout_of d.

(** The Redis server answers the given commands, issued back to back after
    the history [tr], without a fault. *)
Fixpoint answers (h : Host) (tr : list Event) (cmds : list RedisCmd) : Prop :=
  match cmds with
  | [] => True
  | cmd :: rest =>
      redis_fault h tr cmd = None /\ answers h (tr ++ [EvRedis cmd]) rest
  end.

(** The world in which the loop of [NeutralizeStuartLittle] calls a method
    (the attempt has been announced), the world in which it goes on after the
    method failed (the warning has been logged), and the run of a list of
    methods that all fail, with the errors they return. *)
Definition attemptWorld (l : Logger) (mth : shutdown.method) (w : World) : World :=
  snd (logger.InfoWithExtra l
         ("Attempting shutdown via " +:+ shutdown.name mth) None w).

Definition failedWorld (l : Logger) (mth : shutdown.method) (err : error)
    (w : World) : World :=
  snd (logger.WarnWithExtra l ("Shutdown via " +:+ shutdown.name mth +:+ " failed")
         (Some [("error", Error err)]) w).

Inductive AllFail (l : Logger)
  : list shutdown.method -> World -> list error -> World -> Prop :=
| AllFail_nil w : AllFail l [] w [] w
| AllFail_cons mth ms w err w1 errs w' :
    shutdown.fn mth (attemptWorld l mth w) = (Some err, w1) ->
    AllFail l ms (failedWorld l mth err w1) errs w' ->
    AllFail l (mth :: ms) w (err :: errs) w'.

(** The world in which the loop starts: the run has been announced. *)
Definition startWorld (m : shutdown.Manager) (w : World) : World :=
  snd (logger.Info (shutdown.logger m) "Initiating host machine shutdown..." w).

(** The ticks the control loop receives before the first signal. *)
Fixpoint ticks_served (inputs : list LoopInput) : nat :=
  match inputs with
  | [] => 0
  | Tick :: rest => S (ticks_served rest)
  | Signal _ :: _ => 0
  end.

Definition is_Signal (i : LoopInput) : bool :=
  match i with Signal _ => true | Tick => false end.

(** The index name the logger tests and the README ask for: the base name,
    suffixed with the UTC day when daily indices are enabled. *)
Definition getIndexName_documented (baseIndex : string) (useDailyIndex : bool)
    (now : Time) : string :=
  if useDailyIndex then baseIndex +:+ "-" +:+ Format_date now else baseIndex.

(** The console event of a warning that is logged only when a write failed. *)
Definition warned (reply : option string) (message : string) : list Event :=
  match reply with
  | Some _ => [EvStdout ("[WARN] " +:+ message)]
  | None => []
  end.

(** ** Concrete scenarios *)

(** A host described by what its commands, its proc mount, its file writes,
    its Redis connection and its Opensearch endpoint answer. *)
Definition scenario (exec : list string -> option string) (stat : StatReply)
    (write : string -> option string) (fault : RedisCmd -> option string)
    (info : option string) : Host :=
  {| LookupEnv := fun _ => None;
     Hostname_reply := "node-1";
     Now := fun _ => {| year := 2024; month := 12; day := 28;
                        hour := 10; minute := 30; second := 5 |};
     exec_reply := fun _ argv => (EmptyString, exec argv);
     stat_reply := fun _ _ => stat;
     write_reply := fun _ _ data => write data;
     redis_fault := fun _ cmd => fault cmd;
     opensearch_NewClient_reply := fun _ => None;
     opensearch_Info_reply := fun _ => info;
     opensearch_Index_reply := fun _ _ => IndexResponse "201 Created" false;
     filepath_Join := fun dir file => dir +:+ "/" +:+ file;
     Duration_String := fun _ => "1m0s" |}.

Definition boot (h : Host) (s : gmap string string) : World :=
  {| host := h; trace := []; store := s; goroutines := [] |}.

Definition testKey : string := "signalmice:test-key".

Definition testClient : redis.Client := {| redis.key := testKey |}.

Definition stdoutLogger : Logger :=
  {| client := None; index := "test-logs"; hostname := "node-1";
     redisKey := testKey |}.

Definition testManager : shutdown.Manager :=
  {| shutdown.hostProcPath := "/host/proc"; shutdown.logger := stdoutLogger |}.

(** No privilege at all: every command exits non-zero, the host proc path is
    not mounted, Redis is reachable, Opensearch is not. *)
Definition unprivileged : Host :=
  scenario (fun _ => Some "exit status 1") StatNotExist
    (fun _ => Some "permission denied") (fun _ => None) (Some "connection refused").

(** The host proc path is mounted and writable, [nsenter] is not permitted. *)
Definition procMounted : Host :=
  scenario (fun _ => Some "exit status 1") StatOk
    (fun _ => None) (fun _ => None) (Some "connection refused").

(** The container shares the init system of the host: [nsenter] is refused,
    the host proc path is not mounted, [poweroff] is accepted. *)
Definition directOnly : Host :=
  scenario (fun argv => match argv with
                        | "nsenter" :: _ => Some "exit status 1"
                        | _ => None
                        end)
    StatNotExist (fun _ => Some "permission denied") (fun _ => None)
    (Some "connection refused").

(** Opensearch is up: the connection test of [NewLogger] succeeds. *)
Definition sinkReachable : Host :=
  scenario (fun _ => Some "exit status 1") StatNotExist
    (fun _ => Some "permission denied") (fun _ => None) None.

(** Redis answers GET and PING but times out on DEL. *)
Definition delTimesOut : Host :=
  scenario (fun _ => Some "exit status 1") StatNotExist
    (fun _ => Some "permission denied")
    (fun cmd => match cmd with Del _ => Some "i/o timeout" | _ => None end)
    (Some "connection refused").

(** A computation is well behaved when it leaves the host alone and only
    appends to the trace. *)
Definition appends {A} (c : M A) : Prop :=
  forall w, host (snd (c w)) = host w /\
            trace (snd (c w)) = trace w ++ effect c w.

(** A method is tame when, besides being well behaved, all that is observed
    of a call is that the method was entered. *)
Definition tame (mth : shutdown.method) : Prop :=
  appends (shutdown.fn mth) /\
  forall w, observed (effect (shutdown.fn mth) w) = [Entered (shutdown.name mth)].

(** A computation is idle when, besides being well behaved, it performs no
    detection cycle. *)
Definition idle {A} (c : M A) : Prop :=
  appends c /\ forall w, cycles (effect c w) = 0.

(** ** Kinds of requests and invariants of runs *)

Inductive Kind :=
| KConsole | KExec | KStat | KWrite | KRedis | KSinkInfo | KSinkIndex | KCancel.

#[global] Instance Kind_eq_dec : EqDecision Kind.
Proof. solve_decision. Defined.

Definition kind_of (e : Event) : Kind :=
  match e with
  | EvStdout _ => KConsole
  | EvExec _ => KExec
  | EvStat _ => KStat
  | EvWriteFile _ _ => KWrite
  | EvRedis _ => KRedis
  | EvOpensearchInfo => KSinkInfo
  | EvOpensearchIndex _ _ => KSinkIndex
  | EvCancel => KCancel
  end.

(** The request is of one of the given kinds. *)
Definition only (ks : list Kind) (e : Event) : Prop := kind_of e ∈ ks.

(** Every request the computation issues satisfies [P]. *)
Definition emits (P : Event -> Prop) {A} (c : M A) : Prop :=
  appends c /\ forall w, Forall P (effect c w).

(** The computation takes every world to a world related to it by [R]. *)
Definition respects (R : World -> World -> Prop) {A} (c : M A) : Prop :=
  forall w, R w (snd (c w)).

(** The key space is as it was. *)
Definition same_store (w w' : World) : Prop := store w' = store w.

(** The key space is as it was, or has lost the key [k] and nothing else. *)
Definition consumed (k : string) (w w' : World) : Prop :=
  store w' = store w \/ store w' = delete k (store w).

(** The three events of a graceful exit. *)
Definition graceful_exit : list Event :=
  [EvStdout "[INFO] Received shutdown signal"; EvCancel;
   EvStdout "[INFO] Graceful shutdown complete"].

(** Hosts that differ from a given one in their environment, in what the
    Opensearch library says of the configuration, or in the output and exit
    status of their commands. *)
Definition with_env (env : string -> option string) (h : Host) : Host :=
  {| LookupEnv := env;
     Hostname_reply := Hostname_reply h;
     Now := Now h;
     exec_reply := exec_reply h;
     stat_reply := stat_reply h;
     write_reply := write_reply h;
     redis_fault := redis_fault h;
     opensearch_NewClient_reply := opensearch_NewClient_reply h;
     opensearch_Info_reply := opensearch_Info_reply h;
     opensearch_Index_reply := opensearch_Index_reply h;
     filepath_Join := filepath_Join h;
     Duration_String := Duration_String h |}.

Definition with_NewClient_reply (reply : option string) (h : Host) : Host :=
  {| LookupEnv := LookupEnv h;
     Hostname_reply := Hostname_reply h;
     Now := Now h;
     exec_reply := exec_reply h;
     stat_reply := stat_reply h;
     write_reply := write_reply h;
     redis_fault := redis_fault h;
     opensearch_NewClient_reply := fun _ => reply;
     opensearch_Info_reply := opensearch_Info_reply h;
     opensearch_Index_reply := opensearch_Index_reply h;
     filepath_Join := filepath_Join h;
     Duration_String := Duration_String h |}.

Definition with_exec (exec : list string -> string * option string) (h : Host) : Host :=
  {| LookupEnv := LookupEnv h;
     Hostname_reply := Hostname_reply h;
     Now := Now h;
     exec_reply := fun _ argv => exec argv;
     stat_reply := stat_reply h;
     write_reply := write_reply h;
     redis_fault := redis_fault h;
     opensearch_NewClient_reply := opensearch_NewClient_reply h;
     opensearch_Info_reply := opensearch_Info_reply h;
     opensearch_Index_reply := opensearch_Index_reply h;
     filepath_Join := filepath_Join h;
     Duration_String := Duration_String h |}.

Definition with_Index_reply (reply : IndexReply) (h : Host) : Host :=
  {| LookupEnv := LookupEnv h;
     Hostname_reply := Hostname_reply h;
     Now := Now h;
     exec_reply := exec_reply h;
     stat_reply := stat_reply h;
     write_reply := write_reply h;
     redis_fault := redis_fault h;
     opensearch_NewClient_reply := opensearch_NewClient_reply h;
     opensearch_Info_reply := opensearch_Info_reply h;
     opensearch_Index_reply := fun _ _ => reply;
     filepath_Join := filepath_Join h;
     Duration_String := Duration_String h |}.

(** Redis is down: every command fails. *)
Definition redisDown : Host :=
  scenario (fun _ => Some "exit status 1") StatNotExist
    (fun _ => Some "permission denied") (fun _ => Some "connection refused")
    (Some "connection refused").

(** Redis refuses the GET and answers the rest. *)
Definition getRefused : Host :=
  scenario (fun _ => Some "exit status 1") StatNotExist
    (fun _ => Some "permission denied")
    (fun cmd => match cmd with Get _ => Some "i/o timeout" | _ => None end)
    (Some "connection refused").

(** An environment that sets one variable. *)
Definition setenv (key value : string) : string -> option string :=
  fun k => if String.eqb k key then Some value else None.

Definition remoteLogger : Logger :=
  {| client := Some {| Addresses := ["http://localhost:9200"];
                       Username := EmptyString; Password := EmptyString |};
     index := "test-logs"; hostname := "node-1"; redisKey := testKey |}.

Definition testEntry : LogEntry :=
  {| Timestamp := "2024-12-28T10:30:05Z"; EntryLevel := LevelInfo;
     Message := "hello"; Hostname := "node-1"; Service := "signalmice";
     EntryRedisKey := testKey; Extra := None |}.

(** What [checkAndShutdown] does with the result of the check. *)
Definition afterCheck (redisClient : redis.Client)
    (shutdownManager : shutdown.Manager) (appLogger : Logger)
    (r : bool * option error) : M unit :=
  match snd r with
  | Some err =>
      logger.ErrorWithExtra appLogger "Error checking Redis key"
        (Some [("error", Error err)])
  | None =>
      if negb (fst r)
      then logger.Debug appLogger "Redis key not found, continuing to monitor..."
      else
        logger.InfoWithExtra appLogger "Shutdown signal received! Key found and deleted."
          (Some [("key", redis.GetKey redisClient)]) ;;
        err <- shutdown.NeutralizeStuartLittle shutdownManager ;;
        match err with
        | Some e =>
            logger.ErrorWithExtra appLogger "Failed to initiate host shutdown"
              (Some [("error", Error e)])
        | None => logger.Info appLogger "Host shutdown initiated successfully"
        end
  end.

(** A queued remote write is safe when its logger has a client; a step of
    the program keeps the queue safe. *)
Definition has_client (t : Logger * LogEntry) : Prop := client (fst t) <> None.

Definition pool_safe (w w' : World) : Prop :=
  Forall has_client (goroutines w) -> Forall has_client (goroutines w').

(** The environment variables that [Load] reads. *)
Definition Load_variables : list string :=
  ["SIGNALMICE_CHECK_INTERVAL"; "REDIS_DB"; "REDIS_HOST"; "REDIS_PORT";
   "REDIS_PASSWORD"; "OPENSEARCH_URL"; "OPENSEARCH_USERNAME"; "OPENSEARCH_PASSWORD";
   "OPENSEARCH_INDEX"; "OPENSEARCH_USE_DAILY_INDEX"; "SIGNALMICE_KEY"; "HOST_PROC_PATH"].

(** ** Keys that do not hold a string *)

(** What a key of the Redis server can hold.  GET reads strings only: for a
    key that holds a value of another type the server answers GET with the
    error WRONGTYPE.  DEL removes a key of any type.  Sets, sorted sets and
    streams are to GET and DEL what lists and hashes are, and are left out. *)
Inductive RedisValue :=
| RString (s : string)
| RList (items : list string)
| RHash (fields : list (string * string)).


Definition string_of (v : RedisValue) : option string :=
  match v with RString s => Some s | _ => None end.

Definition WRONGTYPE : string :=
  "WRONGTYPE Operation against a key holding the wrong kind of value".

(** Has the server answered a DEL of [k] in the history [tr]?  [pre] is the
    history before [tr]. *)
Fixpoint deleted (fault : list Event -> RedisCmd -> option string)
    (pre tr : list Event) (k : string) : bool :=
  match tr with
  | [] => false
  | e :: tr' =>
      match e with
      | EvRedis (Del k') =>
          String.eqb k' k && bool_decide (fault pre (Del k') = None)
      | _ => false
      end || deleted fault (pre ++ [e]) tr' k
  end.

(** The host [h] when its Redis server starts with the key space [ks]: on top
    of the faults of [h], a GET of a key of [ks] that does not hold a string
    is answered with WRONGTYPE, until a DEL has removed the key. *)
Definition typed_host (h : Host) (ks : gmap string RedisValue) : Host :=
  {| LookupEnv := LookupEnv h;
     Hostname_reply := Hostname_reply h;
     Now := Now h;
     exec_reply := exec_reply h;
     stat_reply := stat_reply h;
     write_reply := write_reply h;
     redis_fault := fun tr cmd =>
       match redis_fault h tr cmd, cmd with
       | Some msg, _ => Some msg
       | None, Get k =>
           match ks !! k with
           | Some (RString _) | None => None
           | Some _ =>
               if deleted (redis_fault h) [] tr k then None else Some WRONGTYPE
           end
       | None, _ => None
       end;
     opensearch_NewClient_reply := opensearch_NewClient_reply h;
     opensearch_Info_reply := opensearch_Info_reply h;
     opensearch_Index_reply := opensearch_Index_reply h;
     filepath_Join := filepath_Join h;
     Duration_String := Duration_String h |}.

(** The world at process start on the host [h] whose Redis server holds
    [ks]: [store] takes the keys that hold a string, the values GET returns;
    the other keys show in the replies of the host to GET. *)
Definition serve (h : Host) (ks : gmap string RedisValue) : World :=
  boot (typed_host h ks) (omap string_of ks).

(** Is the key [k] of [ks] still on the server in the world [w], reached from
    [serve h ks]? *)
Definition holds (h : Host) (ks : gmap string RedisValue) (w : World)
    (k : string) : bool :=
  match ks !! k with
  | Some (RString _) => bool_decide (is_Some (store w !! k))
  | Some _ => negb (deleted (redis_fault h) [] (trace w) k)
  | None => false
  end.

(** The lines a detection cycle can write to the console. *)
Definition cycle_lines : list string :=
  ["[ERROR] Error checking Redis key";
   "[DEBUG] Redis key not found, continuing to monitor...";
   "[INFO] Shutdown signal received! Key found and deleted.";
   "[INFO] Initiating host machine shutdown...";
   "[INFO] Attempting shutdown via nsenter";
   "[WARN] Shutdown via nsenter failed";
   "[INFO] Shutdown initiated successfully via nsenter";
   "[INFO] Attempting shutdown via sysrq-trigger";
   "[WARN] Failed to sync filesystems via sysrq";
   "[WARN] Failed to remount filesystems read-only via sysrq";
   "[WARN] Shutdown via sysrq-trigger failed";
   "[INFO] Shutdown initiated successfully via sysrq-trigger";
   "[INFO] Attempting shutdown via direct-command";
   "[WARN] Shutdown via direct-command failed";
   "[INFO] Shutdown initiated successfully via direct-command";
   "[ERROR] Failed to initiate host shutdown";
   "[INFO] Host shutdown initiated successfully"].

(** The event is not a console line, or it is one of [lines]. *)
Definition on_console (lines : list string) (e : Event) : Prop :=
  match e with
  | EvStdout s => s ∈ lines
  | _ => True
  end.

(** The queue of goroutines is as it was. *)
Definition same_pool (w w' : World) : Prop := goroutines w' = goroutines w.

(** * Properties *)

(** ** Strings *)

#[local] Arguments String.append !_ _ / : simpl nomatch.

Lemma append_empty_r (s : string) : s +:+ EmptyString = s.
Proof. induction s as [|a s IH]; simpl; [done | by rewrite IH]. Qed.

Lemma append_length (s t : string) :
  String.length (s +:+ t) = String.length s + String.length t.
Proof. induction s as [|a s IH]; simpl; [done | by rewrite IH]. Qed.

(** ** The trace discipline *)

Lemma issued_app w w' d : trace w' = trace w ++ d -> issued w w' = d.
Proof. unfold issued. intros ->. by rewrite drop_app_length. Qed.

Lemma issued_refl w : issued w w = [].
Proof. apply issued_app. by rewrite app_nil_r. Qed.

Lemma appends_intro {A} (c : M A) :
  (forall w, host (snd (c w)) = host w /\ exists d, trace (snd (c w)) = trace w ++ d) ->
  appends c.
Proof.
  intros H w. destruct (H w) as [Hh [d Hd]]. split; [done|].
  unfold effect. by rewrite (issued_app _ _ _ Hd).
Qed.

Lemma appends_ret {A} (a : A) : appends (ret a).
Proof. apply appends_intro. intros w. split; [done|]. exists []. by rewrite app_nil_r. Qed.

Lemma appends_ask {A} (f : Host -> list Event -> A) : appends (ask f).
Proof. apply appends_intro. intros w. split; [done|]. exists []. by rewrite app_nil_r. Qed.

Lemma appends_emit e : appends (emit e).
Proof. apply appends_intro. intros w. split; [done|]. by exists [e]. Qed.

Lemma appends_spawn t : appends (spawn t).
Proof. apply appends_intro. intros w. split; [done|]. exists []. by rewrite app_nil_r. Qed.

Lemma appends_get_store : appends get_store.
Proof. apply appends_intro. intros w. split; [done|]. exists []. by rewrite app_nil_r. Qed.

Lemma appends_set_store s : appends (set_store s).
Proof. apply appends_intro. intros w. split; [done|]. exists []. by rewrite app_nil_r. Qed.

Lemma bind_run {A B} (c : M A) (k : A -> M B) w :
  bind c k w = k (fst (c w)) (snd (c w)).
Proof. unfold bind. by destruct (c w). Qed.

Lemma appends_bind {A B} (c : M A) (k : A -> M B) :
  appends c -> (forall a, appends (k a)) -> appends (bind c k).
Proof.
  intros Hc Hk. apply appends_intro. intros w. rewrite bind_run.
  destruct (Hc w) as [Hh Ht]. destruct (Hk (fst (c w)) (snd (c w))) as [Hh' Ht'].
  split; [congruence|].
  eexists. rewrite Ht', Ht, <- app_assoc. reflexivity.
Qed.

Lemma effect_bind {A B} (c : M A) (k : A -> M B) w :
  appends c -> (forall a, appends (k a)) ->
  effect (bind c k) w = effect c w ++ effect (k (fst (c w))) (snd (c w)).
Proof.
  intros Hc Hk. unfold effect at 1. rewrite bind_run. apply issued_app.
  destruct (Hc w) as [_ Ht]. destruct (Hk (fst (c w)) (snd (c w))) as [_ Ht'].
  by rewrite Ht', Ht, <- app_assoc.
Qed.

Lemma effect_ret {A} (a : A) w : effect (ret a) w = [].
Proof. apply issued_refl. Qed.

Lemma effect_ask {A} (f : Host -> list Event -> A) w : effect (ask f) w = [].
Proof. apply issued_refl. Qed.

Lemma effect_emit e w : effect (emit e) w = [e].
Proof. by apply issued_app. Qed.

Lemma effect_spawn t w : effect (spawn t) w = [].
Proof. by apply issued_app; rewrite app_nil_r. Qed.

Lemma effect_get_store w : effect get_store w = [].
Proof. apply issued_refl. Qed.

Lemma effect_set_store s w : effect (set_store s) w = [].
Proof. by apply issued_app; rewrite app_nil_r. Qed.

Create HintDb go discriminated.
#[local] Hint Resolve appends_ret appends_ask appends_emit appends_spawn
  appends_get_store appends_set_store : go.

(** Decompose a computation along its binds and case distinctions. *)
Ltac appends_step :=
  match goal with
  | |- appends (bind _ _) => apply appends_bind; [| intros ?]
  | |- appends (match ?x with _ => _ end) => destruct x
  | |- appends (if ?x then _ else _) => destruct x
  | |- appends (let _ := _ in _) => cbv zeta
  | |- appends _ => solve [auto with go]
  end.
Ltac appends_tac := repeat appends_step.

Lemma appends_Printf line : appends (Printf line).
Proof. apply appends_emit. Qed.
#[local] Hint Resolve appends_Printf : go.

Lemma appends_log l level message extra : appends (logger.log l level message extra).
Proof. unfold logger.log. appends_tac. Qed.
#[local] Hint Resolve appends_log : go.

Lemma effect_log l level message extra w :
  effect (logger.log l level message extra) w =
    [EvStdout ("[" +:+ Level_string level +:+ "] " +:+ message)].
Proof.
  apply issued_app. unfold logger.log, bind, ask, Printf, emit, spawn, ret.
  by destruct (client l).
Qed.

Lemma host_log l level message extra w :
  host (snd (logger.log l level message extra w)) = host w.
Proof. apply appends_log. Qed.

Lemma trace_log l level message extra w :
  trace (snd (logger.log l level message extra w)) =
    trace w ++ [EvStdout ("[" +:+ Level_string level +:+ "] " +:+ message)].
Proof. rewrite <- (effect_log l level message extra w). apply appends_log. Qed.

(** ** The signal watcher: check and clear *)

(** Read the requests issued off a trace of the form [trace w ++ ...]. *)
Ltac read_issued :=
  match goal with
  | |- context [issued ?w ?w'] =>
      erewrite (issued_app w w') by (simpl; rewrite <- ?app_assoc; reflexivity)
  end.

Ltac run_redis :=
  unfold redis.CheckAndDeleteKey, redis.cmd_Get, redis.cmd_Del, bind, ask, emit,
    ret, get_store, set_store; simpl.

Lemma appends_CheckAndDeleteKey c : appends (redis.CheckAndDeleteKey c).
Proof.
  unfold redis.CheckAndDeleteKey, redis.cmd_Get, redis.cmd_Del. appends_tac.
Qed.
#[local] Hint Resolve appends_CheckAndDeleteKey : go.

(** A check issues one GET and, only after a GET that found the key, one DEL. *)
Lemma redis_cmds_CheckAndDeleteKey c w :
  let k := redis.key c in
  redis_cmds (effect (redis.CheckAndDeleteKey c) w) = [Get k] \/
  redis_cmds (effect (redis.CheckAndDeleteKey c) w) = [Get k; Del k].
Proof.
  unfold effect. run_redis.
  destruct (redis_fault (host w) (trace w) (Get (redis.key c))); simpl.
  { left. by read_issued. }
  destruct (store w !! redis.key c); simpl.
  2:{ left. by read_issued. }
  right.
  destruct (redis_fault _ _ (Del _)); simpl; by read_issued.
Qed.

(** C3. Check-and-clear consumes the trigger.  Against a store without the
    key, a check answered by the server returns (false, nil), issues the GET
    only (no DEL) and leaves the store as it was.  Against a store with the
    key it returns (true, nil) and removes the key, so the check that follows
    immediately returns (false, nil). *)
Theorem check_and_clear_consumes (c : redis.Client) (w : World) :
  let k := redis.key c in
  let r := redis.CheckAndDeleteKey c w in
  (store w !! k = None ->
   answers (host w) (trace w) [Get k] ->
   fst r = (false, None) /\
   redis_cmds (effect (redis.CheckAndDeleteKey c) w) = [Get k] /\
   store (snd r) = store w) /\
  (is_Some (store w !! k) ->
   answers (host w) (trace w) [Get k; Del k; Get k] ->
   fst r = (true, None) /\
   redis_cmds (effect (redis.CheckAndDeleteKey c) w) = [Get k; Del k] /\
   store (snd r) = delete k (store w) /\
   fst (redis.CheckAndDeleteKey c (snd r)) = (false, None)).
Proof.
  intros k r. subst r k. split.
  - intros Habs [Hget _]. unfold effect. run_redis.
    rewrite Hget. simpl. rewrite Habs. simpl. repeat split.
    by read_issued.
  - intros [v Hv] (Hget & Hdel & Hget' & _). unfold effect. run_redis.
    rewrite Hget. simpl. rewrite Hv. simpl. rewrite Hdel. simpl.
    rewrite Hget'. simpl. rewrite lookup_delete_eq. simpl. repeat split.
    by read_issued.
Qed.

Lemma check_and_clear_consumes_witness :
  let w0 := boot unprivileged ∅ in
  let w := boot unprivileged {[ testKey := "shutdown" ]} in
  (store w0 !! testKey = None /\
   fst (redis.CheckAndDeleteKey testClient w0) = (false, None) /\
   redis_cmds (effect (redis.CheckAndDeleteKey testClient) w0) = [Get testKey]) /\
  (is_Some (store w !! testKey) /\
   answers (host w) (trace w) [Get testKey; Del testKey; Get testKey] /\
   fst (redis.CheckAndDeleteKey testClient w) = (true, None) /\
   fst (redis.CheckAndDeleteKey testClient
          (snd (redis.CheckAndDeleteKey testClient w))) = (false, None)).
Proof.
  intros w0 w. split.
  - destruct (check_and_clear_consumes testClient w0) as [H _].
    destruct (H eq_refl (conj eq_refl I)) as (H1 & H2 & _).
    exact (conj eq_refl (conj H1 H2)).
  - assert (Hs : is_Some (store w !! testKey)) by (eexists; reflexivity).
    assert (Ha : answers (host w) (trace w) [Get testKey; Del testKey; Get testKey])
      by (simpl; tauto).
    destruct (check_and_clear_consumes testClient w) as [_ H].
    destruct (H Hs Ha) as (H1 & _ & _ & H2).
    exact (conj Hs (conj Ha (conj H1 H2))).
Defined.

(** C7. When the key is present, the GET succeeds and the DEL fails, the
    check returns detected = false together with an error that wraps the
    failure of the DEL; the key is still in the store, so a later check that
    the server answers observes it again. *)
Theorem delete_failure_is_propagated (c : redis.Client) (w : World) (msg : string) :
  let k := redis.key c in
  let r := redis.CheckAndDeleteKey c w in
  is_Some (store w !! k) ->
  redis_fault (host w) (trace w) (Get k) = None ->
  redis_fault (host w) (trace w ++ [EvRedis (Get k)]) (Del k) = Some msg ->
  fst r = (false, Some (Errorf_w "failed to delete key: " (OsError msg) EmptyString)) /\
  (exists e, snd (fst r) = Some e /\ Unwrap e = Some (OsError msg) /\
             Error e = "failed to delete key: " +:+ msg) /\
  store (snd r) = store w /\
  (answers (host w) (trace (snd r)) [Get k; Del k] ->
   fst (redis.CheckAndDeleteKey c (snd r)) = (true, None)).
Proof.
  intros k r [v Hv] Hget Hdel. subst r k. run_redis.
  rewrite Hget. simpl. rewrite Hv. simpl. rewrite Hdel. simpl. repeat split.
  - eexists. repeat split. simpl. by rewrite append_empty_r.
  - rewrite <- !app_assoc. simpl. intros (Hget' & Hdel' & _).
    rewrite Hget'. simpl. rewrite Hv. simpl. rewrite <- ?app_assoc. simpl.
    by rewrite Hdel'.
Qed.

Lemma delete_failure_is_propagated_witness :
  let w := boot delTimesOut {[ testKey := "shutdown" ]} in
  fst (redis.CheckAndDeleteKey testClient w) =
    (false, Some (WrapError "failed to delete key: i/o timeout" (OsError "i/o timeout"))) /\
  store (snd (redis.CheckAndDeleteKey testClient w)) = store w.
Proof.
  intros w.
  assert (Hs : is_Some (store w !! redis.key testClient)) by (eexists; reflexivity).
  destruct (delete_failure_is_propagated testClient w "i/o timeout" Hs eq_refl eq_refl)
    as (H1 & _ & H2 & _).
  exact (conj H1 H2).
Defined.




(** The two runs of the counterexample, step by step: the string is read,
    deleted and reported; the list makes the GET fail, no DEL follows and the
    key is still on the server. *)
Example trigger_of_the_wrong_type :
  let ks1 : gmap string RedisValue := {[ testKey := RString "shutdown" ]} in
  let ks2 : gmap string RedisValue := {[ testKey := RList ["shutdown"] ]} in
  let r1 := redis.CheckAndDeleteKey testClient (serve unprivileged ks1) in
  let r2 := redis.CheckAndDeleteKey testClient (serve unprivileged ks2) in
  fst r1 = (true, None) /\
  trace (snd r1) = [EvRedis (Get testKey); EvRedis (Del testKey)] /\
  holds unprivileged ks1 (snd r1) testKey = false /\
  fst r2 =
    (false,
     Some (WrapError
             "failed to get key: WRONGTYPE Operation against a key holding the wrong kind of value"
             (OsError WRONGTYPE))) /\
  trace (snd r2) = [EvRedis (Get testKey)] /\
  holds unprivileged ks2 (snd r2) testKey = true.
Proof. repeat split; vm_compute; reflexivity. Qed.

(** ** The shutdown methods *)

Lemma appends_CombinedOutput argv : appends (shutdown.CombinedOutput argv).
Proof. unfold shutdown.CombinedOutput. appends_tac. Qed.

Lemma appends_Stat path : appends (shutdown.Stat path).
Proof. unfold shutdown.Stat. appends_tac. Qed.

Lemma appends_WriteFile path data : appends (shutdown.WriteFile path data).
Proof. unfold shutdown.WriteFile. appends_tac. Qed.

Lemma appends_Warn l message : appends (logger.Warn l message).
Proof. apply appends_log. Qed.

#[local] Hint Resolve appends_CombinedOutput appends_Stat appends_WriteFile
  appends_Warn : go.

Lemma appends_shutdownViaNsenter m : appends (shutdown.shutdownViaNsenter m).
Proof. unfold shutdown.shutdownViaNsenter. appends_tac. Qed.

Lemma appends_shutdownViaSysrq m : appends (shutdown.shutdownViaSysrq m).
Proof. unfold shutdown.shutdownViaSysrq. appends_tac. Qed.

Lemma appends_shutdownViaDirect m : appends (shutdown.shutdownViaDirect m).
Proof. unfold shutdown.shutdownViaDirect. appends_tac. Qed.

#[local] Hint Resolve appends_shutdownViaNsenter appends_shutdownViaSysrq
  appends_shutdownViaDirect : go.

Ltac run_shutdown :=
  unfold shutdown.shutdownViaNsenter, shutdown.shutdownViaSysrq,
    shutdown.shutdownViaDirect, shutdown.CombinedOutput, shutdown.Stat,
    shutdown.WriteFile, logger.Warn, logger.log, Printf, bind, ask, emit, spawn, ret;
  simpl.

(** Case analysis on the replies to the file writes, in program order. *)
Ltac settle_writes :=
  repeat (simpl; rewrite <- ?app_assoc; simpl;
          match goal with
          | |- context [write_reply ?h ?t ?p ?d] =>
              destruct (write_reply h t p d) eqn:?
          end).

(** The [nsenter] method issues its one command and nothing else. *)
Lemma effect_shutdownViaNsenter m w :
  effect (shutdown.shutdownViaNsenter m) w = [EvExec shutdown.nsenter_argv].
Proof.
  unfold effect. run_shutdown.
  destruct (exec_reply _ _ _) as [out [msg|]]; simpl; by read_issued.
Qed.

(** The direct method runs [poweroff], and [shutdown -h now] only when
    [poweroff] failed. *)
Lemma effect_shutdownViaDirect m w :
  effect (shutdown.shutdownViaDirect m) w =
    match snd (exec_reply (host w) (trace w) ["poweroff"]) with
    | Some _ => [EvExec ["poweroff"]; EvExec ["shutdown"; "-h"; "now"]]
    | None => [EvExec ["poweroff"]]
    end.
Proof.
  unfold effect. run_shutdown.
  destruct (exec_reply (host w) (trace w) ["poweroff"]) as [out [msg|]]; simpl.
  - destruct (exec_reply _ _ _) as [out2 [msg2|]]; simpl; by read_issued.
  - by read_issued.
Qed.

(** C4. The kernel-request-queue method.  When the host proc path does not
    exist the method fails at once with the "not mounted" error, having issued
    the [os.Stat] only: nothing is written.  Otherwise the three writes 's',
    'u', 'o' to the control file are all issued, in this order, whatever the
    first two reply (a failure of either only adds a warning to the console),
    and the method succeeds exactly when the write of 'o' does; its error
    wraps the failure of that write. *)
Theorem sysrq_power_off_decides (m : shutdown.Manager) (w : World) :
  let hp := shutdown.hostProcPath m in
  let p := filepath_Join (host w) hp "sysrq-trigger" in
  let r := shutdown.shutdownViaSysrq m w in
  let h1 := trace w ++ [EvStat hp] in
  let rs := write_reply (host w) h1 p "s" in
  let h2 := h1 ++ [EvWriteFile p "s"] ++ warned rs "Failed to sync filesystems via sysrq" in
  let ru := write_reply (host w) h2 p "u" in
  let h3 := h2 ++ [EvWriteFile p "u"]
               ++ warned ru "Failed to remount filesystems read-only via sysrq" in
  let ro := write_reply (host w) h3 p "o" in
  (stat_reply (host w) (trace w) hp = StatNotExist ->
   fst r = Some (ErrorString ("host proc path not mounted: " +:+ hp)) /\
   effect (shutdown.shutdownViaSysrq m) w = [EvStat hp] /\
   writes (effect (shutdown.shutdownViaSysrq m) w) = []) /\
  (stat_reply (host w) (trace w) hp <> StatNotExist ->
   trace (snd r) = h3 ++ [EvWriteFile p "o"] /\
   writes (effect (shutdown.shutdownViaSysrq m) w) = [(p, "s"); (p, "u"); (p, "o")] /\
   fst r = match ro with
           | Some msg => Some (Errorf_w "failed to write to sysrq-trigger: " (OsError msg) EmptyString)
           | None => None
           end /\
   (fst r = None <-> ro = None)).
Proof.
  cbv zeta. unfold effect, writes. split; intros Hst.
  - run_shutdown. rewrite Hst. simpl. repeat split; by read_issued.
  - run_shutdown.
    destruct (stat_reply (host w) (trace w) (shutdown.hostProcPath m)); [|done|];
      destruct (client (shutdown.logger m));
      settle_writes.
    all: simpl; rewrite <- ?app_assoc; simpl.
    all: repeat split; try (by read_issued); done.
Qed.

Lemma sysrq_power_off_decides_witness :
  (stat_reply unprivileged [] "/host/proc" = StatNotExist /\
   shutdown.shutdownViaSysrq testManager (boot unprivileged ∅) =
     (Some (ErrorString "host proc path not mounted: /host/proc"),
      {| host := unprivileged; trace := [EvStat "/host/proc"];
         store := ∅; goroutines := [] |})) /\
  (stat_reply procMounted [] "/host/proc" <> StatNotExist /\
   fst (shutdown.shutdownViaSysrq testManager (boot procMounted ∅)) = None /\
   writes (effect (shutdown.shutdownViaSysrq testManager) (boot procMounted ∅)) =
     [("/host/proc/sysrq-trigger", "s"); ("/host/proc/sysrq-trigger", "u");
      ("/host/proc/sysrq-trigger", "o")]).
Proof.
  split.
  - split; [reflexivity|].
    destruct (sysrq_power_off_decides testManager (boot unprivileged ∅)) as [H _].
    destruct (H eq_refl) as (_ & _ & _). reflexivity.
  - assert (Hst : stat_reply procMounted [] "/host/proc" <> StatNotExist)
      by discriminate.
    destruct (sysrq_power_off_decides testManager (boot procMounted ∅)) as [_ H].
    destruct (H Hst) as (_ & Hw & Hr & _).
    exact (conj Hst (conj Hr Hw)).
Defined.

(** ** What is observed of each method *)

Lemma observed_app d1 d2 : observed (d1 ++ d2) = observed d1 ++ observed d2.
Proof. apply omap_app. Qed.

Lemma tame_nsenter m :
  tame {| shutdown.name := "nsenter"; shutdown.fn := shutdown.shutdownViaNsenter m |}.
Proof.
  split; simpl; [auto with go|]. intros w. by rewrite effect_shutdownViaNsenter.
Qed.

Lemma tame_sysrq m :
  tame {| shutdown.name := "sysrq-trigger"; shutdown.fn := shutdown.shutdownViaSysrq m |}.
Proof.
  split; simpl; [auto with go|]. intros w. unfold effect. run_shutdown.
  destruct (stat_reply (host w) (trace w) (shutdown.hostProcPath m));
    destruct (client (shutdown.logger m));
    settle_writes.
  all: simpl; rewrite <- ?app_assoc; simpl; by read_issued.
Qed.

Lemma tame_direct m :
  tame {| shutdown.name := "direct-command"; shutdown.fn := shutdown.shutdownViaDirect m |}.
Proof.
  split; simpl; [auto with go|]. intros w. rewrite effect_shutdownViaDirect.
  by destruct (snd _).
Qed.

Lemma tame_methods m : Forall tame (shutdown.methods m).
Proof.
  unfold shutdown.methods.
  constructor; [apply tame_nsenter|].
  constructor; [apply tame_sysrq|].
  constructor; [apply tame_direct|].
  constructor.
Qed.

(** The shapes of the errors the three methods return. *)
Lemma error_of_nsenter m w err w' :
  shutdown.shutdownViaNsenter m w = (Some err, w') ->
  exists msg out,
    err = Errorf_w "nsenter poweroff failed: " (OsError msg) (", output: " +:+ out).
Proof.
  run_shutdown. destruct (exec_reply _ _ _) as [out [msg|]]; simpl; [|done].
  intros [= <- _]. by exists msg, out.
Qed.

Lemma error_of_sysrq m w err w' :
  shutdown.shutdownViaSysrq m w = (Some err, w') ->
  err = ErrorString ("host proc path not mounted: " +:+ shutdown.hostProcPath m) \/
  exists msg, err = Errorf_w "failed to write to sysrq-trigger: " (OsError msg) EmptyString.
Proof.
  run_shutdown.
  destruct (stat_reply (host w) (trace w) (shutdown.hostProcPath m));
    destruct (client (shutdown.logger m));
    settle_writes.
  all: simpl; intros [= <- _] || discriminate.
  all: (by left) || (right; by eexists).
Qed.

Lemma error_of_direct m w err w' :
  shutdown.shutdownViaDirect m w = (Some err, w') ->
  exists msg out,
    err = Errorf_w "shutdown commands failed: " (OsError msg) (", output: " +:+ out).
Proof.
  run_shutdown.
  destruct (exec_reply (host w) (trace w) ["poweroff"]) as [out [msg|]]; simpl; [|done].
  destruct (exec_reply _ _ _) as [out2 [msg2|]]; simpl; [|done].
  intros [= <- _]. by exists msg2, out2.
Qed.

(** ** The loop over the methods *)

Lemma strip_prefix_app p s : strip_prefix p (p +:+ s) = Some s.
Proof.
  induction p as [|a p IH]; simpl; [done|]. by rewrite Ascii.eqb_refl.
Qed.

Lemma observed_announce name :
  observed [EvStdout ("[" +:+ Level_string LevelInfo +:+ "] "
                        +:+ ("Attempting shutdown via " +:+ name))] = [Announced name].
Proof.
  change (omap observe [EvStdout ("[INFO] Attempting shutdown via " +:+ name)]
            = [Announced name]).
  cbn [omap list_omap]. unfold observe. by rewrite strip_prefix_app.
Qed.

Lemma attempts_of_cons name names :
  attempts_of (name :: names) = [Announced name; Entered name] ++ attempts_of names.
Proof. reflexivity. Qed.

Lemma attempts_of_app names1 names2 :
  attempts_of (names1 ++ names2) = attempts_of names1 ++ attempts_of names2.
Proof. unfold attempts_of. apply bind_app. Qed.

Section Chain.

Variable l : Logger.

Lemma rangeMethods_failed mth rest lastErr w err w1 :
  shutdown.fn mth (attemptWorld l mth w) = (Some err, w1) ->
  shutdown.rangeMethods l (mth :: rest) lastErr w =
    shutdown.rangeMethods l rest (Some err) (failedWorld l mth err w1).
Proof.
  intros H. cbn [shutdown.rangeMethods]. rewrite bind_run.
  change (snd (logger.InfoWithExtra l _ None w)) with (attemptWorld l mth w).
  rewrite bind_run, H. cbn [fst snd]. by rewrite bind_run.
Qed.

Lemma rangeMethods_succeeded mth rest lastErr w w1 :
  shutdown.fn mth (attemptWorld l mth w) = (None, w1) ->
  shutdown.rangeMethods l (mth :: rest) lastErr w =
    (shutdown.Returned None,
     snd (logger.Info l ("Shutdown initiated successfully via " +:+ shutdown.name mth)
            w1)).
Proof.
  intros H. cbn [shutdown.rangeMethods]. rewrite bind_run.
  change (snd (logger.InfoWithExtra l _ None w)) with (attemptWorld l mth w).
  rewrite bind_run, H. cbn [fst snd]. rewrite bind_run. reflexivity.
Qed.

(** A prefix of failing methods is run through; the loop goes on with the
    rest, remembering the last error. *)
Lemma rangeMethods_AllFail pre w errs w' :
  AllFail l pre w errs w' ->
  forall rest lastErr,
    shutdown.rangeMethods l (pre ++ rest) lastErr w =
      shutdown.rangeMethods l rest
        (match last errs with Some e => Some e | None => lastErr end) w'.
Proof.
  induction 1 as [w | mth ms w err w1 errs w' Hfn Hrest IH]; intros rest lastErr.
  - reflexivity.
  - rewrite <- app_comm_cons, (rangeMethods_failed _ _ _ _ _ _ Hfn), IH.
    f_equal. destruct errs as [|e errs]; [done|].
    change (last (err :: e :: errs)) with (last (e :: errs)).
    destruct (last (e :: errs)) eqn:E; [done|]. by apply last_None in E.
Qed.

(** What a prefix of failing, tame methods leaves in the trace. *)
Lemma observed_AllFail pre w errs w' :
  Forall tame pre ->
  AllFail l pre w errs w' ->
  host w' = host w /\ length errs = length pre /\
  exists d, trace w' = trace w ++ d /\
            observed d = attempts_of (shutdown.name <$> pre).
Proof.
  intros Htame H. induction H as [w | mth ms w err w1 errs w' Hfn Hrest IH].
  - repeat split. exists []. by rewrite app_nil_r.
  - apply Forall_cons in Htame as [[Happ Hobs] Htame].
    destruct (IH Htame) as (Hh & Hlen & d & Hd & Hod).
    destruct (Happ (attemptWorld l mth w)) as [Hh1 Ht1].
    rewrite Hfn in Hh1, Ht1. simpl in Hh1, Ht1.
    specialize (Hobs (attemptWorld l mth w)).
    unfold failedWorld, logger.WarnWithExtra in Hh, Hd.
    rewrite host_log in Hh. rewrite trace_log in Hd.
    unfold attemptWorld, logger.InfoWithExtra in Hh1, Ht1.
    rewrite host_log in Hh1. rewrite trace_log in Ht1.
    split; [congruence|]. split; [simpl; congruence|].
    eexists. split.
    + rewrite Hd, Ht1, <- !app_assoc. reflexivity.
    + unfold attemptWorld, logger.InfoWithExtra in Hobs.
      rewrite fmap_cons, attempts_of_cons, !observed_app, observed_announce.
      rewrite Hobs, Hod. reflexivity.
Qed.

End Chain.

(** ** The shutdown orchestration *)

Lemma method_names m :
  shutdown.name <$> shutdown.methods m = ["nsenter"; "sysrq-trigger"; "direct-command"].
Proof. reflexivity. Qed.

Lemma observed_log_quiet l level message extra w :
  strip_prefix "[INFO] Attempting shutdown via "
    ("[" +:+ Level_string level +:+ "] " +:+ message) = None ->
  observed (effect (logger.log l level message extra) w) = [].
Proof.
  intros H. rewrite effect_log. unfold observed. cbn [omap list_omap].
  unfold observe. by rewrite H.
Qed.

(** C1. First success wins.  Over the fixed chain nsenter, sysrq-trigger,
    direct-command: when the methods [pre] in front of a method all fail and
    that method succeeds, the run returns no error, and what is observed of
    the run is exactly the announcement and the entry of the first
    [length pre + 1] methods, in priority order; no later method is entered. *)
Theorem first_success_wins (m : shutdown.Manager) (w : World)
    (pre : list shutdown.method) (mth : shutdown.method)
    (post : list shutdown.method) (errs : list error) (w1 w2 : World) :
  shutdown.methods m = pre ++ mth :: post ->
  AllFail (shutdown.logger m) pre (startWorld m w) errs w1 ->
  shutdown.fn mth (attemptWorld (shutdown.logger m) mth w1) = (None, w2) ->
  fst (shutdown.NeutralizeStuartLittle m w) = None /\
  observed (effect (shutdown.NeutralizeStuartLittle m) w) =
    attempts_of (take (S (length pre)) ["nsenter"; "sysrq-trigger"; "direct-command"]) /\
  length errs = length pre.
Proof.
  intros Hm Hpre Hok. set (l := shutdown.logger m) in *.
  assert (Hrun : shutdown.NeutralizeStuartLittle m w =
    (None, snd (logger.Info l
                  ("Shutdown initiated successfully via " +:+ shutdown.name mth) w2))).
  { unfold shutdown.NeutralizeStuartLittle. rewrite bind_run.
    change (snd (logger.Info (shutdown.logger m) _ w)) with (startWorld m w).
    rewrite bind_run, Hm. fold l.
    rewrite (rangeMethods_AllFail l pre _ _ _ Hpre (mth :: post) None).
    by rewrite (rangeMethods_succeeded l mth post _ w1 w2 Hok). }
  pose proof (tame_methods m) as Htame. rewrite Hm in Htame.
  apply Forall_app in Htame as [Htpre Htame].
  apply Forall_cons in Htame as [[Happ Hobs] _].
  destruct (observed_AllFail l pre _ _ _ Htpre Hpre) as (_ & Hlen & d & Hd & Hod).
  destruct (Happ (attemptWorld l mth w1)) as [_ Ht2]. rewrite Hok in Ht2. simpl in Ht2.
  specialize (Hobs (attemptWorld l mth w1)).
  split; [by rewrite Hrun|]. split; [|done].
  unfold effect. rewrite Hrun. cbn [snd].
  erewrite issued_app.
  2:{ unfold logger.Info. rewrite trace_log, Ht2.
      unfold attemptWorld at 1, logger.InfoWithExtra. rewrite trace_log, Hd.
      unfold startWorld, logger.Info. rewrite trace_log, <- !app_assoc. reflexivity. }
  rewrite !observed_app, Hod, Hobs, observed_announce.
  rewrite <- (method_names m), Hm, fmap_app, fmap_cons.
  replace (S (length pre)) with (length pre + 1) by lia.
  rewrite (take_app_add' _ _ (length pre) 1) by (by rewrite length_fmap).
  rewrite attempts_of_app. reflexivity.
Qed.

Lemma first_success_wins_witness :
  let w := boot procMounted ∅ in
  fst (shutdown.NeutralizeStuartLittle testManager w) = None /\
  observed (effect (shutdown.NeutralizeStuartLittle testManager) w) =
    [Announced "nsenter"; Entered "nsenter";
     Announced "sysrq-trigger"; Entered "sysrq-trigger"].
Proof.
  intros w.
  edestruct (first_success_wins testManager w
               [ {| shutdown.name := "nsenter";
                    shutdown.fn := shutdown.shutdownViaNsenter testManager |} ]
               {| shutdown.name := "sysrq-trigger";
                  shutdown.fn := shutdown.shutdownViaSysrq testManager |}
               [ {| shutdown.name := "direct-command";
                    shutdown.fn := shutdown.shutdownViaDirect testManager |} ])
    as (H1 & H2 & _).
  - reflexivity.
  - eapply AllFail_cons; [reflexivity | apply AllFail_nil].
  - reflexivity.
  - exact (conj H1 H2).
Defined.

(** C2. When all three methods fail, all three are attempted, in priority
    order, and the run returns one error: it wraps the error of the last
    method (direct-command); the errors of the two earlier methods are not in
    its chain. *)
Theorem all_methods_fail (m : shutdown.Manager) (w : World)
    (errs : list error) (w' : World) :
  AllFail (shutdown.logger m) (shutdown.methods m) (startWorld m w) errs w' ->
  exists e1 e2 e3,
    errs = [e1; e2; e3] /\
    shutdown.NeutralizeStuartLittle m w =
      (Some (Errorf_w "all shutdown methods failed, last error: " e3 EmptyString), w') /\
    Unwrap (Errorf_w "all shutdown methods failed, last error: " e3 EmptyString) = Some e3 /\
    (e1 ∉ errChain (Errorf_w "all shutdown methods failed, last error: " e3 EmptyString)) /\
    (e2 ∉ errChain (Errorf_w "all shutdown methods failed, last error: " e3 EmptyString)) /\
    observed (effect (shutdown.NeutralizeStuartLittle m) w) =
      attempts_of ["nsenter"; "sysrq-trigger"; "direct-command"].
Proof.
  intros Hall. set (l := shutdown.logger m) in *.
  destruct (observed_AllFail l _ _ _ _ (tame_methods m) Hall) as (_ & _ & d & Hd & Hod).
  assert (Hrun : forall e, last errs = Some e ->
    shutdown.NeutralizeStuartLittle m w = (Some (shutdown.allFailed (Some e)), w')).
  { intros e He. unfold shutdown.NeutralizeStuartLittle. rewrite bind_run.
    change (snd (logger.Info (shutdown.logger m) _ w)) with (startWorld m w).
    rewrite bind_run. fold l.
    rewrite <- (app_nil_r (shutdown.methods m)).
    rewrite (rangeMethods_AllFail l _ _ _ _ Hall [] None), He. reflexivity. }
  unfold shutdown.methods in Hall.
  inversion Hall as [| ? ? ? e1 wa errs1 ? H1 Hall1]; subst.
  inversion Hall1 as [| ? ? ? e2 wb errs2 ? H2 Hall2]; subst.
  inversion Hall2 as [| ? ? ? e3 wc errs3 ? H3 Hall3]; subst.
  inversion Hall3; subst. simpl in H1, H2, H3.
  exists e1, e2, e3. split; [done|]. split; [by apply Hrun|]. split; [done|].
  apply error_of_nsenter in H1 as (msg1 & out1 & ->).
  apply error_of_direct in H3 as (msg3 & out3 & ->).
  split; [|split].
  - unfold Errorf_w. simpl. rewrite !not_elem_of_cons. repeat split; try discriminate.
    apply not_elem_of_nil.
  - apply error_of_sysrq in H2 as [-> | [msg2 ->]]; unfold Errorf_w; simpl;
      rewrite !not_elem_of_cons; repeat split; try discriminate; apply not_elem_of_nil.
  - unfold effect. rewrite (Hrun _ eq_refl). cbn [snd].
    erewrite issued_app.
    2:{ rewrite Hd. unfold startWorld, logger.Info.
        rewrite trace_log, <- !app_assoc. reflexivity. }
    rewrite observed_app, Hod. reflexivity.
Qed.

Lemma all_methods_fail_witness :
  let w := boot unprivileged ∅ in
  exists e w',
    shutdown.NeutralizeStuartLittle testManager w =
      (Some (Errorf_w "all shutdown methods failed, last error: " e EmptyString), w') /\
    Error e = "shutdown commands failed: exit status 1, output: ".
Proof.
  intros w.
  edestruct (all_methods_fail testManager w) as (e1 & e2 & e3 & He & Hrun & _).
  - eapply AllFail_cons; [reflexivity|].
    eapply AllFail_cons; [reflexivity|].
    eapply AllFail_cons; [reflexivity|]. apply AllFail_nil.
  - exists e3. eexists. split; [exact Hrun|]. by injection He as _ _ <-.
Defined.

(** ** The control loop *)

Lemma cycles_app d1 d2 : cycles (d1 ++ d2) = cycles d1 + cycles d2.
Proof.
  unfold cycles, redis_cmds. by rewrite omap_app, filter_app, length_app.
Qed.

Lemma idle_bind {A B} (c : M A) (k : A -> M B) :
  idle c -> (forall a, idle (k a)) -> idle (bind c k).
Proof.
  intros [Hc Hc0] Hk. split.
  - apply appends_bind; [done|]. intros a. apply Hk.
  - intros w. rewrite effect_bind; [|done|intros a; apply Hk].
    rewrite cycles_app, Hc0. by destruct (Hk (fst (c w))) as [_ ->].
Qed.

Lemma idle_ret {A} (a : A) : idle (ret a).
Proof. split; [auto with go|]. intros w. by rewrite effect_ret. Qed.

Lemma idle_ask {A} (f : Host -> list Event -> A) : idle (ask f).
Proof. split; [auto with go|]. intros w. by rewrite effect_ask. Qed.

Lemma idle_emit e :
  match e with EvRedis (Get _) => False | _ => True end -> idle (emit e).
Proof.
  intros He. split; [auto with go|]. intros w. rewrite effect_emit.
  destruct e as [| | | |[]| | |]; done.
Qed.

Lemma idle_log l level message extra : idle (logger.log l level message extra).
Proof. split; [auto with go|]. intros w. by rewrite effect_log. Qed.

#[local] Hint Resolve idle_ret idle_ask idle_log : go.

Ltac idle_step :=
  match goal with
  | |- idle (bind _ _) => apply idle_bind; [| intros ?]
  | |- idle (emit _) => apply idle_emit; exact I
  | |- idle (match ?x with _ => _ end) => destruct x
  | |- idle (if ?x then _ else _) => destruct x
  | |- idle _ => solve [auto with go]
  end.
Ltac idle_tac := repeat idle_step.

Lemma idle_shutdownViaNsenter m : idle (shutdown.shutdownViaNsenter m).
Proof.
  unfold shutdown.shutdownViaNsenter, shutdown.CombinedOutput. idle_tac.
Qed.

Lemma idle_shutdownViaSysrq m : idle (shutdown.shutdownViaSysrq m).
Proof.
  unfold shutdown.shutdownViaSysrq, shutdown.Stat, shutdown.WriteFile, logger.Warn.
  idle_tac.
Qed.

Lemma idle_shutdownViaDirect m : idle (shutdown.shutdownViaDirect m).
Proof.
  unfold shutdown.shutdownViaDirect, shutdown.CombinedOutput. idle_tac.
Qed.

Lemma idle_rangeMethods l ms lastErr :
  Forall (fun mth => idle (shutdown.fn mth)) ms ->
  idle (shutdown.rangeMethods l ms lastErr).
Proof.
  intros H. revert lastErr. induction H as [|mth ms Hm _ IH]; intros lastErr.
  - apply idle_ret.
  - cbn [shutdown.rangeMethods].
    unfold logger.InfoWithExtra, logger.WarnWithExtra, logger.Info. idle_tac.
Qed.

Lemma idle_NeutralizeStuartLittle m : idle (shutdown.NeutralizeStuartLittle m).
Proof.
  unfold shutdown.NeutralizeStuartLittle, logger.Info.
  apply idle_bind; [auto with go|]. intros _.
  apply idle_bind; [|intros []; apply idle_ret].
  apply idle_rangeMethods. unfold shutdown.methods.
  constructor; [apply idle_shutdownViaNsenter|].
  constructor; [apply idle_shutdownViaSysrq|].
  constructor; [apply idle_shutdownViaDirect|]. constructor.
Qed.
#[local] Hint Resolve idle_NeutralizeStuartLittle : go.

Lemma cycles_CheckAndDeleteKey c w :
  cycles (effect (redis.CheckAndDeleteKey c) w) = 1.
Proof.
  unfold cycles.
  by destruct (redis_cmds_CheckAndDeleteKey c w) as [-> | ->].
Qed.

(** One call of [checkAndShutdown] is one detection cycle, whatever the check
    and the shutdown chain return. *)
Lemma appends_checkAndShutdown rc sm lg : appends (checkAndShutdown rc sm lg).
Proof.
  unfold checkAndShutdown. apply appends_bind; [auto with go|]. intros r.
  unfold logger.ErrorWithExtra, logger.Debug, logger.InfoWithExtra, logger.Info.
  destruct (snd r); [auto with go|]. destruct (negb (fst r)); [auto with go|].
  apply appends_bind; [auto with go|]. intros _.
  apply appends_bind; [apply idle_NeutralizeStuartLittle|].
  intros []; auto with go.
Qed.

Lemma cycles_checkAndShutdown rc sm lg w :
  cycles (effect (checkAndShutdown rc sm lg) w) = 1.
Proof.
  unfold checkAndShutdown.
  assert (Hrest : forall r, idle (
    match snd r with
    | Some err =>
        logger.ErrorWithExtra lg "Error checking Redis key" (Some [("error", Error err)])
    | None =>
        if negb (fst r)
        then logger.Debug lg "Redis key not found, continuing to monitor..."
        else
          logger.InfoWithExtra lg "Shutdown signal received! Key found and deleted."
            (Some [("key", redis.GetKey rc)]) ;;
          err <- shutdown.NeutralizeStuartLittle sm ;;
          match err with
          | Some e =>
              logger.ErrorWithExtra lg "Failed to initiate host shutdown"
                (Some [("error", Error e)])
          | None => logger.Info lg "Host shutdown initiated successfully"
          end
    end)).
  { intros r.
    unfold logger.ErrorWithExtra, logger.Debug, logger.InfoWithExtra, logger.Info.
    idle_tac. }
  rewrite effect_bind; [|auto with go|intros r; apply Hrest].
  rewrite cycles_app, cycles_CheckAndDeleteKey.
  by destruct (Hrest (fst (redis.CheckAndDeleteKey rc w))) as [_ ->].
Qed.

Lemma appends_forSelect rc sm lg inputs : appends (forSelect rc sm lg inputs).
Proof.
  induction inputs as [|[|sig] rest IH]; cbn [forSelect].
  - auto with go.
  - apply appends_bind; [apply appends_checkAndShutdown | done].
  - unfold logger.InfoWithExtra, logger.Info. appends_tac.
Qed.

Lemma forSelect_outcome rc sm lg inputs w :
  fst (forSelect rc sm lg inputs w) =
    if existsb is_Signal inputs then Exit 0 else Waiting.
Proof.
  revert w. induction inputs as [|[|sig] rest IH]; intros w; cbn [forSelect].
  - reflexivity.
  - rewrite bind_run. apply IH.
  - by rewrite !bind_run.
Qed.

Lemma forSelect_cycles rc sm lg inputs w :
  cycles (effect (forSelect rc sm lg inputs) w) = ticks_served inputs.
Proof.
  revert w. induction inputs as [|[|sig] rest IH]; intros w; cbn [forSelect].
  - by rewrite effect_ret.
  - rewrite effect_bind;
      [|apply appends_checkAndShutdown | intros _; apply appends_forSelect].
    rewrite cycles_app, cycles_checkAndShutdown, IH. reflexivity.
  - assert (H : idle (
      logger.InfoWithExtra lg "Received shutdown signal" (Some [("signal", sig)]) ;;
      emit EvCancel ;;
      logger.Info lg "Graceful shutdown complete" ;;
      ret (Exit 0))).
    { unfold logger.InfoWithExtra, logger.Info. idle_tac. }
    by destruct H as [_ ->].
Qed.

(** The run of [monitor] is the initial check followed by the loop. *)
Lemma monitor_run cfg rc sm lg inputs w :
  monitor cfg rc sm lg inputs w =
    forSelect rc sm lg inputs (snd (monitor cfg rc sm lg [] w)).
Proof. unfold monitor. rewrite !bind_run. reflexivity. Qed.

Lemma appends_monitor cfg rc sm lg inputs : appends (monitor cfg rc sm lg inputs).
Proof.
  unfold monitor, logger.Info.
  apply appends_bind; [auto with go|]. intros interval.
  apply appends_bind; [auto with go|]. intros _.
  apply appends_bind; [apply appends_checkAndShutdown|]. intros _.
  apply appends_forSelect.
Qed.

Lemma effect_monitor cfg rc sm lg inputs w :
  effect (monitor cfg rc sm lg inputs) w =
    effect (monitor cfg rc sm lg []) w
      ++ effect (forSelect rc sm lg inputs) (snd (monitor cfg rc sm lg [] w)).
Proof.
  unfold effect at 1. rewrite monitor_run. apply issued_app.
  destruct (appends_forSelect rc sm lg inputs (snd (monitor cfg rc sm lg [] w)))
    as [_ ->].
  destruct (appends_monitor cfg rc sm lg [] w) as [_ ->].
  by rewrite app_assoc.
Qed.

Lemma cycles_monitor_nil cfg rc sm lg w :
  cycles (effect (monitor cfg rc sm lg []) w) = 1.
Proof.
  unfold monitor, logger.Info.
  rewrite effect_bind; [|auto with go|].
  2:{ intros interval. apply appends_bind; [auto with go|]. intros _.
      apply appends_bind; [apply appends_checkAndShutdown|].
      intros _. apply appends_forSelect. }
  rewrite effect_ask. cbn [app].
  rewrite effect_bind; [|auto with go|].
  2:{ intros _. apply appends_bind; [apply appends_checkAndShutdown|].
      intros _. apply appends_forSelect. }
  rewrite effect_log, cycles_app.
  rewrite effect_bind;
    [|apply appends_checkAndShutdown|intros _; apply appends_forSelect].
  rewrite cycles_app, cycles_checkAndShutdown, forSelect_cycles. reflexivity.
Qed.

(** C6. For every sequence of ticks and signals the control loop receives and
    every behaviour of the host: the loop is left only by exiting with status
    0, it is left exactly when a termination signal is among the inputs, and
    until the first signal every tick gets its detection cycle (one more than
    the ticks, for the initial check), whatever the signal check and the
    shutdown chain returned in the cycles before it. *)
Theorem loop_survives_errors (cfg : config.Config) (rc : redis.Client)
    (sm : shutdown.Manager) (lg : Logger) (inputs : list LoopInput) (w : World) :
  let r := monitor cfg rc sm lg inputs w in
  (fst r = Waiting \/ fst r = Exit 0) /\
  (fst r = Exit 0 <-> exists sig, Signal sig ∈ inputs) /\
  (fst r = Waiting <-> Forall (fun i => i = Tick) inputs) /\
  cycles (effect (monitor cfg rc sm lg inputs) w) = S (ticks_served inputs).
Proof.
  cbv zeta. rewrite monitor_run, forSelect_outcome.
  assert (Hsig : existsb is_Signal inputs = true <-> exists sig, Signal sig ∈ inputs).
  { rewrite existsb_exists. split.
    - intros ([|sig] & Hin & Hs); [done|]. exists sig. by apply list_elem_of_In.
    - intros [sig Hin]. exists (Signal sig). split; [by apply list_elem_of_In | done]. }
  assert (Hticks : existsb is_Signal inputs = false <-> Forall (fun i => i = Tick) inputs).
  { rewrite Forall_forall. split.
    - intros Hex [|sig] Hin; [done|].
      assert (existsb is_Signal inputs = true) by (apply Hsig; eauto). congruence.
    - intros Hall. apply not_true_iff_false. intros E.
      apply Hsig in E as [sig Hin]. by apply Hall in Hin. }
  repeat split.
  - destruct (existsb is_Signal inputs); auto.
  - intros H. apply Hsig. by destruct (existsb is_Signal inputs).
  - intros H. apply Hsig in H. by rewrite H.
  - intros H. apply Hticks. by destruct (existsb is_Signal inputs).
  - intros H. apply Hticks in H. by rewrite H.
  - rewrite effect_monitor, cycles_app, cycles_monitor_nil, forSelect_cycles.
    reflexivity.
Qed.

(** C8. On entering the control loop exactly one detection cycle is performed
    before any tick is received, and the loop then waits: with no input yet,
    one cycle has run and the process is blocked in [select]; and for any
    inputs that follow, the run starts with that same initial cycle and
    performs one further cycle per tick served. *)
Theorem initial_check_before_first_tick (cfg : config.Config) (rc : redis.Client)
    (sm : shutdown.Manager) (lg : Logger) (w : World) :
  fst (monitor cfg rc sm lg [] w) = Waiting /\
  cycles (effect (monitor cfg rc sm lg []) w) = 1 /\
  forall inputs, exists d,
    effect (monitor cfg rc sm lg inputs) w = effect (monitor cfg rc sm lg []) w ++ d /\
    cycles d = ticks_served inputs.
Proof.
  split; [|split].
  - by rewrite monitor_run, forSelect_outcome.
  - apply cycles_monitor_nil.
  - intros inputs. eexists. split; [apply effect_monitor|]. apply forSelect_cycles.
Qed.

(** [main] either stops during start-up (the logger cannot be built, Redis
    does not answer the PING, the check interval is not positive) or runs
    [monitor]. *)
Lemma main_monitors inputs w :
  fst (main inputs w) = Exit 1 \/
  fst (main inputs w) = Panic "non-positive interval for NewTicker" \/
  exists cfg rc sm lg w0,
    (0 < config.CheckInterval cfg)%Z /\
    main inputs w = monitor cfg rc sm lg inputs w0.
Proof.
  unfold main. rewrite !bind_run.
  destruct (fst (logger.NewLogger _ _)) as [lg|err].
  - rewrite !bind_run. destruct (fst (redis.NewClient _ _)) as [rc|err].
    + rewrite !bind_run. destruct (_ <=? 0)%Z eqn:E.
      * right. by left.
      * right. right. do 5 eexists. split; [|reflexivity]. lia.
    + left. by rewrite !bind_run.
  - left. by rewrite !bind_run.
Qed.

(** ** The audit sink *)

Ltac run_logger :=
  unfold logger.NewLogger, logger.log, logger.sendToOpensearch, logger.client_Index,
    Printf, bind, ask, emit, spawn, ret; simpl.

(** The logger that [NewLogger] returns always carries the configured base
    index, whatever [OpensearchUseDailyIndex] says. *)
Lemma NewLogger_index cfg w lg :
  fst (logger.NewLogger cfg w) = inl lg -> index lg = config.OpensearchIndex cfg.
Proof.
  run_logger.
  destruct (opensearch_NewClient_reply _ _); simpl; [done|].
  destruct (opensearch_Info_reply _ _); simpl; by intros [= <-].
Qed.

(** A remote write goes to the index stored in the logger, when it goes
    anywhere. *)
Lemma sendToOpensearch_index lg entry w :
  delivered_to (effect (logger.sendToOpensearch lg entry) w) =
    match client lg with
    | Some _ => if ctx_done (trace w) then [] else [index lg]
    | None => []
    end.
Proof.
  unfold effect. run_logger. destruct (client lg); simpl.
  - destruct (ctx_done (trace w)); simpl; [by read_issued|].
    destruct (opensearch_Index_reply _ _ _) as [msg | status []]; simpl;
      by read_issued.
  - by rewrite issued_refl.
Qed.

(** The logger built when the connection test fails. *)
Lemma NewLogger_without_sink cfg w msg :
  opensearch_NewClient_reply (host w) [config.OpensearchURL cfg] = None ->
  opensearch_Info_reply (host w) (trace w) = Some msg ->
  fst (logger.NewLogger cfg w) =
    inl {| client := None;
           index := config.OpensearchIndex cfg;
           hostname := Hostname_reply (host w);
           redisKey := config.RedisKey cfg |}.
Proof.
  intros Hnew Hinfo.
  assert (Haddr : forall c : OpensearchClient,
    c = (if String.eqb (config.OpensearchUsername cfg) EmptyString
         then {| Addresses := [config.OpensearchURL cfg];
                 Username := EmptyString; Password := EmptyString |}
         else {| Addresses := [config.OpensearchURL cfg];
                 Username := config.OpensearchUsername cfg;
                 Password := config.OpensearchPassword cfg |}) ->
    Addresses c = [config.OpensearchURL cfg]).
  { intros c ->. by destruct (String.eqb _ _). }
  run_logger. rewrite (Haddr _ eq_refl), Hnew. simpl. rewrite Hinfo. reflexivity.
Qed.

(** C10. An unreachable remote sink does not fail the construction of the
    logger: when the Opensearch library accepts the configuration and the
    connection test fails, [NewLogger] returns a logger (no error) whose
    client is nil; every log call on that logger writes its line to the
    console, spawns no remote write and delivers nothing. *)
Theorem logger_survives_unreachable_sink (cfg : config.Config) (w : World)
    (msg : string) :
  opensearch_NewClient_reply (host w) [config.OpensearchURL cfg] = None ->
  opensearch_Info_reply (host w) (trace w) = Some msg ->
  exists lg,
    fst (logger.NewLogger cfg w) = inl lg /\
    client lg = None /\
    forall level message extra w',
      effect (logger.log lg level message extra) w' =
        [EvStdout ("[" +:+ Level_string level +:+ "] " +:+ message)] /\
      goroutines (snd (logger.log lg level message extra w')) = goroutines w' /\
      delivered_to (effect (logger.log lg level message extra) w') = [].
Proof.
  intros Hnew Hinfo. eexists. split; [|split].
  - by eapply NewLogger_without_sink.
  - reflexivity.
  - intros level message extra w'. rewrite effect_log. repeat split.
Qed.

Lemma logger_survives_unreachable_sink_witness :
  let w := boot unprivileged ∅ in
  let cfg := config.Load unprivileged in
  exists lg,
    fst (logger.NewLogger cfg w) = inl lg /\ client lg = None /\
    effect (logger.Info lg "Connected to Redis successfully") w =
      [EvStdout "[INFO] Connected to Redis successfully"].
Proof.
  intros w cfg.
  destruct (logger_survives_unreachable_sink cfg w "connection refused"
              eq_refl eq_refl) as (lg & Hlg & Hc & Hlog).
  exists lg. split; [exact Hlg|]. split; [exact Hc|].
  destruct (Hlog LevelInfo "Connected to Redis successfully" None w) as (He & _).
  exact He.
Defined.

(** C5, on the code as it is.  With daily indices enabled (the default of
    [Load]) and Opensearch reachable, on 28 December 2024 the logger tests
    and the README ask for the index [signalmice-logs-2024-12-28]; the logger
    that [NewLogger] builds delivers the event to [signalmice-logs]. *)
Theorem daily_index_is_not_applied :
  let w := boot sinkReachable ∅ in
  let cfg := config.Load sinkReachable in
  config.OpensearchUseDailyIndex cfg = true /\
  getIndexName_documented (config.OpensearchIndex cfg)
    (config.OpensearchUseDailyIndex cfg) (Now sinkReachable (trace w))
    = "signalmice-logs-2024-12-28" /\
  exists lg entry,
    fst (logger.NewLogger cfg w) = inl lg /\
    goroutines (snd (logger.Info lg "Connected to Redis successfully"
                       (snd (logger.NewLogger cfg w)))) = [(lg, entry)] /\
    delivered_to (effect (logger.sendToOpensearch lg entry)
                    (snd (logger.NewLogger cfg w))) = ["signalmice-logs"].
Proof.
  intros w cfg. split; [reflexivity|]. split; [reflexivity|].
  do 2 eexists. split; [reflexivity|]. split; reflexivity.
Qed.

(** The flag never reaches the logger: two configurations that differ only in
    [OpensearchUseDailyIndex] yield the same logger and the same deliveries. *)
Lemma daily_index_flag_is_ignored cfg w l1 l2 :
  let cfg' :=
    {| config.RedisHost := config.RedisHost cfg;
       config.RedisPort := config.RedisPort cfg;
       config.RedisPassword := config.RedisPassword cfg;
       config.RedisDB := config.RedisDB cfg;
       config.OpensearchURL := config.OpensearchURL cfg;
       config.OpensearchUsername := config.OpensearchUsername cfg;
       config.OpensearchPassword := config.OpensearchPassword cfg;
       config.OpensearchIndex := config.OpensearchIndex cfg;
       config.OpensearchUseDailyIndex := negb (config.OpensearchUseDailyIndex cfg);
       config.RedisKey := config.RedisKey cfg;
       config.CheckInterval := config.CheckInterval cfg;
       config.HostProcPath := config.HostProcPath cfg |} in
  fst (logger.NewLogger cfg w) = inl l1 ->
  fst (logger.NewLogger cfg' w) = inl l2 ->
  l1 = l2 /\ index l1 = config.OpensearchIndex cfg.
Proof.
  intros cfg' H1 H2. split; [|by eapply NewLogger_index].
  change (logger.NewLogger cfg' w) with (logger.NewLogger cfg w) in H2. congruence.
Qed.

(** ** Start-up *)

Example Atoi_values :
  Atoi "60" = (60%Z, None) /\ Atoi "-12" = ((-12)%Z, None) /\
  Atoi "abc" = (0%Z, Some ErrSyntax) /\ Atoi "+" = (0%Z, Some ErrSyntax) /\
  Atoi "99999999999999999999" = ((2 ^ 63 - 1)%Z, Some ErrRange) /\
  Atoi "-9223372036854775808" = ((- 2 ^ 63)%Z, None).
Proof. repeat split; reflexivity. Qed.

(** The defaults of [Load]. *)
Example Load_defaults :
  let cfg := config.Load unprivileged in
  config.OpensearchIndex cfg = "signalmice-logs" /\
  config.OpensearchUseDailyIndex cfg = true /\
  config.CheckInterval cfg = 60000000000%Z /\
  config.HostProcPath cfg = "/host/proc".
Proof. repeat split; reflexivity. Qed.

Lemma appends_NewLogger cfg : appends (logger.NewLogger cfg).
Proof. unfold logger.NewLogger. appends_tac. Qed.

Lemma effect_NewClient cfg w : effect (redis.NewClient cfg) w = [EvRedis Ping].
Proof.
  unfold effect, redis.NewClient, redis.cmd_Ping, bind, ask, emit, ret. simpl.
  destruct (redis_fault _ _ _); simpl; by read_issued.
Qed.

Lemma appends_NewClient cfg : appends (redis.NewClient cfg).
Proof. unfold redis.NewClient, redis.cmd_Ping. appends_tac. Qed.

#[local] Hint Resolve appends_NewLogger appends_NewClient appends_monitor : go.

Lemma appends_main inputs : appends (main inputs).
Proof.
  unfold main, logger.InfoWithExtra, logger.ErrorWithExtra, logger.Info.
  appends_tac.
Qed.

(** With the sink unreachable at start-up, [main] does not stop at the
    logger: it goes on to connect to Redis. *)
Lemma main_continues_without_sink inputs w msg :
  opensearch_NewClient_reply (host w)
    [config.OpensearchURL (config.Load (host w))] = None ->
  opensearch_Info_reply (host w)
    (trace w ++ [EvStdout "signalmice v1.0.0 starting..."]) = Some msg ->
  EvRedis Ping ∈ effect (main inputs) w.
Proof.
  intros Hnew Hinfo.
  pose (w1 := snd (Printf (appName +:+ " v" +:+ appVersion +:+ " starting...") w)).
  pose proof (NewLogger_without_sink (config.Load (host w)) w1 msg Hnew Hinfo) as Hlg.
  unfold main, logger.InfoWithExtra, logger.ErrorWithExtra, logger.Info.
  rewrite effect_bind; [| auto with go | intros; appends_tac].
  rewrite effect_bind; [| auto with go | intros; appends_tac].
  rewrite effect_bind; [| auto with go | intros; appends_tac].
  change (snd (ask (fun h _ => config.Load h) _)) with w1.
  change (fst (ask (fun h _ => config.Load h) _)) with (config.Load (host w)).
  rewrite Hlg.
  rewrite effect_bind; [| auto with go | intros; appends_tac].
  rewrite effect_bind; [| auto with go | intros; appends_tac].
  rewrite effect_bind; [| auto with go | intros; appends_tac].
  rewrite effect_NewClient.
  rewrite !elem_of_app. do 5 right. left. apply list_elem_of_here.
Qed.

(** ** The scenarios of the specification, run on the model *)

(** Scenario A: the key is absent; the check returns (false, nil), the cycle
    logs at debug level and the shutdown chain is not started. *)
Example scenario_A :
  let w := boot unprivileged ∅ in
  fst (redis.CheckAndDeleteKey testClient w) = (false, None) /\
  effect (checkAndShutdown testClient testManager stdoutLogger) w =
    [EvRedis (Get testKey);
     EvStdout "[DEBUG] Redis key not found, continuing to monitor..."].
Proof. split; reflexivity. Qed.

(** Scenario B: the key is present with some value; it is removed and the
    chain is started once. *)
Example scenario_B :
  let w := boot directOnly {[ testKey := "any value" ]} in
  let r := checkAndShutdown testClient testManager stdoutLogger w in
  store (snd r) !! testKey = None /\
  observed (effect (checkAndShutdown testClient testManager stdoutLogger) w) =
    attempts_of ["nsenter"; "sysrq-trigger"; "direct-command"] /\
  console (effect (checkAndShutdown testClient testManager stdoutLogger) w) =
    ["[INFO] Shutdown signal received! Key found and deleted.";
     "[INFO] Initiating host machine shutdown...";
     "[INFO] Attempting shutdown via nsenter";
     "[WARN] Shutdown via nsenter failed";
     "[INFO] Attempting shutdown via sysrq-trigger";
     "[WARN] Shutdown via sysrq-trigger failed";
     "[INFO] Attempting shutdown via direct-command";
     "[INFO] Shutdown initiated successfully via direct-command";
     "[INFO] Host shutdown initiated successfully"].
Proof. repeat split; reflexivity. Qed.

(** Scenario C: the first two methods fail, the third succeeds; the run
    returns nil after two warnings and one success line. *)
Example scenario_C :
  let w := boot directOnly ∅ in
  fst (shutdown.NeutralizeStuartLittle testManager w) = None /\
  effect (shutdown.NeutralizeStuartLittle testManager) w =
    [EvStdout "[INFO] Initiating host machine shutdown...";
     EvStdout "[INFO] Attempting shutdown via nsenter";
     EvExec shutdown.nsenter_argv;
     EvStdout "[WARN] Shutdown via nsenter failed";
     EvStdout "[INFO] Attempting shutdown via sysrq-trigger";
     EvStat "/host/proc";
     EvStdout "[WARN] Shutdown via sysrq-trigger failed";
     EvStdout "[INFO] Attempting shutdown via direct-command";
     EvExec ["poweroff"];
     EvStdout "[INFO] Shutdown initiated successfully via direct-command"].
Proof. split; reflexivity. Qed.

(** A failing cycle does not stop the loop: Redis times out on DEL in the
    initial check and on the tick, the shutdown chain is never reached, and
    the process is still waiting; the signal then ends it with status 0. *)
Example failing_cycles_keep_the_loop_running :
  let w := boot delTimesOut {[ config.DefaultRedisKey := "shutdown" ]} in
  fst (main [Tick] w) = Waiting /\
  redis_cmds (effect (main [Tick]) w) =
    [Ping; Get config.DefaultRedisKey; Del config.DefaultRedisKey;
     Get config.DefaultRedisKey; Del config.DefaultRedisKey] /\
  fst (main [Tick; Signal "terminated"; Tick] w) = Exit 0 /\
  cycles (effect (main [Tick; Signal "terminated"; Tick]) w) = 2.
Proof. repeat split; reflexivity. Qed.

(** Whenever daily indices are enabled, no delivery of the logger built by
    [NewLogger] goes to the documented, date-suffixed index. *)
Lemma daily_index_is_never_applied cfg w lg entry w' now idx :
  config.OpensearchUseDailyIndex cfg = true ->
  fst (logger.NewLogger cfg w) = inl lg ->
  idx ∈ delivered_to (effect (logger.sendToOpensearch lg entry) w') ->
  idx = config.OpensearchIndex cfg /\
  idx <> getIndexName_documented (config.OpensearchIndex cfg)
           (config.OpensearchUseDailyIndex cfg) now.
Proof.
  intros Hflag Hlg Hin. rewrite sendToOpensearch_index in Hin.
  assert (Hidx : idx = config.OpensearchIndex cfg).
  { rewrite <- (NewLogger_index cfg w lg Hlg).
    destruct (client lg); [|by apply elem_of_nil in Hin].
    destruct (ctx_done (trace w')); [by apply elem_of_nil in Hin|].
    by apply list_elem_of_singleton in Hin. }
  split; [done|]. rewrite Hflag, Hidx. unfold getIndexName_documented.
  intros Heq. apply (f_equal String.length) in Heq.
  rewrite append_length in Heq. simpl in Heq. lia.
Qed.

(** * Further properties of the code *)

(** ** What a computation issues *)

Ltac kind_tac :=
  unfold only; cbn [kind_of];
  repeat first [apply list_elem_of_here | apply list_elem_of_further].

(** Inclusion of one explicit list of kinds in another. *)
Ltac kinds_sub :=
  let k := fresh "k" in
  let Hk := fresh "Hk" in
  intros k Hk;
  repeat (apply elem_of_cons in Hk as [->|Hk];
          [repeat first [apply list_elem_of_here | apply list_elem_of_further]|]);
  by apply elem_of_nil in Hk.

Lemma emits_ret P {A} (a : A) : emits P (ret a).
Proof. split; [auto with go|]. intros w. by rewrite effect_ret. Qed.

Lemma emits_ask P {A} (f : Host -> list Event -> A) : emits P (ask f).
Proof. split; [auto with go|]. intros w. by rewrite effect_ask. Qed.

Lemma emits_emit (P : Event -> Prop) e : P e -> emits P (emit e).
Proof.
  intros He. split; [auto with go|]. intros w. rewrite effect_emit.
  by repeat constructor.
Qed.

Lemma emits_spawn P t : emits P (spawn t).
Proof. split; [auto with go|]. intros w. by rewrite effect_spawn. Qed.

Lemma emits_get_store P : emits P get_store.
Proof. split; [auto with go|]. intros w. by rewrite effect_get_store. Qed.

Lemma emits_set_store P s : emits P (set_store s).
Proof. split; [auto with go|]. intros w. by rewrite effect_set_store. Qed.

Lemma emits_bind P {A B} (c : M A) (k : A -> M B) :
  emits P c -> (forall a, emits P (k a)) -> emits P (bind c k).
Proof.
  intros [Hc Hp] Hk. split.
  - apply appends_bind; [done|]. intros a. apply Hk.
  - intros w. rewrite effect_bind; [|done|intros a; apply Hk].
    apply Forall_app. split; [apply Hp|]. apply Hk.
Qed.

Lemma emits_weaken (P Q : Event -> Prop) {A} (c : M A) :
  (forall e, P e -> Q e) -> emits P c -> emits Q c.
Proof.
  intros HPQ [Hc Hp]. split; [done|]. intros w.
  eapply Forall_impl; [apply Hp | done].
Qed.

Lemma only_subseteq ks ks' e : ks ⊆ ks' -> only ks e -> only ks' e.
Proof. unfold only. intros Hsub He. by apply Hsub. Qed.

Lemma emits_log ks l level message extra :
  KConsole ∈ ks -> emits (only ks) (logger.log l level message extra).
Proof.
  intros Hk. split; [auto with go|]. intros w. rewrite effect_log.
  by repeat constructor.
Qed.

Ltac emits_step :=
  match goal with
  | |- emits _ (bind _ _) => apply emits_bind; [| intros ?]
  | |- emits _ (emit _) => apply emits_emit; kind_tac
  | |- emits _ (Printf _) => apply emits_emit; kind_tac
  | |- emits _ (logger.log _ _ _ _) => apply emits_log; kind_tac
  | |- emits _ (ret _) => apply emits_ret
  | |- emits _ (ask _) => apply emits_ask
  | |- emits _ (spawn _) => apply emits_spawn
  | |- emits _ get_store => apply emits_get_store
  | |- emits _ (set_store _) => apply emits_set_store
  | |- emits _ (let _ := _ in _) => cbv zeta
  | |- emits _ (if ?x then _ else _) => destruct x
  | |- emits _ (match ?x with _ => _ end) => destruct x
  end.
Ltac emits_tac := repeat emits_step.

(** ** What a computation leaves alone *)

#[local] Instance same_store_preorder : PreOrder same_store.
Proof.
  split; [by intros w | intros w1 w2 w3 H1 H2]. unfold same_store in *. congruence.
Qed.

#[local] Instance consumed_preorder k : PreOrder (consumed k).
Proof.
  split; [by left |]. intros w1 w2 w3 [H1|H1] [H2|H2]; unfold consumed.
  - left. congruence.
  - right. congruence.
  - right. congruence.
  - right. rewrite H2, H1. apply delete_delete_eq.
Qed.

Lemma same_store_consumed k w w' : same_store w w' -> consumed k w w'.
Proof. by left. Qed.

Lemma respects_bind R `{!PreOrder R} {A B} (c : M A) (k : A -> M B) :
  respects R c -> (forall a, respects R (k a)) -> respects R (bind c k).
Proof.
  intros Hc Hk w. rewrite bind_run. etrans; [apply Hc | apply Hk].
Qed.

Lemma respects_weaken (R R' : World -> World -> Prop) {A} (c : M A) :
  (forall w w', R w w' -> R' w w') -> respects R c -> respects R' c.
Proof. intros HR Hc w. apply HR, Hc. Qed.

Lemma respects_ret R `{!PreOrder R} {A} (a : A) : respects R (ret a).
Proof. by intros w. Qed.

Lemma respects_ask R `{!PreOrder R} {A} (f : Host -> list Event -> A) :
  respects R (ask f).
Proof. by intros w. Qed.

Lemma respects_get_store R `{!PreOrder R} : respects R get_store.
Proof. by intros w. Qed.

Lemma same_store_emit e : respects same_store (emit e).
Proof. by intros w. Qed.

Lemma same_store_spawn t : respects same_store (spawn t).
Proof. by intros w. Qed.

Lemma same_store_log l level message extra :
  respects same_store (logger.log l level message extra).
Proof.
  unfold logger.log, Printf.
  apply respects_bind; [apply _ | apply respects_ask; apply _ |]. intros now.
  apply respects_bind; [apply _ | apply same_store_emit |]. intros _.
  destruct (client l); [apply same_store_spawn | apply respects_ret; apply _].
Qed.

Ltac same_store_step :=
  match goal with
  | |- respects same_store (bind _ _) =>
      apply respects_bind; [apply _ | | intros ?]
  | |- respects same_store (emit _) => apply same_store_emit
  | |- respects same_store (Printf _) => apply same_store_emit
  | |- respects same_store (logger.log _ _ _ _) => apply same_store_log
  | |- respects same_store (ret _) => apply respects_ret; apply _
  | |- respects same_store (ask _) => apply respects_ask; apply _
  | |- respects same_store (spawn _) => apply same_store_spawn
  | |- respects same_store get_store => apply respects_get_store; apply _
  | |- respects same_store (let _ := _ in _) => cbv zeta
  | |- respects same_store (if ?x then _ else _) => destruct x
  | |- respects same_store (match ?x with _ => _ end) => destruct x
  end.
Ltac same_store_tac := repeat same_store_step.

(** ** The Redis client *)

(** X1. When the GET fails with an error other than [redis.Nil], the check
    returns detected = false with an error that wraps the failure of the
    GET; the GET is the only request issued (no DEL) and the store is as it
    was. *)
Theorem get_failure_is_propagated (c : redis.Client) (w : World) (msg : string) :
  let k := redis.key c in
  let r := redis.CheckAndDeleteKey c w in
  redis_fault (host w) (trace w) (Get k) = Some msg ->
  fst r = (false, Some (Errorf_w "failed to get key: " (OsError msg) EmptyString)) /\
  (exists e, snd (fst r) = Some e /\ Unwrap e = Some (OsError msg) /\
             Error e = "failed to get key: " +:+ msg) /\
  effect (redis.CheckAndDeleteKey c) w = [EvRedis (Get k)] /\
  store (snd r) = store w.
Proof.
  intros k r Hget. subst r k. unfold effect. run_redis. rewrite Hget. simpl.
  repeat split.
  - eexists. repeat split. simpl. by rewrite append_empty_r.
  - by read_issued.
Qed.

Lemma get_failure_is_propagated_witness :
  let w := boot getRefused {[ testKey := "shutdown" ]} in
  fst (redis.CheckAndDeleteKey testClient w) =
    (false, Some (WrapError "failed to get key: i/o timeout" (OsError "i/o timeout"))) /\
  store (snd (redis.CheckAndDeleteKey testClient w)) !! testKey = Some "shutdown".
Proof.
  intros w.
  destruct (get_failure_is_propagated testClient w "i/o timeout" eq_refl)
    as (H1 & _ & _ & H2).
  split; [exact H1|]. rewrite H2. reflexivity.
Defined.

(** X2. The check reports the key as detected exactly when the key is in the
    store and the server answers both the GET and the DEL; it then returns no
    error and the store has lost that key and nothing else.  The DEL is
    issued exactly when the GET is answered and finds the key: a check that
    ends after its GET has not touched the store.  An error is never returned
    together with detected = true.  (What the store holds after a DEL that
    returned an error is not stated.) *)
Theorem detected_means_consumed (c : redis.Client) (w : World) :
  let k := redis.key c in
  let r := redis.CheckAndDeleteKey c w in
  let cmds := redis_cmds (effect (redis.CheckAndDeleteKey c) w) in
  (fst (fst r) = true <->
     is_Some (store w !! k) /\
     redis_fault (host w) (trace w) (Get k) = None /\
     redis_fault (host w) (trace w ++ [EvRedis (Get k)]) (Del k) = None) /\
  (fst (fst r) = true -> snd (fst r) = None /\ store (snd r) = delete k (store w)) /\
  (cmds = [Get k; Del k] <->
     is_Some (store w !! k) /\ redis_fault (host w) (trace w) (Get k) = None) /\
  (cmds = [Get k] -> store (snd r) = store w) /\
  (forall e, snd (fst r) = Some e -> fst (fst r) = false).
Proof.
  cbv zeta. unfold effect. run_redis.
  destruct (redis_fault (host w) (trace w) (Get (redis.key c))) as [m|] eqn:Eg; simpl.
  all: try destruct (store w !! redis.key c) as [v|] eqn:Ev; simpl.
  all: try destruct (redis_fault _ _ (Del _)) as [m'|] eqn:Ed; simpl.
  all: read_issued; simpl.
  all: repeat split; try done; try (by intros ([? ?] & _)); try (by eexists).
  all: try (by intros (_ & ? & ?)).
  all: try (by intros (_ & ?)).
Qed.

(** The check leaves the store as it was or removes its key. *)
Lemma consumed_CheckAndDeleteKey c :
  respects (consumed (redis.key c)) (redis.CheckAndDeleteKey c).
Proof.
  intros w. unfold consumed. run_redis.
  destruct (redis_fault (host w) (trace w) (Get (redis.key c))); simpl; [by left|].
  destruct (store w !! redis.key c); simpl; [|by left].
  destruct (redis_fault _ _ (Del _)); simpl; [by left | by right].
Qed.

(** ** The shutdown methods, one by one *)

(** X3. The namespace-escalation method runs exactly one command, [nsenter]
    into the mount, UTS, IPC, network and PID namespaces of process 1 with
    [poweroff] as its payload, and writes nothing to the console.  It
    succeeds exactly when that command does; its error wraps the error of the
    command and quotes the output of the command. *)
Theorem nsenter_runs_one_command (m : shutdown.Manager) (w : World) :
  let reply := exec_reply (host w) (trace w) shutdown.nsenter_argv in
  let r := shutdown.shutdownViaNsenter m w in
  effect (shutdown.shutdownViaNsenter m) w =
    [EvExec ["nsenter"; "--target"; "1"; "--mount"; "--uts"; "--ipc"; "--net";
             "--pid"; "--"; "poweroff"]] /\
  (fst r = None <-> snd reply = None) /\
  (forall msg, snd reply = Some msg ->
     exists e, fst r = Some e /\ Unwrap e = Some (OsError msg) /\
       Error e = "nsenter poweroff failed: " +:+ msg +:+ ", output: " +:+ fst reply).
Proof.
  cbv zeta. split; [apply effect_shutdownViaNsenter|]. run_shutdown.
  destruct (exec_reply (host w) (trace w) shutdown.nsenter_argv) as [out [msg|]];
    simpl; repeat split; try done.
  intros ? [= <-]. eexists. repeat split.
Qed.

(** X4. The direct method runs [poweroff] and falls back to
    [shutdown -h now] exactly when [poweroff] failed.  It succeeds exactly
    when one of the two commands does; when both fail its error wraps the
    error of the fallback and quotes the output of the fallback: the error of
    [poweroff] is dropped. *)
Theorem direct_falls_back (m : shutdown.Manager) (w : World) :
  let r1 := exec_reply (host w) (trace w) ["poweroff"] in
  let r2 := exec_reply (host w) (trace w ++ [EvExec ["poweroff"]])
              ["shutdown"; "-h"; "now"] in
  let r := shutdown.shutdownViaDirect m w in
  (EvExec ["shutdown"; "-h"; "now"] ∈ effect (shutdown.shutdownViaDirect m) w <->
     snd r1 <> None) /\
  (fst r = None <-> snd r1 = None \/ snd r2 = None) /\
  (forall e, fst r = Some e ->
     exists msg, snd r2 = Some msg /\
       e = Errorf_w "shutdown commands failed: " (OsError msg)
             (", output: " +:+ fst r2)).
Proof.
  cbv zeta. rewrite effect_shutdownViaDirect. run_shutdown.
  destruct (exec_reply (host w) (trace w) ["poweroff"]) as [out1 [msg1|]]; simpl.
  - destruct (exec_reply _ _ _) as [out2 [msg2|]]; simpl.
    + repeat split; try done.
      * intros _. apply list_elem_of_further, list_elem_of_here.
      * by intros [?|?].
      * intros e [= <-]. by eexists.
    + repeat split; try done.
      * intros _. apply list_elem_of_further, list_elem_of_here.
      * by right.
  - repeat split; try done.
    + intros Hin. apply list_elem_of_singleton in Hin. discriminate.
    + by left.
Qed.

Lemma emits_shutdownViaNsenter ks m :
  KExec ∈ ks -> emits (only ks) (shutdown.shutdownViaNsenter m).
Proof.
  intros Hk. unfold shutdown.shutdownViaNsenter, shutdown.CombinedOutput.
  apply emits_bind; [|intros r; destruct (snd r); apply emits_ret].
  apply emits_bind; [apply emits_ask|]. intros reply.
  apply emits_bind; [by apply emits_emit|]. intros _. apply emits_ret.
Qed.

Lemma emits_CombinedOutput ks argv :
  KExec ∈ ks -> emits (only ks) (shutdown.CombinedOutput argv).
Proof.
  intros Hk. unfold shutdown.CombinedOutput.
  apply emits_bind; [apply emits_ask|]. intros reply.
  apply emits_bind; [by apply emits_emit|]. intros _. apply emits_ret.
Qed.

Lemma emits_shutdownViaDirect ks m :
  KExec ∈ ks -> emits (only ks) (shutdown.shutdownViaDirect m).
Proof.
  intros Hk. unfold shutdown.shutdownViaDirect.
  apply emits_bind; [by apply emits_CombinedOutput|]. intros r.
  destruct (snd r); [|apply emits_ret].
  apply emits_bind; [by apply emits_CombinedOutput|]. intros r2.
  destruct (snd r2); apply emits_ret.
Qed.

Lemma emits_WriteFile ks path data :
  KWrite ∈ ks -> emits (only ks) (shutdown.WriteFile path data).
Proof.
  intros Hk. unfold shutdown.WriteFile.
  apply emits_bind; [apply emits_ask|]. intros reply.
  apply emits_bind; [by apply emits_emit|]. intros _. apply emits_ret.
Qed.

Lemma emits_shutdownViaSysrq ks m :
  KConsole ∈ ks -> KStat ∈ ks -> KWrite ∈ ks ->
  emits (only ks) (shutdown.shutdownViaSysrq m).
Proof.
  intros Hc Hs Hw. unfold shutdown.shutdownViaSysrq, shutdown.Stat, logger.Warn.
  apply emits_bind; [apply emits_ask|]. intros p.
  apply emits_bind.
  { apply emits_bind; [apply emits_ask|]. intros reply.
    apply emits_bind; [by apply emits_emit|]. intros _. apply emits_ret. }
  intros st.
  assert (Hrest : emits (only ks) (
    e1 <- shutdown.WriteFile p "s" ;;
    (match e1 with
     | Some _ => logger.log (shutdown.logger m) LevelWarn
                   "Failed to sync filesystems via sysrq" None
     | None => ret tt
     end) ;;
    e2 <- shutdown.WriteFile p "u" ;;
    (match e2 with
     | Some _ => logger.log (shutdown.logger m) LevelWarn
                   "Failed to remount filesystems read-only via sysrq" None
     | None => ret tt
     end) ;;
    e3 <- shutdown.WriteFile p "o" ;;
    match e3 with
    | Some err =>
        ret (Some (Errorf_w "failed to write to sysrq-trigger: " err EmptyString))
    | None => ret None
    end)).
  { apply emits_bind; [by apply emits_WriteFile|]. intros e1.
    apply emits_bind; [destruct e1; [by apply emits_log | apply emits_ret]|]. intros _.
    apply emits_bind; [by apply emits_WriteFile|]. intros e2.
    apply emits_bind; [destruct e2; [by apply emits_log | apply emits_ret]|]. intros _.
    apply emits_bind; [by apply emits_WriteFile|]. intros e3.
    destruct e3; apply emits_ret. }
  destruct st; [exact Hrest | apply emits_ret | exact Hrest].
Qed.

Lemma emits_rangeMethods ks l ms lastErr :
  KConsole ∈ ks ->
  Forall (fun mth => emits (only ks) (shutdown.fn mth)) ms ->
  emits (only ks) (shutdown.rangeMethods l ms lastErr).
Proof.
  intros Hc H. revert lastErr. induction H as [|mth ms Hm _ IH]; intros lastErr.
  - apply emits_ret.
  - cbn [shutdown.rangeMethods].
    unfold logger.InfoWithExtra, logger.WarnWithExtra, logger.Info.
    apply emits_bind; [by apply emits_log|]. intros _.
    apply emits_bind; [exact Hm|]. intros [err|].
    + apply emits_bind; [by apply emits_log|]. intros _. apply IH.
    + apply emits_bind; [by apply emits_log|]. intros _. apply emits_ret.
Qed.

Lemma emits_NeutralizeStuartLittle ks m :
  KConsole ∈ ks -> KExec ∈ ks -> KStat ∈ ks -> KWrite ∈ ks ->
  emits (only ks) (shutdown.NeutralizeStuartLittle m).
Proof.
  intros Hc He Hs Hw. unfold shutdown.NeutralizeStuartLittle, logger.Info.
  apply emits_bind; [by apply emits_log|]. intros _.
  apply emits_bind; [|intros []; apply emits_ret].
  apply emits_rangeMethods; [done|]. unfold shutdown.methods.
  constructor; [by apply emits_shutdownViaNsenter|].
  constructor; [by apply emits_shutdownViaSysrq|].
  constructor; [by apply emits_shutdownViaDirect|]. constructor.
Qed.

(** Invariants of the world that every console line and every other request
    keeps are kept by the methods, by the chain and by what follows a check. *)
Section Frame.

Variable R : World -> World -> Prop.
Context `{!PreOrder R}.
Hypothesis R_emit : forall e, respects R (emit e).
Hypothesis R_log : forall l level message extra,
  respects R (logger.log l level message extra).

Ltac frame_step :=
  match goal with
  | |- respects R (bind _ _) => apply respects_bind; [apply _ | | intros ?]
  | |- respects R (emit _) => apply R_emit
  | |- respects R (Printf _) => apply R_emit
  | |- respects R (logger.log _ _ _ _) => apply R_log
  | |- respects R (ret _) => apply respects_ret; apply _
  | |- respects R (ask _) => apply respects_ask; apply _
  | |- respects R get_store => apply respects_get_store; apply _
  | |- respects R (let _ := _ in _) => cbv zeta
  | |- respects R (if ?x then _ else _) => destruct x
  | |- respects R (match ?x with _ => _ end) => destruct x
  end.
Ltac frame_tac := repeat frame_step.

Lemma frame_shutdownViaNsenter m : respects R (shutdown.shutdownViaNsenter m).
Proof. unfold shutdown.shutdownViaNsenter, shutdown.CombinedOutput. frame_tac. Qed.

Lemma frame_shutdownViaSysrq m : respects R (shutdown.shutdownViaSysrq m).
Proof.
  unfold shutdown.shutdownViaSysrq, shutdown.Stat, shutdown.WriteFile, logger.Warn.
  frame_tac.
Qed.

Lemma frame_shutdownViaDirect m : respects R (shutdown.shutdownViaDirect m).
Proof. unfold shutdown.shutdownViaDirect, shutdown.CombinedOutput. frame_tac. Qed.

Lemma frame_rangeMethods l ms lastErr :
  Forall (fun mth => respects R (shutdown.fn mth)) ms ->
  respects R (shutdown.rangeMethods l ms lastErr).
Proof.
  intros H. revert lastErr. induction H as [|mth ms Hm _ IH]; intros lastErr.
  - apply respects_ret; apply _.
  - cbn [shutdown.rangeMethods].
    unfold logger.InfoWithExtra, logger.WarnWithExtra, logger.Info.
    apply respects_bind; [apply _ | apply R_log |]. intros _.
    apply respects_bind; [apply _ | exact Hm |]. intros [err|].
    + apply respects_bind; [apply _ | apply R_log | intros _; apply IH].
    + apply respects_bind; [apply _ | apply R_log |]. intros _.
      apply respects_ret; apply _.
Qed.

Lemma frame_NeutralizeStuartLittle m : respects R (shutdown.NeutralizeStuartLittle m).
Proof.
  unfold shutdown.NeutralizeStuartLittle, logger.Info.
  apply respects_bind; [apply _ | apply R_log |]. intros _.
  apply respects_bind; [apply _ | | intros []; apply respects_ret; apply _].
  apply frame_rangeMethods. unfold shutdown.methods.
  constructor; [apply frame_shutdownViaNsenter|].
  constructor; [apply frame_shutdownViaSysrq|].
  constructor; [apply frame_shutdownViaDirect|]. constructor.
Qed.

Lemma frame_afterCheck rc sm lg r : respects R (afterCheck rc sm lg r).
Proof.
  unfold afterCheck, logger.ErrorWithExtra, logger.Debug, logger.InfoWithExtra,
    logger.Info.
  destruct (snd r); [apply R_log|].
  destruct (negb (fst r)); [apply R_log|].
  apply respects_bind; [apply _ | apply R_log |]. intros _.
  apply respects_bind; [apply _ | apply frame_NeutralizeStuartLittle |].
  intros []; apply R_log.
Qed.

(** With a client whose check keeps the invariant, so do the cycle, the loop
    and the monitoring part of [main]. *)
Variable rc : redis.Client.
Hypothesis R_check : respects R (redis.CheckAndDeleteKey rc).

Lemma frame_checkAndShutdown sm lg : respects R (checkAndShutdown rc sm lg).
Proof.
  change (checkAndShutdown rc sm lg)
    with (bind (redis.CheckAndDeleteKey rc) (afterCheck rc sm lg)).
  apply respects_bind; [apply _ | exact R_check | intros r; apply frame_afterCheck].
Qed.

Lemma frame_forSelect sm lg inputs : respects R (forSelect rc sm lg inputs).
Proof.
  induction inputs as [|[|sig] rest IH]; cbn [forSelect].
  - apply respects_ret; apply _.
  - apply respects_bind; [apply _ | apply frame_checkAndShutdown | intros _; exact IH].
  - unfold logger.InfoWithExtra, logger.Info. frame_tac.
Qed.

Lemma frame_monitor cfg sm lg inputs : respects R (monitor cfg rc sm lg inputs).
Proof.
  unfold monitor, logger.Info.
  apply respects_bind; [apply _ | apply respects_ask; apply _ |]. intros interval.
  apply respects_bind; [apply _ | apply R_log |]. intros _.
  apply respects_bind; [apply _ | apply frame_checkAndShutdown |]. intros _.
  apply frame_forSelect.
Qed.

End Frame.

Lemma same_store_NeutralizeStuartLittle m :
  respects same_store (shutdown.NeutralizeStuartLittle m).
Proof.
  apply frame_NeutralizeStuartLittle;
    [apply _ | apply same_store_emit | apply same_store_log].
Qed.

(** ** The shutdown chain as a whole *)

(** Every run of the loop is of one of two forms: some method succeeds after a
    prefix of failures, or all methods fail. *)
Lemma chain_outcome l ms w :
  (exists pre mth post errs w1 w2,
     ms = pre ++ mth :: post /\ AllFail l pre w errs w1 /\
     shutdown.fn mth (attemptWorld l mth w1) = (None, w2)) \/
  (exists errs w', AllFail l ms w errs w').
Proof.
  revert w. induction ms as [|mth ms IH]; intros w.
  - right. exists [], w. constructor.
  - destruct (shutdown.fn mth (attemptWorld l mth w)) as [[err|] w1] eqn:E.
    + destruct (IH (failedWorld l mth err w1))
        as [(pre & mth' & post & errs & wa & wb & -> & Hpre & Hok) | (errs & w' & Hall)].
      * left. exists (mth :: pre), mth', post, (err :: errs), wa, wb.
        split; [done|]. split; [|done]. by econstructor.
      * right. exists (err :: errs), w'. by econstructor.
    + left. exists [], mth, ms, [], w, w1. split; [done|]. split; [constructor|done].
Qed.

Lemma NeutralizeStuartLittle_success m w pre mth post errs w1 w2 :
  shutdown.methods m = pre ++ mth :: post ->
  AllFail (shutdown.logger m) pre (startWorld m w) errs w1 ->
  shutdown.fn mth (attemptWorld (shutdown.logger m) mth w1) = (None, w2) ->
  fst (shutdown.NeutralizeStuartLittle m w) = None /\
  observed (effect (shutdown.NeutralizeStuartLittle m) w) =
    attempts_of (shutdown.name <$> pre ++ [mth]).
Proof.
  intros Hm Hpre Hok. set (l := shutdown.logger m) in *.
  assert (Hrun : shutdown.NeutralizeStuartLittle m w =
    (None, snd (logger.Info l
                  ("Shutdown initiated successfully via " +:+ shutdown.name mth) w2))).
  { unfold shutdown.NeutralizeStuartLittle. rewrite bind_run.
    change (snd (logger.Info (shutdown.logger m) _ w)) with (startWorld m w).
    rewrite bind_run, Hm. fold l.
    rewrite (rangeMethods_AllFail l pre _ _ _ Hpre (mth :: post) None).
    by rewrite (rangeMethods_succeeded l mth post _ w1 w2 Hok). }
  pose proof (tame_methods m) as Htame. rewrite Hm in Htame.
  apply Forall_app in Htame as [Htpre Htame].
  apply Forall_cons in Htame as [[Happ Hobs] _].
  destruct (observed_AllFail l pre _ _ _ Htpre Hpre) as (_ & _ & d & Hd & Hod).
  destruct (Happ (attemptWorld l mth w1)) as [_ Ht2]. rewrite Hok in Ht2. simpl in Ht2.
  specialize (Hobs (attemptWorld l mth w1)).
  split; [by rewrite Hrun|].
  unfold effect. rewrite Hrun. cbn [snd].
  erewrite issued_app.
  2:{ unfold logger.Info. rewrite trace_log, Ht2.
      unfold attemptWorld at 1, logger.InfoWithExtra. rewrite trace_log, Hd.
      unfold startWorld, logger.Info. rewrite trace_log, <- !app_assoc. reflexivity. }
  rewrite !observed_app, Hod, Hobs, observed_announce.
  rewrite fmap_app, attempts_of_app. reflexivity.
Qed.

Lemma NeutralizeStuartLittle_failure m w errs w' :
  AllFail (shutdown.logger m) (shutdown.methods m) (startWorld m w) errs w' ->
  exists msg out,
    fst (shutdown.NeutralizeStuartLittle m w) =
      Some (Errorf_w "all shutdown methods failed, last error: "
              (Errorf_w "shutdown commands failed: " (OsError msg)
                 (", output: " +:+ out)) EmptyString) /\
    observed (effect (shutdown.NeutralizeStuartLittle m) w) =
      attempts_of ["nsenter"; "sysrq-trigger"; "direct-command"].
Proof.
  intros Hall. set (l := shutdown.logger m) in *.
  destruct (observed_AllFail l _ _ _ _ (tame_methods m) Hall) as (_ & _ & d & Hd & Hod).
  assert (Hrun : forall e, last errs = Some e ->
    shutdown.NeutralizeStuartLittle m w = (Some (shutdown.allFailed (Some e)), w')).
  { intros e He. unfold shutdown.NeutralizeStuartLittle. rewrite bind_run.
    change (snd (logger.Info (shutdown.logger m) _ w)) with (startWorld m w).
    rewrite bind_run. fold l.
    rewrite <- (app_nil_r (shutdown.methods m)).
    rewrite (rangeMethods_AllFail l _ _ _ _ Hall [] None), He. reflexivity. }
  unfold shutdown.methods in Hall.
  inversion Hall as [| ? ? ? e1 wa errs1 ? H1 Hall1]; subst.
  inversion Hall1 as [| ? ? ? e2 wb errs2 ? H2 Hall2]; subst.
  inversion Hall2 as [| ? ? ? e3 wc errs3 ? H3 Hall3]; subst.
  inversion Hall3; subst. simpl in H3.
  apply error_of_direct in H3 as (msg3 & out3 & ->).
  exists msg3, out3. split; [by rewrite (Hrun _ eq_refl)|].
  unfold effect. rewrite (Hrun _ eq_refl). cbn [snd].
  erewrite issued_app.
  2:{ rewrite Hd. unfold startWorld, logger.Info.
      rewrite trace_log, <- !app_assoc. reflexivity. }
  rewrite observed_app, Hod. reflexivity.
Qed.

(** The two forms of a run of the chain, for every host. *)
Lemma NeutralizeStuartLittle_outcome (m : shutdown.Manager) (w : World) :
  exists k, 1 <= k <= 3 /\
    observed (effect (shutdown.NeutralizeStuartLittle m) w) =
      attempts_of (take k ["nsenter"; "sysrq-trigger"; "direct-command"]) /\
    (fst (shutdown.NeutralizeStuartLittle m w) = None \/
     k = 3 /\
     exists msg out,
       fst (shutdown.NeutralizeStuartLittle m w) =
         Some (Errorf_w "all shutdown methods failed, last error: "
                 (Errorf_w "shutdown commands failed: " (OsError msg)
                    (", output: " +:+ out)) EmptyString)).
Proof.
  destruct (chain_outcome (shutdown.logger m) (shutdown.methods m) (startWorld m w))
    as [(pre & mth & post & errs & w1 & w2 & Hm & Hpre & Hok) | (errs & w' & Hall)].
  - destruct (NeutralizeStuartLittle_success m w _ _ _ _ _ _ Hm Hpre Hok) as [Hr Ho].
    exists (S (length pre)).
    assert (Hlen : length pre + S (length post) = 3).
    { apply (f_equal length) in Hm. rewrite length_app in Hm. simpl in Hm. lia. }
    split; [lia|]. split; [|by left].
    rewrite Ho, <- (method_names m), Hm, !fmap_app, fmap_cons.
    replace (S (length pre)) with (length pre + 1) by lia.
    rewrite (take_app_add' _ _ (length pre) 1) by (by rewrite length_fmap).
    reflexivity.
  - destruct (NeutralizeStuartLittle_failure m w _ _ Hall) as (msg & out & Hr & Ho).
    exists 3. split; [lia|]. split; [exact Ho|]. right. split; [done|].
    by exists msg, out.
Qed.

(** X5. Whatever the host answers, a run of the shutdown chain attempts a
    non-empty prefix of nsenter, sysrq-trigger, direct-command, in this
    order, each attempt announced before the method is entered.  It returns
    nil, or it has attempted all three and returns the error "all shutdown
    methods failed, last error: ..." that wraps the error of the direct
    method. *)
Theorem chain_attempts_a_prefix (m : shutdown.Manager) (w : World) :
  exists k, 1 <= k <= 3 /\
    observed (effect (shutdown.NeutralizeStuartLittle m) w) =
      attempts_of (take k ["nsenter"; "sysrq-trigger"; "direct-command"]) /\
    (fst (shutdown.NeutralizeStuartLittle m w) = None \/
     k = 3 /\
     exists msg out,
       fst (shutdown.NeutralizeStuartLittle m w) =
         Some (Errorf_w "all shutdown methods failed, last error: "
                 (Errorf_w "shutdown commands failed: " (OsError msg)
                    (", output: " +:+ out)) EmptyString)).
Proof. apply NeutralizeStuartLittle_outcome. Qed.

(** Requests of kinds that a projection ignores project to nothing. *)
Lemma redis_cmds_only ks d :
  KRedis ∉ ks -> Forall (only ks) d -> redis_cmds d = [].
Proof.
  intros Hk H. induction H as [|e d He _ IH]; [done|].
  unfold redis_cmds in *. cbn [omap list_omap]. rewrite IH.
  by destruct e.
Qed.

Lemma observed_only ks d :
  KConsole ∉ ks -> KExec ∉ ks -> KStat ∉ ks -> Forall (only ks) d -> observed d = [].
Proof.
  intros Hc Hx Hs H. induction H as [|e d He _ IH]; [done|].
  unfold observed in *. cbn [omap list_omap]. rewrite IH.
  by destruct e.
Qed.

Lemma not_elem_of_kinds (k : Kind) (ks : list Kind) :
  bool_decide (k ∈ ks) = false -> k ∉ ks.
Proof. intros H. by apply bool_decide_eq_false in H. Qed.

(** X6. The shutdown chain only writes console lines, runs commands, stats
    the host proc path and writes files: it issues no Redis command and no
    Opensearch request on the calling thread, does not cancel the context,
    and leaves the store as it was. *)
Theorem chain_leaves_redis_alone (m : shutdown.Manager) (w : World) :
  Forall (only [KConsole; KExec; KStat; KWrite])
    (effect (shutdown.NeutralizeStuartLittle m) w) /\
  redis_cmds (effect (shutdown.NeutralizeStuartLittle m) w) = [] /\
  store (snd (shutdown.NeutralizeStuartLittle m w)) = store w.
Proof.
  assert (H : emits (only [KConsole; KExec; KStat; KWrite])
                (shutdown.NeutralizeStuartLittle m)).
  { apply emits_NeutralizeStuartLittle; kind_tac. }
  destruct H as [_ H]. specialize (H w). split; [exact H|]. split.
  - eapply redis_cmds_only; [|exact H]. by apply not_elem_of_kinds.
  - apply same_store_NeutralizeStuartLittle.
Qed.

(** ** One detection cycle *)

Lemma checkAndShutdown_bind rc sm lg :
  checkAndShutdown rc sm lg = bind (redis.CheckAndDeleteKey rc) (afterCheck rc sm lg).
Proof. reflexivity. Qed.

Lemma appends_afterCheck rc sm lg r : appends (afterCheck rc sm lg r).
Proof.
  unfold afterCheck, logger.ErrorWithExtra, logger.Debug, logger.InfoWithExtra,
    logger.Info.
  destruct (snd r); [auto with go|]. destruct (negb (fst r)); [auto with go|].
  apply appends_bind; [auto with go|]. intros _.
  apply appends_bind; [apply idle_NeutralizeStuartLittle|].
  intros []; auto with go.
Qed.

Lemma emits_afterCheck ks rc sm lg r :
  KConsole ∈ ks -> KExec ∈ ks -> KStat ∈ ks -> KWrite ∈ ks ->
  emits (only ks) (afterCheck rc sm lg r).
Proof.
  intros Hc He Hs Hw.
  unfold afterCheck, logger.ErrorWithExtra, logger.Debug, logger.InfoWithExtra,
    logger.Info.
  destruct (snd r); [by apply emits_log|].
  destruct (negb (fst r)); [by apply emits_log|].
  apply emits_bind; [by apply emits_log|]. intros _.
  apply emits_bind; [by apply emits_NeutralizeStuartLittle|].
  intros []; by apply emits_log.
Qed.

Lemma same_store_afterCheck rc sm lg r : respects same_store (afterCheck rc sm lg r).
Proof.
  apply frame_afterCheck; [apply _ | apply same_store_emit | apply same_store_log].
Qed.

Lemma emits_CheckAndDeleteKey ks c :
  KRedis ∈ ks -> emits (only ks) (redis.CheckAndDeleteKey c).
Proof.
  intros Hk. unfold redis.CheckAndDeleteKey, redis.cmd_Get, redis.cmd_Del.
  apply emits_bind.
  { apply emits_bind; [apply emits_ask|]. intros f.
    apply emits_bind; [by apply emits_emit|]. intros _.
    destruct f; [apply emits_ret|].
    apply emits_bind; [apply emits_get_store|]. intros s.
    destruct (s !! redis.key c); apply emits_ret. }
  intros r. cbv zeta. destruct (redis.is_RedisNil (snd r)); [apply emits_ret|].
  destruct (snd r); [apply emits_ret|].
  apply emits_bind; [|intros []; apply emits_ret].
  apply emits_bind; [apply emits_ask|]. intros f.
  apply emits_bind; [by apply emits_emit|]. intros _.
  destruct f; [apply emits_ret|].
  apply emits_bind; [apply emits_get_store|]. intros s.
  apply emits_bind; [apply emits_set_store | intros _; apply emits_ret].
Qed.

Lemma observed_CheckAndDeleteKey c w :
  observed (effect (redis.CheckAndDeleteKey c) w) = [].
Proof.
  assert (H : emits (only [KRedis]) (redis.CheckAndDeleteKey c))
    by (apply emits_CheckAndDeleteKey; kind_tac).
  eapply observed_only; [| | | apply H]; by apply not_elem_of_kinds.
Qed.

Lemma effect_checkAndShutdown rc sm lg w :
  effect (checkAndShutdown rc sm lg) w =
    effect (redis.CheckAndDeleteKey rc) w
      ++ effect (afterCheck rc sm lg (fst (redis.CheckAndDeleteKey rc w)))
           (snd (redis.CheckAndDeleteKey rc w)).
Proof.
  rewrite checkAndShutdown_bind.
  apply effect_bind; [auto with go | apply appends_afterCheck].
Qed.

(** What the cycle does after a check that did not report the key. *)
Lemma effect_afterCheck_idle rc sm lg r w :
  fst r = false ->
  effect (afterCheck rc sm lg r) w =
    [EvStdout (match snd r with
               | Some _ => "[ERROR] Error checking Redis key"
               | None => "[DEBUG] Redis key not found, continuing to monitor..."
               end)].
Proof.
  intros Hr. unfold afterCheck, logger.ErrorWithExtra, logger.Debug. rewrite Hr.
  destruct (snd r); simpl; by rewrite effect_log.
Qed.

(** What is observed of the cycle after a check that reported the key. *)
Lemma observed_afterCheck_detected rc sm lg w :
  observed (effect (afterCheck rc sm lg (true, None)) w) =
    observed (effect (shutdown.NeutralizeStuartLittle sm)
                (snd (logger.InfoWithExtra lg
                        "Shutdown signal received! Key found and deleted."
                        (Some [("key", redis.GetKey rc)]) w))).
Proof.
  unfold afterCheck, logger.ErrorWithExtra, logger.InfoWithExtra, logger.Info.
  cbn [fst snd negb].
  rewrite effect_bind; [|auto with go|].
  2:{ intros _. apply appends_bind; [apply idle_NeutralizeStuartLittle|].
      intros []; auto with go. }
  rewrite effect_bind; [|apply idle_NeutralizeStuartLittle|intros []; auto with go].
  rewrite !observed_app.
  rewrite observed_log_quiet by reflexivity. cbn [app].
  destruct (fst (shutdown.NeutralizeStuartLittle sm _));
    rewrite observed_log_quiet by reflexivity; by rewrite app_nil_r.
Qed.

(** X7. A detection cycle starts the shutdown chain exactly when the check
    reported the key, and then runs it once.  After a check that failed the
    cycle only logs "Error checking Redis key"; after a check that found no
    key it only logs the debug line; in neither case is any command run or
    file written. *)
Theorem chain_runs_iff_detected (rc : redis.Client) (sm : shutdown.Manager)
    (lg : Logger) (w : World) :
  let r := fst (redis.CheckAndDeleteKey rc w) in
  (observed (effect (checkAndShutdown rc sm lg) w) <> [] <-> fst r = true) /\
  (fst r = true ->
   exists k, 1 <= k <= 3 /\
     observed (effect (checkAndShutdown rc sm lg) w) =
       attempts_of (take k ["nsenter"; "sysrq-trigger"; "direct-command"])) /\
  (fst r = false ->
   effect (checkAndShutdown rc sm lg) w =
     effect (redis.CheckAndDeleteKey rc) w ++
     [EvStdout (match snd r with
                | Some _ => "[ERROR] Error checking Redis key"
                | None => "[DEBUG] Redis key not found, continuing to monitor..."
                end)] /\
   Forall (only [KRedis; KConsole]) (effect (checkAndShutdown rc sm lg) w)).
Proof.
  cbv zeta. rewrite effect_checkAndShutdown, observed_app, observed_CheckAndDeleteKey.
  cbn [app].
  destruct (fst (redis.CheckAndDeleteKey rc w)) as [[|] err] eqn:Er; cbn [fst snd].
  - assert (err = None) as ->.
    { destruct err as [e|]; [|done].
      revert Er. run_redis.
      destruct (redis_fault (host w) (trace w) (Get (redis.key rc))); simpl; [done|].
      destruct (store w !! redis.key rc); simpl; [|done].
      by destruct (redis_fault _ _ (Del _)). }
    rewrite observed_afterCheck_detected.
    destruct (NeutralizeStuartLittle_outcome sm
                (snd (logger.InfoWithExtra lg
                        "Shutdown signal received! Key found and deleted."
                        (Some [("key", redis.GetKey rc)])
                        (snd (redis.CheckAndDeleteKey rc w)))))
      as (k & Hk & Ho & _).
    rewrite Ho. repeat split; try done.
    + intros _. destruct k as [|[|[|[|k]]]]; try lia; done.
    + intros _. exists k. by split.
  - rewrite effect_afterCheck_idle by done. cbn [snd]. repeat split; try done.
    + intros H. exfalso. apply H. by destruct err.
    + apply Forall_app. split.
      * apply (emits_CheckAndDeleteKey [KRedis; KConsole] rc). kind_tac.
      * constructor; [|constructor]. kind_tac.
Qed.

Lemma check_detects rc w :
  is_Some (store w !! redis.key rc) ->
  answers (host w) (trace w) [Get (redis.key rc); Del (redis.key rc)] ->
  fst (redis.CheckAndDeleteKey rc w) = (true, None) /\
  store (snd (redis.CheckAndDeleteKey rc w)) = delete (redis.key rc) (store w).
Proof.
  intros [v Hv] (Hget & Hdel & _). run_redis.
  rewrite Hget. simpl. rewrite Hv. simpl. by rewrite Hdel.
Qed.

Lemma check_absent rc w :
  store w !! redis.key rc = None ->
  redis_fault (host w) (trace w) (Get (redis.key rc)) = None ->
  fst (redis.CheckAndDeleteKey rc w) = (false, None) /\
  effect (redis.CheckAndDeleteKey rc) w = [EvRedis (Get (redis.key rc))].
Proof.
  intros Hv Hget. unfold effect. run_redis.
  rewrite Hget. simpl. rewrite Hv. simpl. split; [done|]. by read_issued.
Qed.

Lemma checkAndShutdown_world rc sm lg w :
  host (snd (checkAndShutdown rc sm lg w)) = host w /\
  store (snd (checkAndShutdown rc sm lg w)) =
    store (snd (redis.CheckAndDeleteKey rc w)).
Proof.
  split; [apply appends_checkAndShutdown|].
  rewrite checkAndShutdown_bind, bind_run. apply same_store_afterCheck.
Qed.

(** X8. A trigger is consumed before the shutdown chain runs and is not put
    back: when the key is present and the server answers the GET and the DEL,
    the cycle runs the chain and leaves the store without the key whatever
    the chain returned, so the next cycle, when the server answers its GET,
    finds no key, logs the debug line and does not run the chain again.  A
    shutdown that failed is not retried. *)
Theorem failed_shutdown_is_not_retried (rc : redis.Client) (sm : shutdown.Manager)
    (lg : Logger) (w : World) :
  let k := redis.key rc in
  let w' := snd (checkAndShutdown rc sm lg w) in
  is_Some (store w !! k) ->
  answers (host w) (trace w) [Get k; Del k] ->
  store w' = delete k (store w) /\
  observed (effect (checkAndShutdown rc sm lg) w) <> [] /\
  (redis_fault (host w) (trace w') (Get k) = None ->
   effect (checkAndShutdown rc sm lg) w' =
     [EvRedis (Get k);
      EvStdout "[DEBUG] Redis key not found, continuing to monitor..."]).
Proof.
  intros k w' Hs Ha. subst k w'.
  destruct (check_detects rc w Hs Ha) as [Hr Hst].
  destruct (checkAndShutdown_world rc sm lg w) as [Hh Hw]. rewrite Hst in Hw.
  split; [exact Hw|]. split.
  - rewrite effect_checkAndShutdown, observed_app, observed_CheckAndDeleteKey, Hr.
    cbn [app]. rewrite observed_afterCheck_detected.
    destruct (NeutralizeStuartLittle_outcome sm
                (snd (logger.InfoWithExtra lg
                        "Shutdown signal received! Key found and deleted."
                        (Some [("key", redis.GetKey rc)])
                        (snd (redis.CheckAndDeleteKey rc w)))))
      as (n & Hn & -> & _).
    destruct n as [|[|[|[|n]]]]; try lia; done.
  - intros Hget. rewrite <- Hh in Hget.
    assert (Habs : store (snd (checkAndShutdown rc sm lg w)) !! redis.key rc = None)
      by (rewrite Hw; apply lookup_delete_eq).
    destruct (check_absent rc _ Habs Hget) as [Hr' He'].
    rewrite effect_checkAndShutdown, He', Hr'.
    by rewrite effect_afterCheck_idle.
Qed.

Lemma failed_shutdown_is_not_retried_witness :
  let w := boot unprivileged {[ testKey := "shutdown" ]} in
  let w' := snd (checkAndShutdown testClient testManager stdoutLogger w) in
  is_Some (store w !! testKey) /\
  store w' = delete testKey (store w) /\
  effect (checkAndShutdown testClient testManager stdoutLogger) w' =
    [EvRedis (Get testKey);
     EvStdout "[DEBUG] Redis key not found, continuing to monitor..."].
Proof.
  intros w w'.
  assert (Hs : is_Some (store w !! redis.key testClient)) by (eexists; reflexivity).
  destruct (failed_shutdown_is_not_retried testClient testManager stdoutLogger w Hs
              (conj eq_refl (conj eq_refl I))) as (H1 & _ & H2).
  exact (conj Hs (conj H1 (H2 eq_refl))).
Defined.

(** ** The control loop and the termination signal *)

Lemma forSelect_after_signal rc sm lg pre sig rest w :
  forSelect rc sm lg (pre ++ Signal sig :: rest) w =
    forSelect rc sm lg (pre ++ [Signal sig]) w.
Proof.
  revert w. induction pre as [|[|sig'] pre IH]; intros w.
  - reflexivity.
  - rewrite <- !app_comm_cons. cbn [forSelect]. rewrite !bind_run. apply IH.
  - reflexivity.
Qed.

(** X9. The loop returns at the first termination signal: whatever the
    process would have received after it (ticks or further signals) changes
    nothing, neither the outcome of [main] nor any request it issues nor the
    store. *)
Theorem nothing_happens_after_the_signal (pre : list LoopInput) (sig : string)
    (rest : list LoopInput) (w : World) :
  main (pre ++ Signal sig :: rest) w = main (pre ++ [Signal sig]) w.
Proof.
  unfold main. rewrite !bind_run.
  destruct (fst (logger.NewLogger _ _)); [|reflexivity].
  rewrite !bind_run. destruct (fst (redis.NewClient _ _)); [|reflexivity].
  rewrite !bind_run. destruct (_ <=? 0)%Z; [reflexivity|].
  rewrite (monitor_run _ _ _ _ (pre ++ Signal sig :: rest)).
  rewrite (monitor_run _ _ _ _ (pre ++ [Signal sig])).
  apply forSelect_after_signal.
Qed.

Lemma emits_checkAndShutdown ks rc sm lg :
  KConsole ∈ ks -> KExec ∈ ks -> KStat ∈ ks -> KWrite ∈ ks -> KRedis ∈ ks ->
  emits (only ks) (checkAndShutdown rc sm lg).
Proof.
  intros Hc He Hs Hw Hr. rewrite checkAndShutdown_bind.
  apply emits_bind; [by apply emits_CheckAndDeleteKey|].
  intros r. by apply emits_afterCheck.
Qed.

Lemma emits_ticks ks rc sm lg pre :
  KConsole ∈ ks -> KExec ∈ ks -> KStat ∈ ks -> KWrite ∈ ks -> KRedis ∈ ks ->
  Forall (fun i => i = Tick) pre ->
  emits (only ks) (forSelect rc sm lg pre).
Proof.
  intros Hc He Hs Hw Hr H. induction H as [|i pre -> _ IH]; cbn [forSelect].
  - apply emits_ret.
  - apply emits_bind; [by apply emits_checkAndShutdown | intros _; exact IH].
Qed.

Lemma emits_monitor_nil ks cfg rc sm lg :
  KConsole ∈ ks -> KExec ∈ ks -> KStat ∈ ks -> KWrite ∈ ks -> KRedis ∈ ks ->
  emits (only ks) (monitor cfg rc sm lg []).
Proof.
  intros Hc He Hs Hw Hr. unfold monitor, logger.Info.
  apply emits_bind; [apply emits_ask|]. intros interval.
  apply emits_bind; [by apply emits_log|]. intros _.
  apply emits_bind; [by apply emits_checkAndShutdown|]. intros _. apply emits_ret.
Qed.

Lemma forSelect_app_ticks rc sm lg pre rest w :
  Forall (fun i => i = Tick) pre ->
  forSelect rc sm lg (pre ++ rest) w =
    forSelect rc sm lg rest (snd (forSelect rc sm lg pre w)).
Proof.
  intros H. revert w. induction H as [|i pre -> _ IH]; intros w.
  - reflexivity.
  - rewrite <- app_comm_cons. cbn [forSelect]. rewrite !bind_run. apply IH.
Qed.

Lemma effect_signal rc sm lg sig rest w :
  effect (forSelect rc sm lg (Signal sig :: rest)) w = graceful_exit.
Proof.
  cbn [forSelect]. unfold logger.InfoWithExtra, logger.Info.
  rewrite effect_bind; [|auto with go|intros; appends_tac].
  rewrite effect_bind; [|auto with go|intros; appends_tac].
  rewrite effect_bind; [|auto with go|intros; appends_tac].
  by rewrite !effect_log, effect_emit, effect_ret.
Qed.

(** X10. When the first signal arrives after some ticks, the loop logs
    "Received shutdown signal", cancels the context, logs "Graceful shutdown
    complete" and returns with status 0: these three events end the run, the
    context is cancelled nowhere before them, and before them the loop has
    performed the initial cycle and one cycle per tick. *)
Theorem signal_ends_the_run (cfg : config.Config) (rc : redis.Client)
    (sm : shutdown.Manager) (lg : Logger) (pre : list LoopInput) (sig : string)
    (rest : list LoopInput) (w : World) :
  Forall (fun i => i = Tick) pre ->
  fst (monitor cfg rc sm lg (pre ++ Signal sig :: rest) w) = Exit 0 /\
  exists d,
    effect (monitor cfg rc sm lg (pre ++ Signal sig :: rest)) w = d ++ graceful_exit /\
    cycles d = S (length pre) /\
    EvCancel ∉ d.
Proof.
  intros Hpre.
  pose (ks := [KConsole; KExec; KStat; KWrite; KRedis]).
  assert (Hks : forall d, Forall (only ks) d -> EvCancel ∉ d).
  { intros d Hd Hin. rewrite Forall_forall in Hd. apply Hd in Hin.
    unfold only, ks in Hin. cbn [kind_of] in Hin.
    by repeat (apply elem_of_cons in Hin as [Hin|Hin]; [discriminate|]);
       apply elem_of_nil in Hin. }
  split.
  - rewrite monitor_run, forSelect_outcome, existsb_app. cbn [existsb is_Signal].
    by rewrite orb_true_r.
  - rewrite effect_monitor.
    set (w0 := snd (monitor cfg rc sm lg [] w)).
    assert (Heff : effect (forSelect rc sm lg (pre ++ Signal sig :: rest)) w0 =
                   effect (forSelect rc sm lg pre) w0 ++ graceful_exit).
    { unfold effect at 1. rewrite (forSelect_app_ticks _ _ _ _ _ _ Hpre).
      apply issued_app.
      destruct (appends_forSelect rc sm lg (Signal sig :: rest)
                  (snd (forSelect rc sm lg pre w0))) as [_ ->].
      destruct (appends_forSelect rc sm lg pre w0) as [_ ->].
      by rewrite effect_signal, app_assoc. }
    rewrite Heff, app_assoc. eexists. split; [reflexivity|]. split.
    + rewrite cycles_app, cycles_monitor_nil, forSelect_cycles.
      f_equal. clear -Hpre. induction Hpre as [|i pre -> _ IH]; simpl; congruence.
    + apply Hks, Forall_app. split.
      * apply (emits_monitor_nil ks); kind_tac.
      * apply (emits_ticks ks); [kind_tac..|done].
Qed.

Lemma signal_ends_the_run_witness :
  let w := boot unprivileged ∅ in
  let cfg := config.Load unprivileged in
  fst (monitor cfg testClient testManager stdoutLogger
         [Tick; Signal "interrupt"; Tick] w) = Exit 0 /\
  exists d,
    effect (monitor cfg testClient testManager stdoutLogger
              [Tick; Signal "interrupt"; Tick]) w = d ++ graceful_exit /\
    cycles d = 2.
Proof.
  intros w cfg.
  assert (Hpre : Forall (fun i => i = Tick) [Tick]) by (repeat constructor).
  destruct (signal_ends_the_run cfg testClient testManager stdoutLogger
              [Tick] "interrupt" [Tick] w Hpre) as (H1 & d & H2 & H3 & _).
  split; [exact H1|]. exists d. exact (conj H2 H3).
Defined.

(** ** Building the logger *)

Lemma NewLogger_cases cfg w :
  store (snd (logger.NewLogger cfg w)) = store w /\
  goroutines (snd (logger.NewLogger cfg w)) = goroutines w /\
  match opensearch_NewClient_reply (host w) [config.OpensearchURL cfg] with
  | Some msg =>
      fst (logger.NewLogger cfg w) =
        inr (Errorf_w "failed to create Opensearch client: " (OsError msg) EmptyString) /\
      effect (logger.NewLogger cfg) w = []
  | None =>
      match opensearch_Info_reply (host w) (trace w) with
      | Some msg =>
          fst (logger.NewLogger cfg w) =
            inl {| client := None;
                   index := config.OpensearchIndex cfg;
                   hostname := Hostname_reply (host w);
                   redisKey := config.RedisKey cfg |} /\
          effect (logger.NewLogger cfg) w =
            [EvOpensearchInfo;
             EvStdout ("[WARN] Could not connect to Opensearch: " +:+ msg
                         +:+ ". Logging will continue to stdout only.")]
      | None =>
          fst (logger.NewLogger cfg w) =
            inl {| client :=
                     Some {| Addresses := [config.OpensearchURL cfg];
                             Username := config.OpensearchUsername cfg;
                             Password :=
                               if String.eqb (config.OpensearchUsername cfg) EmptyString
                               then EmptyString
                               else config.OpensearchPassword cfg |};
                   index := config.OpensearchIndex cfg;
                   hostname := Hostname_reply (host w);
                   redisKey := config.RedisKey cfg |} /\
          effect (logger.NewLogger cfg) w = [EvOpensearchInfo]
      end
  end.
Proof.
  unfold effect. run_logger.
  destruct (String.eqb (config.OpensearchUsername cfg) EmptyString) eqn:Eu; simpl.
  - apply String.eqb_eq in Eu.
    destruct (opensearch_NewClient_reply _ _); simpl.
    { repeat split. apply issued_refl. }
    destruct (opensearch_Info_reply _ _); simpl; repeat split;
      try (by read_issued). by rewrite Eu.
  - destruct (opensearch_NewClient_reply _ _); simpl.
    { repeat split. apply issued_refl. }
    destruct (opensearch_Info_reply _ _); simpl; repeat split; by read_issued.
Qed.

(** X11. [NewLogger] returns an error exactly when the Opensearch library
    rejects the configuration, and then issues no request.  Otherwise it
    tests the connection once and returns a logger for the configured base
    index and key: without a client (after one console warning) when the test
    fails; with a client when it succeeds, and that client carries the
    configured user name and, only when the user name is not empty, the
    configured password. *)
Theorem NewLogger_outcomes (cfg : config.Config) (w : World) :
  ((exists err, fst (logger.NewLogger cfg w) = inr err) <->
   opensearch_NewClient_reply (host w) [config.OpensearchURL cfg] <> None) /\
  match opensearch_NewClient_reply (host w) [config.OpensearchURL cfg] with
  | Some msg =>
      fst (logger.NewLogger cfg w) =
        inr (Errorf_w "failed to create Opensearch client: " (OsError msg) EmptyString) /\
      effect (logger.NewLogger cfg) w = []
  | None =>
      match opensearch_Info_reply (host w) (trace w) with
      | Some msg =>
          fst (logger.NewLogger cfg w) =
            inl {| client := None;
                   index := config.OpensearchIndex cfg;
                   hostname := Hostname_reply (host w);
                   redisKey := config.RedisKey cfg |} /\
          effect (logger.NewLogger cfg) w =
            [EvOpensearchInfo;
             EvStdout ("[WARN] Could not connect to Opensearch: " +:+ msg
                         +:+ ". Logging will continue to stdout only.")]
      | None =>
          fst (logger.NewLogger cfg w) =
            inl {| client :=
                     Some {| Addresses := [config.OpensearchURL cfg];
                             Username := config.OpensearchUsername cfg;
                             Password :=
                               if String.eqb (config.OpensearchUsername cfg) EmptyString
                               then EmptyString
                               else config.OpensearchPassword cfg |};
                   index := config.OpensearchIndex cfg;
                   hostname := Hostname_reply (host w);
                   redisKey := config.RedisKey cfg |} /\
          effect (logger.NewLogger cfg) w = [EvOpensearchInfo]
      end
  end.
Proof.
  destruct (NewLogger_cases cfg w) as (_ & _ & H). split; [|exact H].
  destruct (opensearch_NewClient_reply _ _) as [msg|].
  - destruct H as [-> _]. split; [done|]. intros _. by eexists.
  - destruct (opensearch_Info_reply _ _); destruct H as [-> _];
      split; try done; by intros [? ?].
Qed.

(** ** Start-up, case by case *)

Lemma store_log l level message extra w :
  store (snd (logger.log l level message extra w)) = store w.
Proof. apply same_store_log. Qed.

Lemma NewClient_cases cfg w :
  host (snd (redis.NewClient cfg w)) = host w /\
  store (snd (redis.NewClient cfg w)) = store w /\
  trace (snd (redis.NewClient cfg w)) = trace w ++ [EvRedis Ping] /\
  fst (redis.NewClient cfg w) =
    match redis_fault (host w) (trace w) Ping with
    | Some msg => inr (Errorf_w "failed to connect to Redis: " (OsError msg) EmptyString)
    | None => inl {| redis.key := config.RedisKey cfg |}
    end.
Proof.
  unfold redis.NewClient, redis.cmd_Ping, bind, ask, emit, ret. simpl.
  by destruct (redis_fault _ _ _).
Qed.

Lemma main_cases inputs w :
  let cfg := config.Load (host w) in
  let start := EvStdout "signalmice v1.0.0 starting..." in
  let w1 := snd (Printf "signalmice v1.0.0 starting..." w) in
  let boot_log := effect (logger.NewLogger cfg) w1 in
  let starting := EvStdout "[INFO] signalmice starting" in
  match fst (logger.NewLogger cfg w1) with
  | inr err =>
      fst (main inputs w) = Exit 1 /\
      store (snd (main inputs w)) = store w /\
      effect (main inputs) w =
        start :: boot_log ++ [EvStdout ("Failed to initialize logger: " +:+ Error err)]
  | inl lg =>
      match redis_fault (host w) (trace w ++ start :: boot_log ++ [starting]) Ping with
      | Some msg =>
          fst (main inputs w) = Exit 1 /\
          store (snd (main inputs w)) = store w /\
          effect (main inputs) w =
            start :: boot_log ++
            [starting; EvRedis Ping; EvStdout "[ERROR] Failed to connect to Redis"]
      | None =>
          if (config.CheckInterval cfg <=? 0)%Z then
            fst (main inputs w) = Panic "non-positive interval for NewTicker" /\
            store (snd (main inputs w)) = store w /\
            effect (main inputs) w =
              start :: boot_log ++
              [starting; EvRedis Ping;
               EvStdout "[INFO] Connected to Redis successfully"]
          else
            exists w3,
              main inputs w =
                monitor cfg {| redis.key := config.RedisKey cfg |}
                  (shutdown.NewManager cfg lg) lg inputs w3 /\
              host w3 = host w /\
              store w3 = store w /\
              trace w3 =
                trace w ++ start :: boot_log ++
                [starting; EvRedis Ping;
                 EvStdout "[INFO] Connected to Redis successfully"]
      end
  end.
Proof.
  intros cfg start w1 boot_log starting.
  destruct (appends_NewLogger cfg w1) as [Hh1 Ht1]. fold boot_log in Ht1.
  destruct (NewLogger_cases cfg w1) as (Hs1 & _ & _).
  change (host w1) with (host w) in Hh1.
  change (store w1) with (store w) in Hs1.
  change (trace w1) with (trace w ++ [start]) in Ht1.
  set (wn := snd (logger.NewLogger cfg w1)) in *.
  assert (Hmain : main inputs w =
    match fst (logger.NewLogger cfg w1) with
    | inr err =>
        (Exit 1, snd (Printf ("Failed to initialize logger: " +:+ Error err) wn))
    | inl lg =>
        let w2 := snd (logger.InfoWithExtra lg (appName +:+ " starting")
                         (Some [("version", appVersion);
                                ("check_interval",
                                 Duration_String (host wn) (config.CheckInterval cfg));
                                ("redis_key", config.RedisKey cfg)]) wn) in
        let wc := snd (redis.NewClient cfg w2) in
        match fst (redis.NewClient cfg w2) with
        | inr err =>
            (Exit 1, snd (logger.ErrorWithExtra lg "Failed to connect to Redis"
                            (Some [("error", Error err)]) wc))
        | inl rc =>
            let w3 := snd (logger.Info lg "Connected to Redis successfully" wc) in
            if (config.CheckInterval cfg <=? 0)%Z
            then (Panic "non-positive interval for NewTicker", w3)
            else monitor cfg rc (shutdown.NewManager cfg lg) lg inputs w3
        end
    end).
  { unfold main. rewrite !bind_run.
    change (fst (ask (fun h _ => config.Load h) _)) with cfg.
    change (snd (ask (fun h _ => config.Load h) _)) with w1.
    fold wn. destruct (fst (logger.NewLogger cfg w1)) as [lg|err].
    - rewrite !bind_run. cbv zeta.
      destruct (fst (redis.NewClient cfg _)) as [rc|err].
      + rewrite !bind_run. by destruct (_ <=? 0)%Z.
      + by rewrite !bind_run.
    - by rewrite !bind_run. }
  destruct (fst (logger.NewLogger cfg w1)) as [lg|err].
  - cbv zeta in Hmain.
    set (w2 := snd (logger.InfoWithExtra lg _ _ wn)) in Hmain.
    assert (Hh2 : host w2 = host w)
      by (unfold w2, logger.InfoWithExtra; by rewrite host_log).
    assert (Hs2 : store w2 = store w)
      by (unfold w2, logger.InfoWithExtra; rewrite store_log; exact Hs1).
    assert (Ht2 : trace w2 = trace w ++ start :: boot_log ++ [starting]).
    { unfold w2, logger.InfoWithExtra. rewrite trace_log, Ht1, <- !app_assoc.
      reflexivity. }
    destruct (NewClient_cases cfg w2) as (Hhc & Hsc & Htc & Hrc).
    rewrite Hh2, Ht2 in Hrc. rewrite Hrc in Hmain.
    destruct (redis_fault (host w) _ Ping) as [msg|].
    + unfold logger.ErrorWithExtra in Hmain.
      rewrite Hmain. cbn [fst snd]. split; [done|].
      split; [rewrite store_log; congruence|].
      unfold effect. rewrite Hmain. cbn [snd]. apply issued_app.
      rewrite trace_log, Htc, Ht2, <- !app_assoc. cbn [app].
      by rewrite <- !app_assoc.
    + destruct (_ <=? 0)%Z.
      * unfold logger.Info in Hmain.
        rewrite Hmain. cbn [fst snd]. split; [done|].
        split; [rewrite store_log; congruence|].
        unfold effect. rewrite Hmain. cbn [snd]. apply issued_app.
        rewrite trace_log, Htc, Ht2, <- !app_assoc. cbn [app].
        by rewrite <- !app_assoc.
      * eexists. split; [exact Hmain|]. unfold logger.Info.
        split; [rewrite host_log; congruence|].
        split; [rewrite store_log; congruence|].
        rewrite trace_log, Htc, Ht2, <- !app_assoc. cbn [app].
        by rewrite <- !app_assoc.
  - rewrite Hmain. cbn [fst snd]. split; [done|]. split; [exact Hs1|].
    unfold effect. rewrite Hmain. cbn [snd]. apply issued_app.
    unfold Printf, emit. cbn [trace snd]. rewrite Ht1, <- !app_assoc. reflexivity.
Qed.

(** ** [main]: when start-up stops the process *)

Lemma emits_NewLogger ks cfg :
  KConsole ∈ ks -> KSinkInfo ∈ ks -> emits (only ks) (logger.NewLogger cfg).
Proof.
  intros Hc Hi. unfold logger.NewLogger.
  apply emits_bind; [apply emits_ask|]. intros hostname. cbv zeta.
  apply emits_bind; [apply emits_ask|]. intros [msg|]; [apply emits_ret|].
  apply emits_bind; [apply emits_ask|]. intros info.
  apply emits_bind; [by apply emits_emit|]. intros _.
  destruct info; [|apply emits_ret].
  apply emits_bind; [by apply emits_emit | intros _; apply emits_ret].
Qed.

(** A start-up that stops before the loop has issued console lines, the
    connection test of the sink and at most the PING. *)
Lemma stopped_startup cfg w1 lines d :
  d = EvStdout "signalmice v1.0.0 starting..."
        :: effect (logger.NewLogger cfg) w1 ++ lines ->
  Forall (only [KConsole; KRedis]) lines ->
  redis_cmds lines = [] \/ redis_cmds lines = [Ping] ->
  observed lines = [] ->
  Forall (only [KConsole; KSinkInfo; KRedis]) d /\
  (redis_cmds d = [] \/ redis_cmds d = [Ping]) /\
  cycles d = 0 /\
  observed d = [].
Proof.
  intros -> Hk Hr Ho.
  assert (Hboot : Forall (only [KConsole; KSinkInfo]) (effect (logger.NewLogger cfg) w1))
    by (apply (emits_NewLogger [KConsole; KSinkInfo]); kind_tac).
  assert (Hbr : redis_cmds (effect (logger.NewLogger cfg) w1) = [])
    by (eapply redis_cmds_only; [|exact Hboot]; by apply not_elem_of_kinds).
  assert (Hbo : observed (effect (logger.NewLogger cfg) w1) = []).
  { destruct (NewLogger_cases cfg w1) as (_ & _ & Hc).
    destruct (opensearch_NewClient_reply _ _); [by destruct Hc as [_ ->]|].
    destruct (opensearch_Info_reply _ _); by destruct Hc as [_ ->]. }
  change (?x :: ?l ++ ?t) with ([x] ++ l ++ t).
  split; [|split; [|split]].
  - apply Forall_app. split; [repeat constructor; kind_tac|].
    apply Forall_app. split.
    + eapply Forall_impl; [exact Hboot|]. intros e. apply only_subseteq. kinds_sub.
    + eapply Forall_impl; [exact Hk|]. intros e. apply only_subseteq. kinds_sub.
  - unfold redis_cmds in *. rewrite !omap_app, Hbr. exact Hr.
  - rewrite !cycles_app. unfold cycles. rewrite Hbr.
    destruct Hr as [-> | ->]; reflexivity.
  - by rewrite !observed_app, Hbo, Ho.
Qed.

(** X12. When Redis does not answer the PING, [main] exits with status 1
    during start-up, whatever it would have received later: it performs no
    detection cycle, runs no command, writes no file and leaves the store as
    it was.  Its requests are console lines, the connection test of the audit
    sink and at most the one PING. *)
Theorem main_exits_when_redis_is_down (inputs : list LoopInput) (w : World) :
  (forall tr, redis_fault (host w) tr Ping <> None) ->
  fst (main inputs w) = Exit 1 /\
  store (snd (main inputs w)) = store w /\
  Forall (only [KConsole; KSinkInfo; KRedis]) (effect (main inputs) w) /\
  (redis_cmds (effect (main inputs) w) = [] \/
   redis_cmds (effect (main inputs) w) = [Ping]) /\
  cycles (effect (main inputs) w) = 0 /\
  observed (effect (main inputs) w) = [].
Proof.
  intros Hdown. pose proof (main_cases inputs w) as H. cbv zeta in H.
  destruct (fst (logger.NewLogger _ _)) as [lg|err].
  - destruct (redis_fault (host w) _ Ping) as [msg|] eqn:E;
      [|by apply Hdown in E].
    destruct H as (Hr & Hs & He). split; [done|]. split; [done|].
    eapply stopped_startup; [exact He | | by right | reflexivity].
    repeat constructor; kind_tac.
  - destruct H as (Hr & Hs & He). split; [done|]. split; [done|].
    eapply stopped_startup; [exact He | | by left | reflexivity].
    repeat constructor; kind_tac.
Qed.

Lemma main_exits_when_redis_is_down_witness :
  let w := boot redisDown {[ config.DefaultRedisKey := "shutdown" ]} in
  fst (main [Tick; Tick] w) = Exit 1 /\
  redis_cmds (effect (main [Tick; Tick]) w) = [Ping] /\
  store (snd (main [Tick; Tick] w)) = store w.
Proof.
  intros w.
  assert (Hdown : forall tr, redis_fault (host w) tr Ping <> None) by (intros tr; discriminate).
  destruct (main_exits_when_redis_is_down [Tick; Tick] w Hdown) as (H1 & H2 & _).
  split; [exact H1|]. split; [reflexivity | exact H2].
Defined.

(** X13. With a check interval that is not positive, [main] never reaches the
    loop: it exits with status 1 (logger or Redis) or panics when it creates
    the ticker, after the connection to Redis and before the initial check.
    No detection cycle is performed, no command is run and the store is as it
    was, so a trigger that is present stays unconsumed. *)
Theorem nonpositive_interval_never_monitors (inputs : list LoopInput) (w : World) :
  (config.CheckInterval (config.Load (host w)) <= 0)%Z ->
  (fst (main inputs w) = Exit 1 \/
   fst (main inputs w) = Panic "non-positive interval for NewTicker") /\
  store (snd (main inputs w)) = store w /\
  Forall (only [KConsole; KSinkInfo; KRedis]) (effect (main inputs) w) /\
  (redis_cmds (effect (main inputs) w) = [] \/
   redis_cmds (effect (main inputs) w) = [Ping]) /\
  cycles (effect (main inputs) w) = 0 /\
  observed (effect (main inputs) w) = [].
Proof.
  intros Hint. pose proof (main_cases inputs w) as H. cbv zeta in H.
  apply Z.leb_le in Hint. rewrite Hint in H.
  destruct (fst (logger.NewLogger _ _)) as [lg|err].
  - destruct (redis_fault (host w) _ Ping) as [msg|].
    + destruct H as (Hr & Hs & He). split; [by left|]. split; [done|].
      eapply stopped_startup; [exact He | | by right | reflexivity].
      repeat constructor; kind_tac.
    + destruct H as (Hr & Hs & He). split; [by right|]. split; [done|].
      eapply stopped_startup; [exact He | | by right | reflexivity].
      repeat constructor; kind_tac.
  - destruct H as (Hr & Hs & He). split; [by left|]. split; [done|].
    eapply stopped_startup; [exact He | | by left | reflexivity].
    repeat constructor; kind_tac.
Qed.

Lemma nonpositive_interval_never_monitors_witness :
  let h := with_env (setenv "SIGNALMICE_CHECK_INTERVAL" "0") unprivileged in
  let w := boot h {[ config.DefaultRedisKey := "shutdown" ]} in
  fst (main [Tick] w) = Panic "non-positive interval for NewTicker" /\
  cycles (effect (main [Tick]) w) = 0 /\
  store (snd (main [Tick] w)) = store w.
Proof.
  intros h w.
  assert (Hint : (config.CheckInterval (config.Load (host w)) <= 0)%Z)
    by (vm_compute; discriminate).
  destruct (nonpositive_interval_never_monitors [Tick] w Hint)
    as (_ & H2 & _ & _ & H3 & _).
  split; [reflexivity|]. exact (conj H3 H2).
Defined.

(** X14. When the Opensearch library rejects the configuration, [main] prints
    "Failed to initialize logger: failed to create Opensearch client: ..."
    and exits with status 1; it has issued nothing else, not even the
    connection test or the PING. *)
Theorem main_exits_when_logger_cannot_be_built (inputs : list LoopInput) (w : World)
    (msg : string) :
  opensearch_NewClient_reply (host w)
    [config.OpensearchURL (config.Load (host w))] = Some msg ->
  fst (main inputs w) = Exit 1 /\
  store (snd (main inputs w)) = store w /\
  effect (main inputs) w =
    [EvStdout "signalmice v1.0.0 starting...";
     EvStdout ("Failed to initialize logger: failed to create Opensearch client: "
                 +:+ msg)].
Proof.
  intros Hnew. pose proof (main_cases inputs w) as H. cbv zeta in H.
  set (w1 := snd (Printf "signalmice v1.0.0 starting..." w)) in *.
  destruct (NewLogger_cases (config.Load (host w)) w1) as (_ & _ & Hc).
  change (host w1) with (host w) in Hc. rewrite Hnew in Hc. destruct Hc as [Hr He].
  rewrite Hr, He in H. destruct H as (H1 & H2 & H3).
  split; [done|]. split; [done|]. rewrite H3. cbn [app Error Errorf_w].
  by rewrite append_empty_r.
Qed.

Lemma main_exits_when_logger_cannot_be_built_witness :
  let w := boot (with_NewClient_reply (Some "invalid URL") unprivileged) ∅ in
  fst (main [Tick] w) = Exit 1 /\
  effect (main [Tick]) w =
    [EvStdout "signalmice v1.0.0 starting...";
     EvStdout "Failed to initialize logger: failed to create Opensearch client: invalid URL"].
Proof.
  intros w.
  destruct (main_exits_when_logger_cannot_be_built [Tick] w "invalid URL" eq_refl)
    as (H1 & _ & H2).
  exact (conj H1 H2).
Defined.

(** ** Loading the configuration *)

Lemma Atoi_syntax s : snd (Atoi s) = Some ErrSyntax -> fst (Atoi s) = 0%Z.
Proof.
  unfold Atoi. destruct s as [|a s]; [done|].
  destruct (Ascii.eqb a "-" || Ascii.eqb a "+").
  - destruct s as [|b s]; [done|].
    destruct (ParseUint_digits _ _) as [un [[]|]]; [done| |];
      repeat (match goal with |- context [if ?b then _ else _] => destruct b end);
      done.
  - destruct (ParseUint_digits _ _) as [un [[]|]]; [done| |];
      repeat (match goal with |- context [if ?b then _ else _] => destruct b end);
      done.
Qed.

(** X15. A check interval that is set but is not an integer ([Atoi] reports a
    syntax error) loads as the zero duration: the parse error is dropped, the
    default of 60 seconds is not used. *)
Theorem unparsable_interval_is_zero (h : Host) (s : string) :
  LookupEnv h "SIGNALMICE_CHECK_INTERVAL" = Some s ->
  snd (Atoi s) = Some ErrSyntax ->
  config.CheckInterval (config.Load h) = 0%Z.
Proof.
  intros Henv Hs. unfold config.Load, config.getEnv. cbn [config.CheckInterval].
  rewrite Henv, (Atoi_syntax s Hs). reflexivity.
Qed.

Lemma unparsable_interval_is_zero_witness :
  let h := with_env (setenv "SIGNALMICE_CHECK_INTERVAL" "invalid") unprivileged in
  config.CheckInterval (config.Load h) = 0%Z /\
  config.CheckInterval (config.Load (with_env (setenv "SIGNALMICE_CHECK_INTERVAL" "5m")
                                       unprivileged)) = 0%Z.
Proof.
  intros h. split.
  - exact (unparsable_interval_is_zero h "invalid" eq_refl eq_refl).
  - exact (unparsable_interval_is_zero
             (with_env (setenv "SIGNALMICE_CHECK_INTERVAL" "5m") unprivileged)
             "5m" eq_refl eq_refl).
Defined.

(** X16. The check interval is read as a number of seconds: when the value of
    SIGNALMICE_CHECK_INTERVAL (60 when unset) parses to [n] with
    |n| <= 9223372036, the loaded duration is n * 10^9 nanoseconds; beyond
    that bound the multiplication wraps around in int64 and the loaded
    duration is no longer n seconds. *)
Theorem check_interval_is_seconds (h : Host) :
  let n := fst (Atoi (config.getEnv h "SIGNALMICE_CHECK_INTERVAL" "60")) in
  ((-9223372036 <= n <= 9223372036)%Z ->
   config.CheckInterval (config.Load h) = (n * 1000000000)%Z) /\
  ((9223372036 < n)%Z \/ (n < -9223372036)%Z ->
   config.CheckInterval (config.Load h) <> (n * 1000000000)%Z) /\
  (- 2 ^ 63 <= config.CheckInterval (config.Load h) < 2 ^ 63)%Z.
Proof.
  cbv zeta. unfold config.Load. cbn [config.CheckInterval].
  set (n := fst (Atoi _)). unfold wrap64.
  change (2 ^ 63)%Z with 9223372036854775808%Z.
  change (2 ^ 64)%Z with 18446744073709551616%Z.
  pose proof (Z.mod_pos_bound (n * 1000000000 + 9223372036854775808)
                18446744073709551616 eq_refl) as Hb.
  split; [|split].
  - intros Hn. rewrite Z.mod_small by lia. lia.
  - intros Hn. lia.
  - lia.
Qed.

Lemma check_interval_is_seconds_witness :
  config.CheckInterval (config.Load unprivileged) = 60000000000%Z /\
  config.CheckInterval
    (config.Load (with_env (setenv "SIGNALMICE_CHECK_INTERVAL" "30") unprivileged))
    = 30000000000%Z /\
  config.CheckInterval
    (config.Load (with_env (setenv "SIGNALMICE_CHECK_INTERVAL" "9223372037")
                    unprivileged))
    <> 9223372037000000000%Z.
Proof.
  destruct (check_interval_is_seconds unprivileged) as (H1 & _ & _).
  destruct (check_interval_is_seconds
              (with_env (setenv "SIGNALMICE_CHECK_INTERVAL" "30") unprivileged))
    as (H2 & _ & _).
  destruct (check_interval_is_seconds
              (with_env (setenv "SIGNALMICE_CHECK_INTERVAL" "9223372037")
                 unprivileged)) as (_ & H3 & _).
  split; [|split].
  - apply H1. vm_compute. split; discriminate.
  - apply H2. vm_compute. split; discriminate.
  - apply H3. left. vm_compute. reflexivity.
Defined.

(** X17. A boolean option that is set is true exactly when its value is one
    of "true", "1", "yes", compared as written; any other value, the empty
    string and "TRUE" included, gives false whatever the default.  The
    default is used only when the variable is not set. *)
Theorem getEnvBool_truthy (h : Host) (key : string) (defaultValue : bool) :
  (config.getEnvBool h key defaultValue = true <->
     LookupEnv h key = Some "true" \/ LookupEnv h key = Some "1" \/
     LookupEnv h key = Some "yes" \/
     (LookupEnv h key = None /\ defaultValue = true)) /\
  (forall value, LookupEnv h key = Some value ->
     config.getEnvBool h key defaultValue = config.getEnvBool h key (negb defaultValue)).
Proof.
  unfold config.getEnvBool. split.
  - destruct (LookupEnv h key) as [value|].
    + rewrite !orb_true_iff, !String.eqb_eq. split.
      * intros [[->| ->]| ->]; auto.
      * intros [[= ->]|[[= ->]|[[= ->]|[? _]]]]; auto. done.
    + split; [intros ->; auto 6|]. by intros [?|[?|[?|[_ ?]]]].
  - by intros value ->.
Qed.

Example getEnvBool_values :
  let flag value :=
    config.getEnvBool (with_env (setenv "OPENSEARCH_USE_DAILY_INDEX" value) unprivileged)
      "OPENSEARCH_USE_DAILY_INDEX" true in
  flag "true" = true /\ flag "1" = true /\ flag "yes" = true /\
  flag "false" = false /\ flag "TRUE" = false /\ flag EmptyString = false /\
  flag "on" = false.
Proof. repeat split; reflexivity. Qed.

(** ** [main]: what it does to the store and which requests it issues *)

Lemma consumed_emit k e : respects (consumed k) (emit e).
Proof.
  apply (respects_weaken same_store); [apply same_store_consumed | apply same_store_emit].
Qed.

Lemma consumed_log k l level message extra :
  respects (consumed k) (logger.log l level message extra).
Proof.
  apply (respects_weaken same_store); [apply same_store_consumed | apply same_store_log].
Qed.

Lemma consumed_monitor cfg rc sm lg inputs :
  respects (consumed (redis.key rc)) (monitor cfg rc sm lg inputs).
Proof.
  apply frame_monitor;
    [apply _ | apply consumed_emit | apply consumed_log
    | apply consumed_CheckAndDeleteKey].
Qed.

(** X18. [main] never writes to Redis and never touches a key other than the
    monitored one: whatever it receives and whatever the host answers, the
    store it leaves is the store it found, or that store without the key
    named by SIGNALMICE_KEY. *)
Theorem main_only_removes_the_key (inputs : list LoopInput) (w : World) :
  let k := config.RedisKey (config.Load (host w)) in
  (store (snd (main inputs w)) = store w \/
   store (snd (main inputs w)) = delete k (store w)) /\
  (forall k', k' <> k -> store (snd (main inputs w)) !! k' = store w !! k') /\
  (forall k' v, store (snd (main inputs w)) !! k' = Some v -> store w !! k' = Some v).
Proof.
  intros k.
  assert (H : store (snd (main inputs w)) = store w \/
              store (snd (main inputs w)) = delete k (store w)).
  { pose proof (main_cases inputs w) as H. cbv zeta in H.
    destruct (fst (logger.NewLogger _ _)) as [lg|err]; [|left; apply H].
    destruct (redis_fault (host w) _ Ping); [left; apply H|].
    destruct (_ <=? 0)%Z; [left; apply H|].
    destruct H as (w3 & Hm & _ & Hs & _). rewrite Hm, <- Hs.
    apply (consumed_monitor _ {| redis.key := k |}). }
  split; [exact H|]. split.
  - intros k' Hk'. destruct H as [-> | ->]; [done|]. by apply lookup_delete_ne.
  - intros k' v. destruct H as [-> | ->]; [done|].
    rewrite lookup_delete_Some. by intros [_ ?].
Qed.

Lemma emits_forSelect ks rc sm lg inputs :
  KConsole ∈ ks -> KExec ∈ ks -> KStat ∈ ks -> KWrite ∈ ks -> KRedis ∈ ks ->
  KCancel ∈ ks ->
  emits (only ks) (forSelect rc sm lg inputs).
Proof.
  intros Hc He Hs Hw Hr Hx. induction inputs as [|[|sig] rest IH]; cbn [forSelect].
  - apply emits_ret.
  - apply emits_bind; [by apply emits_checkAndShutdown | intros _; exact IH].
  - unfold logger.InfoWithExtra, logger.Info.
    apply emits_bind; [by apply emits_log|]. intros _.
    apply emits_bind; [by apply emits_emit|]. intros _.
    apply emits_bind; [by apply emits_log | intros _; apply emits_ret].
Qed.

Lemma emits_monitor ks cfg rc sm lg inputs :
  KConsole ∈ ks -> KExec ∈ ks -> KStat ∈ ks -> KWrite ∈ ks -> KRedis ∈ ks ->
  KCancel ∈ ks ->
  emits (only ks) (monitor cfg rc sm lg inputs).
Proof.
  intros Hc He Hs Hw Hr Hx. unfold monitor, logger.Info.
  apply emits_bind; [apply emits_ask|]. intros interval.
  apply emits_bind; [by apply emits_log|]. intros _.
  apply emits_bind; [by apply emits_checkAndShutdown|]. intros _.
  by apply emits_forSelect.
Qed.

(** X19. On its own thread [main] issues console lines, commands, the stat
    and the writes of the sysrq method, Redis commands, the connection test
    of the audit sink and the cancellation, and never an index request: the
    delivery of log events to the audit sink happens only in goroutines, so
    it cannot block the control loop. *)
Theorem main_never_indexes (inputs : list LoopInput) (w : World) :
  Forall (only [KConsole; KExec; KStat; KWrite; KRedis; KSinkInfo; KCancel])
    (effect (main inputs) w) /\
  delivered_to (effect (main inputs) w) = [].
Proof.
  assert (H : Forall (only [KConsole; KExec; KStat; KWrite; KRedis; KSinkInfo; KCancel])
                (effect (main inputs) w)).
  { pose proof (main_cases inputs w) as H. cbv zeta in H.
    assert (Hstop : forall d, Forall (only [KConsole; KSinkInfo; KRedis]) d ->
      Forall (only [KConsole; KExec; KStat; KWrite; KRedis; KSinkInfo; KCancel]) d).
    { intros d Hd. eapply Forall_impl; [exact Hd|]. intros e.
      apply only_subseteq. kinds_sub. }
    destruct (fst (logger.NewLogger _ _)) as [lg|err].
    - destruct (redis_fault (host w) _ Ping).
      + destruct H as (_ & _ & He). apply Hstop.
        eapply stopped_startup; [exact He | | by right | reflexivity].
        repeat constructor; kind_tac.
      + destruct (_ <=? 0)%Z.
        * destruct H as (_ & _ & He). apply Hstop.
          eapply stopped_startup; [exact He | | by right | reflexivity].
          repeat constructor; kind_tac.
        * destruct H as (w3 & Hm & _ & _ & Ht).
          unfold effect. rewrite Hm.
          destruct (appends_monitor (config.Load (host w))
                      {| redis.key := config.RedisKey (config.Load (host w)) |}
                      (shutdown.NewManager (config.Load (host w)) lg) lg inputs w3)
            as [_ Htm].
          erewrite issued_app; [|rewrite Htm, Ht; symmetry; apply app_assoc].
          apply Forall_app. split.
          -- apply Hstop.
             eapply (stopped_startup _ _ _ _ eq_refl); [| by right | reflexivity].
             repeat constructor; kind_tac.
          -- apply (emits_monitor
                      [KConsole; KExec; KStat; KWrite; KRedis; KSinkInfo; KCancel]);
               kind_tac.
    - destruct H as (_ & _ & He). apply Hstop.
      eapply stopped_startup; [exact He | | by left | reflexivity].
      repeat constructor; kind_tac. }
  split; [exact H|].
  induction H as [|e d He _ IH]; [done|].
  unfold delivered_to in *. cbn [omap list_omap]. rewrite IH.
  destruct e; try done. unfold only in He. cbn [kind_of] in He.
  by repeat (apply elem_of_cons in He as [He|He]; [discriminate|]);
     apply elem_of_nil in He.
Qed.

(** ** Remote writes *)

(** X20. A remote write fails locally.  [sendToOpensearch] calls
    [client.Index] at most once for its entry, on the index of the logger,
    and has no retry of its own (what the client library resends inside that
    call is not counted).  When the context of [main] is already cancelled
    the document is not handed to the transport at all.  Whether the context
    is cancelled, the call fails in transport or the sink answers with an
    error status, the failure shows as one [ERROR] line on the console and
    nowhere else: nothing is returned to the caller, the entry is not queued
    again, the store is as it was. *)
Theorem remote_write_fails_locally (l : Logger) (entry : LogEntry) (w : World)
    (c : OpensearchClient) :
  client l = Some c ->
  let reply := opensearch_Index_reply (host w) (trace w) (index l) in
  let r := logger.sendToOpensearch l entry w in
  fst r = None /\
  store (snd r) = store w /\
  goroutines (snd r) = goroutines w /\
  effect (logger.sendToOpensearch l entry) w =
    if ctx_done (trace w)
    then [EvStdout "[ERROR] Failed to send log to Opensearch: context canceled"]
    else
      EvOpensearchIndex (index l) entry ::
      match reply with
      | IndexTransportError msg =>
          [EvStdout ("[ERROR] Failed to send log to Opensearch: " +:+ msg)]
      | IndexResponse status true =>
          [EvStdout ("[ERROR] Opensearch returned error: " +:+ status)]
      | IndexResponse _ false => []
      end.
Proof.
  intros Hc. cbv zeta. unfold effect. run_logger. rewrite Hc.
  destruct (ctx_done (trace w)); simpl; [repeat split; by read_issued|].
  destruct (opensearch_Index_reply _ _ _) as [msg | status []]; simpl;
    repeat split; by read_issued.
Qed.

Lemma remote_write_fails_locally_witness :
  let w := boot (with_Index_reply (IndexTransportError "timeout") sinkReachable) ∅ in
  fst (logger.sendToOpensearch remoteLogger testEntry w) = None /\
  effect (logger.sendToOpensearch remoteLogger testEntry) w =
    [EvOpensearchIndex "test-logs" testEntry;
     EvStdout "[ERROR] Failed to send log to Opensearch: timeout"].
Proof.
  intros w.
  destruct (remote_write_fails_locally remoteLogger testEntry w _ eq_refl)
    as (H1 & _ & _ & H2).
  exact (conj H1 H2).
Defined.

#[local] Instance pool_safe_preorder : PreOrder pool_safe.
Proof.
  split.
  - intros w H. exact H.
  - intros w1 w2 w3 H1 H2 H. apply H2, H1, H.
Qed.

Lemma pool_safe_same w w' : goroutines w' = goroutines w -> pool_safe w w'.
Proof. intros H Hs. by rewrite H. Qed.

Lemma pool_safe_emit e : respects pool_safe (emit e).
Proof. intros w. by apply pool_safe_same. Qed.

Lemma pool_safe_log l level message extra :
  respects pool_safe (logger.log l level message extra).
Proof.
  intros w Hs. unfold logger.log, Printf, bind, ask, emit, spawn, ret. simpl.
  destruct (client l) eqn:E; simpl; [|done].
  apply Forall_app. split; [done|]. repeat constructor.
  unfold has_client. simpl. by rewrite E.
Qed.

Lemma pool_safe_CheckAndDeleteKey rc : respects pool_safe (redis.CheckAndDeleteKey rc).
Proof.
  intros w. apply pool_safe_same. run_redis.
  destruct (redis_fault (host w) (trace w) (Get (redis.key rc))); simpl; [done|].
  destruct (store w !! redis.key rc); simpl; [|done].
  by destruct (redis_fault _ _ (Del _)).
Qed.

Lemma pool_safe_main inputs : respects pool_safe (main inputs).
Proof.
  unfold main, logger.InfoWithExtra, logger.ErrorWithExtra, logger.Info.
  apply respects_bind; [apply _ | apply pool_safe_emit |]. intros _.
  apply respects_bind; [apply _ | apply respects_ask; apply _ |]. intros cfg.
  apply respects_bind; [apply _ | |].
  { intros w. apply pool_safe_same. apply NewLogger_cases. }
  intros [lg|err].
  2:{ apply respects_bind; [apply _ | apply pool_safe_emit |]. intros _.
      apply respects_ret; apply _. }
  apply respects_bind; [apply _ | apply respects_ask; apply _ |]. intros interval.
  apply respects_bind; [apply _ | apply pool_safe_log |]. intros _.
  apply respects_bind; [apply _ | |].
  { intros w. apply pool_safe_same.
    unfold redis.NewClient, redis.cmd_Ping, bind, ask, emit, ret. simpl.
    by destruct (redis_fault _ _ _). }
  intros [rc|err].
  2:{ apply respects_bind; [apply _ | apply pool_safe_log |]. intros _.
      apply respects_ret; apply _. }
  apply respects_bind; [apply _ | apply pool_safe_log |]. intros _. cbv zeta.
  destruct (_ <=? 0)%Z; [apply respects_ret; apply _|].
  apply frame_monitor;
    [apply _ | apply pool_safe_emit | apply pool_safe_log
    | apply pool_safe_CheckAndDeleteKey].
Qed.

(** X21. Every remote write that [main] queues belongs to a logger that has a
    client: started with a queue of such writes (the empty queue at process
    start), [main] leaves a queue of such writes, so no goroutine it spawns
    runs into the nil client of a stdout-only logger; each of them returns
    without a panic in whatever world it is run. *)
Theorem queued_writes_never_panic (inputs : list LoopInput) (w : World) :
  Forall has_client (goroutines w) ->
  Forall (fun t => has_client t /\
                   forall w', fst (logger.sendToOpensearch (fst t) (snd t) w') = None)
    (goroutines (snd (main inputs w))).
Proof.
  intros Hs. apply (pool_safe_main inputs w) in Hs.
  eapply Forall_impl; [exact Hs|]. intros [l entry] Hc. split; [exact Hc|].
  intros w'. unfold has_client in Hc. simpl in *.
  run_logger. destruct (client l); [|done].
  destruct (ctx_done (trace w')); simpl; [done|].
  by destruct (opensearch_Index_reply _ _ _) as [msg | status []].
Qed.

Lemma queued_writes_never_panic_witness :
  let w := boot sinkReachable ∅ in
  length (goroutines (snd (main [Tick] w))) = 5 /\
  Forall (fun t => forall w', fst (logger.sendToOpensearch (fst t) (snd t) w') = None)
    (goroutines (snd (main [Tick] w))).
Proof.
  intros w. split; [reflexivity|].
  assert (Hs : Forall has_client (goroutines w)) by constructor.
  eapply Forall_impl; [exact (queued_writes_never_panic [Tick] w Hs)|].
  intros t [_ H]. exact H.
Defined.

(** ** [main] as a whole *)

(** Either start-up stops the process, or [main] is its start-up followed by
    the monitoring part. *)
Lemma main_split inputs w :
  let cfg := config.Load (host w) in
  let rc := {| redis.key := config.RedisKey cfg |} in
  ((fst (main inputs w) = Exit 1 \/
    fst (main inputs w) = Panic "non-positive interval for NewTicker") /\
   store (snd (main inputs w)) = store w /\
   Forall (only [KConsole; KSinkInfo; KRedis]) (effect (main inputs) w) /\
   cycles (effect (main inputs) w) = 0 /\
   observed (effect (main inputs) w) = []) \/
  (exists lg w3 d0,
     (0 < config.CheckInterval cfg)%Z /\
     main inputs w = monitor cfg rc (shutdown.NewManager cfg lg) lg inputs w3 /\
     host w3 = host w /\ store w3 = store w /\
     effect (main inputs) w =
       d0 ++ effect (monitor cfg rc (shutdown.NewManager cfg lg) lg inputs) w3 /\
     Forall (only [KConsole; KSinkInfo; KRedis]) d0 /\
     cycles d0 = 0 /\
     observed d0 = []).
Proof.
  intros cfg rc. pose proof (main_cases inputs w) as H. cbv zeta in H.
  fold cfg in H. fold rc in H.
  destruct (fst (logger.NewLogger _ _)) as [lg|err].
  - destruct (redis_fault (host w) _ Ping).
    + left. destruct H as (Hr & Hs & He). split; [by left|]. split; [done|].
      eapply stopped_startup in He as (? & _ & ? & ?);
        [done | repeat constructor; kind_tac | by right | reflexivity].
    + destruct (_ <=? 0)%Z eqn:Ei.
      * left. destruct H as (Hr & Hs & He). split; [by right|]. split; [done|].
        eapply stopped_startup in He as (? & _ & ? & ?);
          [done | repeat constructor; kind_tac | by right | reflexivity].
      * right. destruct H as (w3 & Hm & Hh & Hs & Ht).
        exists lg, w3. eexists.
        split; [by apply Z.leb_gt in Ei|]. split; [exact Hm|].
        split; [exact Hh|]. split; [exact Hs|]. split.
        { unfold effect at 1. rewrite Hm.
          destruct (appends_monitor cfg rc (shutdown.NewManager cfg lg) lg inputs w3)
            as [_ Htm].
          apply issued_app. rewrite Htm, Ht. symmetry. apply app_assoc. }
        destruct (stopped_startup cfg
                    (snd (Printf "signalmice v1.0.0 starting..." w))
                    [EvStdout "[INFO] signalmice starting"; EvRedis Ping;
                     EvStdout "[INFO] Connected to Redis successfully"]
                    _ eq_refl) as (? & _ & ? & ?);
          [repeat constructor; kind_tac | right; reflexivity | reflexivity | done].
  - left. destruct H as (Hr & Hs & He). split; [by left|]. split; [done|].
    eapply stopped_startup in He as (? & _ & ? & ?);
      [done | repeat constructor; kind_tac | by left | reflexivity].
Qed.

(** X22. The outcomes of [main].  It exits with status 0 only after a
    termination signal, and is still waiting in the loop only if no signal
    has arrived; in both cases it has performed the initial detection cycle
    and one cycle per tick received before the signal.  Its only other
    outcomes are the exit with status 1 and the ticker panic of a start-up
    that stopped, and then no detection cycle was performed. *)
Theorem main_outcomes (inputs : list LoopInput) (w : World) :
  let r := fst (main inputs w) in
  (r = Exit 0 \/ r = Waiting \/ r = Exit 1 \/
   r = Panic "non-positive interval for NewTicker") /\
  (r = Exit 0 -> exists sig, Signal sig ∈ inputs) /\
  (r = Waiting -> Forall (fun i => i = Tick) inputs) /\
  (r = Exit 0 \/ r = Waiting ->
   cycles (effect (main inputs) w) = S (ticks_served inputs)) /\
  (r <> Exit 0 -> r <> Waiting -> cycles (effect (main inputs) w) = 0).
Proof.
  cbv zeta.
  destruct (main_split inputs w)
    as [(Hr & _ & _ & Hc & _) | (lg & w3 & d0 & _ & Hm & _ & _ & He & _ & Hc & _)].
  - split; [destruct Hr as [-> | ->]; auto|].
    repeat split; try done; destruct Hr as [Hr|Hr]; rewrite Hr; try done;
      by intros [?|?].
  - rewrite Hm, He, cycles_app, Hc, monitor_run, forSelect_outcome.
    rewrite effect_monitor, cycles_app, cycles_monitor_nil, forSelect_cycles.
    destruct (existsb is_Signal inputs) eqn:E.
    + repeat split; auto; try done.
      intros _. apply existsb_exists in E as ([|sig] & Hin & Hs); [done|].
      exists sig. by apply list_elem_of_In.
    + repeat split; auto; try done.
      intros _. apply Forall_forall. intros [|sig] Hin; [done|].
      assert (existsb is_Signal inputs = true); [|congruence].
      apply existsb_exists. exists (Signal sig). split; [|done].
      by apply list_elem_of_In.
Qed.

(** ** Without a trigger *)

Lemma checkAndShutdown_absent rc sm lg w :
  store w !! redis.key rc = None ->
  store (snd (checkAndShutdown rc sm lg w)) = store w /\
  Forall (only [KConsole; KRedis; KCancel]) (effect (checkAndShutdown rc sm lg) w) /\
  observed (effect (checkAndShutdown rc sm lg) w) = [].
Proof.
  intros Habs.
  assert (Hr : fst (fst (redis.CheckAndDeleteKey rc w)) = false /\
               store (snd (redis.CheckAndDeleteKey rc w)) = store w).
  { run_redis.
    destruct (redis_fault (host w) (trace w) (Get (redis.key rc))); simpl; [done|].
    by rewrite Habs. }
  destruct Hr as [Hr Hs].
  destruct (checkAndShutdown_world rc sm lg w) as [_ Hw].
  split; [congruence|].
  rewrite effect_checkAndShutdown, effect_afterCheck_idle by done.
  split.
  - apply Forall_app. split.
    + apply (emits_CheckAndDeleteKey [KConsole; KRedis; KCancel]); kind_tac.
    + repeat constructor; kind_tac.
  - rewrite observed_app, observed_CheckAndDeleteKey.
    by destruct (snd (fst (redis.CheckAndDeleteKey rc w))).
Qed.

Lemma forSelect_absent rc sm lg inputs w :
  store w !! redis.key rc = None ->
  store (snd (forSelect rc sm lg inputs w)) = store w /\
  Forall (only [KConsole; KRedis; KCancel]) (effect (forSelect rc sm lg inputs) w) /\
  observed (effect (forSelect rc sm lg inputs) w) = [].
Proof.
  revert w. induction inputs as [|[|sig] rest IH]; intros w Habs.
  - cbn [forSelect]. by rewrite effect_ret.
  - cbn [forSelect].
    destruct (checkAndShutdown_absent rc sm lg w Habs) as (Hs & Hk & Ho).
    rewrite <- Hs in Habs. destruct (IH _ Habs) as (Hs' & Hk' & Ho').
    rewrite bind_run.
    rewrite effect_bind;
      [|apply appends_checkAndShutdown | intros _; apply appends_forSelect].
    split; [congruence|]. split; [by apply Forall_app|].
    by rewrite observed_app, Ho, Ho'.
  - rewrite effect_signal. split; [|split; [repeat constructor; kind_tac|done]].
    assert (H : respects same_store (forSelect rc sm lg (Signal sig :: rest))).
    { cbn [forSelect]. unfold logger.InfoWithExtra, logger.Info. same_store_tac. }
    apply H.
Qed.

(** X23. Without the trigger there is no shutdown: when the monitored key is
    not in the store, [main] runs no command, stats and writes no file and
    enters no shutdown method, whatever it receives and whatever faults the
    host injects; its requests are console lines, Redis commands, the
    connection test of the sink and the cancellation, and the store is as it
    was. *)
Theorem no_trigger_no_shutdown (inputs : list LoopInput) (w : World) :
  store w !! config.RedisKey (config.Load (host w)) = None ->
  store (snd (main inputs w)) = store w /\
  Forall (only [KConsole; KSinkInfo; KRedis; KCancel]) (effect (main inputs) w) /\
  observed (effect (main inputs) w) = [].
Proof.
  intros Habs.
  assert (Hup : forall ks d,
    ks ⊆ [KConsole; KSinkInfo; KRedis; KCancel] ->
    Forall (only ks) d -> Forall (only [KConsole; KSinkInfo; KRedis; KCancel]) d).
  { intros ks d Hsub Hd. eapply Forall_impl; [exact Hd|]. intros e.
    by apply only_subseteq. }
  destruct (main_split inputs w)
    as [(_ & Hs & Hk & _ & Ho)
       | (lg & w3 & d0 & _ & Hm & Hh & Hs & He & Hk & _ & Ho)].
  - split; [done|]. split; [|done]. eapply Hup; [|exact Hk]. kinds_sub.
  - set (cfg := config.Load (host w)) in *.
    set (rc := {| redis.key := config.RedisKey cfg |}) in *.
    set (sm := shutdown.NewManager cfg lg) in *.
    assert (Habs3 : store w3 !! redis.key rc = None) by (by rewrite Hs).
    assert (Hmon : store (snd (monitor cfg rc sm lg inputs w3)) = store w3 /\
                   Forall (only [KConsole; KRedis; KCancel])
                     (effect (monitor cfg rc sm lg inputs) w3) /\
                   observed (effect (monitor cfg rc sm lg inputs) w3) = []).
    { assert (H0 : store (snd (monitor cfg rc sm lg [] w3)) = store w3 /\
                   Forall (only [KConsole; KRedis; KCancel])
                     (effect (monitor cfg rc sm lg []) w3) /\
                   observed (effect (monitor cfg rc sm lg []) w3) = []).
      { unfold monitor, logger.Info. rewrite !bind_run.
        rewrite effect_bind; [|auto with go|intros; appends_tac;
                                apply appends_checkAndShutdown].
        rewrite effect_bind; [|auto with go|intros; appends_tac;
                                apply appends_checkAndShutdown].
        rewrite effect_bind;
          [|apply appends_checkAndShutdown | intros; apply appends_forSelect].
        rewrite effect_ask, effect_log. cbn [app forSelect]. rewrite effect_ret.
        set (wl := snd (logger.log lg LevelInfo _ None _)).
        assert (Hsl : store wl = store w3) by (unfold wl; by rewrite store_log).
        assert (Habsl : store wl !! redis.key rc = None) by (by rewrite Hsl).
        destruct (checkAndShutdown_absent rc sm lg wl Habsl) as (Hs' & Hk' & Ho').
        cbn [ret snd]. split; [congruence|]. rewrite app_nil_r. split.
        - constructor; [kind_tac | exact Hk'].
        - change (?x :: ?d) with ([x] ++ d).
          rewrite observed_app, Ho', app_nil_r.
          unfold observed. cbn [omap list_omap]. unfold observe.
          cbn [Level_string]. reflexivity. }
      destruct H0 as (Hs0 & Hk0 & Ho0).
      rewrite monitor_run, effect_monitor.
      assert (Habs0 : store (snd (monitor cfg rc sm lg [] w3)) !! redis.key rc = None)
        by (by rewrite Hs0).
      destruct (forSelect_absent rc sm lg inputs _ Habs0) as (Hs1 & Hk1 & Ho1).
      split; [congruence|]. split; [by apply Forall_app|].
      by rewrite observed_app, Ho0, Ho1. }
    destruct Hmon as (Hsm & Hkm & Hom).
    rewrite Hm, He. split; [congruence|]. split.
    + apply Forall_app. split; (eapply Hup; [|eassumption]); kinds_sub.
    + by rewrite observed_app, Ho, Hom.
Qed.

Lemma no_trigger_no_shutdown_witness :
  let w := boot procMounted {[ "another:key" := "shutdown" ]} in
  store (snd (main [Tick; Tick; Signal "terminated"] w)) = store w /\
  observed (effect (main [Tick; Tick; Signal "terminated"]) w) = [].
Proof.
  intros w.
  destruct (no_trigger_no_shutdown [Tick; Tick; Signal "terminated"] w eq_refl)
    as (H1 & _ & H2).
  exact (conj H1 H2).
Defined.

(** ** The configuration as a function of the environment *)

(** X24. [Load] depends on the environment through twelve variables only:
    two environments that agree on them load the same configuration.  With
    none of them set it loads the documented defaults: Redis at
    localhost:6379, database 0, no password; Opensearch at
    http://localhost:9200 without credentials, index signalmice-logs, daily
    indices on; the all-zero key; a check interval of 60 seconds; the host
    proc path /host/proc. *)
Theorem Load_reads_twelve_variables (h h' : Host) :
  ((forall k, k ∈ Load_variables -> LookupEnv h k = LookupEnv h' k) ->
   config.Load h = config.Load h') /\
  ((forall k, k ∈ Load_variables -> LookupEnv h k = None) ->
   config.Load h =
     {| config.RedisHost := "localhost";
        config.RedisPort := "6379";
        config.RedisPassword := EmptyString;
        config.RedisDB := 0;
        config.OpensearchURL := "http://localhost:9200";
        config.OpensearchUsername := EmptyString;
        config.OpensearchPassword := EmptyString;
        config.OpensearchIndex := "signalmice-logs";
        config.OpensearchUseDailyIndex := true;
        config.RedisKey := "signalmice:00000000-0000-0000-0000-000000000000";
        config.CheckInterval := 60000000000;
        config.HostProcPath := "/host/proc" |} /\
   config.RedisAddr (config.Load h) = "localhost:6379").
Proof.
  assert (Hin : forall k, bool_decide (k ∈ Load_variables) = true -> k ∈ Load_variables)
    by (intros k; apply bool_decide_eq_true_1).
  split.
  - intros H. unfold config.Load, config.getEnv, config.getEnvBool.
    rewrite (H "SIGNALMICE_CHECK_INTERVAL"), (H "REDIS_DB"), (H "REDIS_HOST"),
      (H "REDIS_PORT"), (H "REDIS_PASSWORD"), (H "OPENSEARCH_URL"),
      (H "OPENSEARCH_USERNAME"), (H "OPENSEARCH_PASSWORD"), (H "OPENSEARCH_INDEX"),
      (H "OPENSEARCH_USE_DAILY_INDEX"), (H "SIGNALMICE_KEY"), (H "HOST_PROC_PATH")
      by (by apply Hin).
    reflexivity.
  - intros H. unfold config.RedisAddr, config.Load, config.getEnv, config.getEnvBool.
    rewrite (H "SIGNALMICE_CHECK_INTERVAL"), (H "REDIS_DB"), (H "REDIS_HOST"),
      (H "REDIS_PORT"), (H "REDIS_PASSWORD"), (H "OPENSEARCH_URL"),
      (H "OPENSEARCH_USERNAME"), (H "OPENSEARCH_PASSWORD"), (H "OPENSEARCH_INDEX"),
      (H "OPENSEARCH_USE_DAILY_INDEX"), (H "SIGNALMICE_KEY"), (H "HOST_PROC_PATH")
      by (by apply Hin).
    split; reflexivity.
Qed.

Lemma Load_reads_twelve_variables_witness :
  config.Load (with_env (setenv "PATH" "/usr/bin") unprivileged) =
    config.Load unprivileged /\
  config.RedisAddr (config.Load unprivileged) = "localhost:6379".
Proof.
  destruct (Load_reads_twelve_variables
              (with_env (setenv "PATH" "/usr/bin") unprivileged) unprivileged)
    as [H1 _].
  destruct (Load_reads_twelve_variables unprivileged unprivileged) as [_ H2].
  split.
  - apply H1. intros k Hk. unfold Load_variables in Hk.
    repeat (apply elem_of_cons in Hk as [->|Hk]; [reflexivity|]).
    by apply elem_of_nil in Hk.
  - apply H2. intros k _. reflexivity.
Defined.

(** ** From the log call to the audit sink *)

(** X25. On a logger with a client, a log call writes its console line and
    queues exactly one remote write.  The document of that write carries the
    level, message and extra fields of the call, the host name and key of the
    logger, the service name "signalmice" and the UTC time of the log call in
    RFC 3339 form: the time the call was made, not the time the write runs.
    Run while the context of [main] is not cancelled, the write hands this
    document to [client.Index] for the index of the logger; run after the
    cancellation it hands over nothing and ends with an [ERROR] line. *)
Theorem log_queues_one_write (l : Logger) (level : Level) (message : string)
    (extra : option (list (string * string))) (w : World) (c : OpensearchClient) :
  client l = Some c ->
  let entry := {| Timestamp := Format_RFC3339 (Now (host w) (trace w));
                  EntryLevel := level;
                  Message := message;
                  Hostname := hostname l;
                  Service := "signalmice";
                  EntryRedisKey := redisKey l;
                  Extra := extra |} in
  goroutines (snd (logger.log l level message extra w)) =
    goroutines w ++ [(l, entry)] /\
  effect (logger.log l level message extra) w =
    [EvStdout ("[" +:+ Level_string level +:+ "] " +:+ message)] /\
  forall w',
    (ctx_done (trace w') = false ->
     head (effect (logger.sendToOpensearch l entry) w') =
       Some (EvOpensearchIndex (index l) entry) /\
     delivered_to (effect (logger.sendToOpensearch l entry) w') = [index l]) /\
    (ctx_done (trace w') = true ->
     effect (logger.sendToOpensearch l entry) w' =
       [EvStdout "[ERROR] Failed to send log to Opensearch: context canceled"]).
Proof.
  intros Hc entry. split; [|split].
  - unfold logger.log, Printf, bind, ask, emit, spawn, ret. simpl. by rewrite Hc.
  - apply effect_log.
  - intros w'. split; intros Hd.
    + rewrite sendToOpensearch_index, Hc, Hd. split; [|done].
      unfold effect. run_logger. rewrite Hc, Hd. simpl.
      destruct (opensearch_Index_reply _ _ _) as [msg | status []]; simpl;
        by read_issued.
    + unfold effect. run_logger. rewrite Hc, Hd. simpl. by read_issued.
Qed.

Lemma log_queues_one_write_witness :
  let w := boot sinkReachable ∅ in
  goroutines (snd (logger.Warn remoteLogger "Failed to sync filesystems via sysrq" w)) =
    [(remoteLogger,
      {| Timestamp := "2024-12-28T10:30:05Z"; EntryLevel := LevelWarn;
         Message := "Failed to sync filesystems via sysrq"; Hostname := "node-1";
         Service := "signalmice"; EntryRedisKey := testKey; Extra := None |})].
Proof.
  intros w.
  destruct (log_queues_one_write remoteLogger LevelWarn
              "Failed to sync filesystems via sysrq" None w _ eq_refl) as (H & _).
  exact H.
Defined.




(** ** What the console shows of a cycle *)

Ltac line_tac :=
  cbn [on_console];
  first [exact I
        | repeat first [apply list_elem_of_here | apply list_elem_of_further]].

Lemma console_log lines l level message extra :
  ("[" +:+ Level_string level +:+ "] " +:+ message) ∈ lines ->
  emits (on_console lines) (logger.log l level message extra).
Proof.
  intros Hin. split; [auto with go|]. intros w. rewrite effect_log.
  by repeat constructor.
Qed.

Lemma console_quiet lines ks {A} (c : M A) :
  KConsole ∉ ks -> emits (only ks) c -> emits (on_console lines) c.
Proof.
  intros Hk. apply emits_weaken. intros [] He; try exact I.
  by destruct Hk.
Qed.

Lemma console_shutdownViaSysrq m :
  emits (on_console cycle_lines) (shutdown.shutdownViaSysrq m).
Proof.
  unfold shutdown.shutdownViaSysrq, shutdown.Stat, shutdown.WriteFile, logger.Warn.
  apply emits_bind; [apply emits_ask|]. intros p.
  apply emits_bind.
  { apply emits_bind; [apply emits_ask|]. intros reply.
    apply emits_bind; [by apply emits_emit|]. intros _. apply emits_ret. }
  assert (Hw : forall data, emits (on_console cycle_lines) (shutdown.WriteFile p data)).
  { intros data. unfold shutdown.WriteFile.
    apply emits_bind; [apply emits_ask|]. intros reply.
    apply emits_bind; [by apply emits_emit|]. intros _. apply emits_ret. }
  assert (Hrest : emits (on_console cycle_lines) (
    e1 <- shutdown.WriteFile p "s" ;;
    (match e1 with
     | Some _ => logger.log (shutdown.logger m) LevelWarn
                   "Failed to sync filesystems via sysrq" None
     | None => ret tt
     end) ;;
    e2 <- shutdown.WriteFile p "u" ;;
    (match e2 with
     | Some _ => logger.log (shutdown.logger m) LevelWarn
                   "Failed to remount filesystems read-only via sysrq" None
     | None => ret tt
     end) ;;
    e3 <- shutdown.WriteFile p "o" ;;
    match e3 with
    | Some err => ret (Some (Errorf_w "failed to write to sysrq-trigger: " err EmptyString))
    | None => ret None
    end)).
  { apply emits_bind; [apply Hw|]. intros e1.
    apply emits_bind.
    { destruct e1; [apply console_log; line_tac | apply emits_ret]. }
    intros _. apply emits_bind; [apply Hw|]. intros e2.
    apply emits_bind.
    { destruct e2; [apply console_log; line_tac | apply emits_ret]. }
    intros _. apply emits_bind; [apply Hw|]. intros [e3|]; apply emits_ret. }
  intros [| |]; [exact Hrest | apply emits_ret | exact Hrest].
Qed.

Lemma console_rangeMethods lines l ms lastErr :
  Forall (fun mth =>
            emits (on_console lines) (shutdown.fn mth) /\
            ("[INFO] Attempting shutdown via " +:+ shutdown.name mth) ∈ lines /\
            ("[WARN] Shutdown via " +:+ shutdown.name mth +:+ " failed") ∈ lines /\
            ("[INFO] Shutdown initiated successfully via " +:+ shutdown.name mth) ∈ lines)
    ms ->
  emits (on_console lines) (shutdown.rangeMethods l ms lastErr).
Proof.
  intros H. revert lastErr.
  induction H as [|mth ms (Hfn & Ha & Hf & Hs) _ IH]; intros lastErr.
  - apply emits_ret.
  - cbn [shutdown.rangeMethods].
    unfold logger.InfoWithExtra, logger.WarnWithExtra, logger.Info.
    apply emits_bind; [by apply console_log|]. intros _.
    apply emits_bind; [exact Hfn|]. intros [err|].
    + apply emits_bind; [by apply console_log | intros _; apply IH].
    + apply emits_bind; [by apply console_log | intros _; apply emits_ret].
Qed.

Lemma console_NeutralizeStuartLittle m :
  emits (on_console cycle_lines) (shutdown.NeutralizeStuartLittle m).
Proof.
  unfold shutdown.NeutralizeStuartLittle, logger.Info.
  apply emits_bind; [apply console_log; line_tac|]. intros _.
  apply emits_bind; [|intros []; apply emits_ret].
  apply console_rangeMethods. unfold shutdown.methods.
  constructor.
  { cbn [shutdown.fn shutdown.name]. split; [|repeat split; line_tac].
    apply (console_quiet _ [KExec]); [|apply emits_shutdownViaNsenter; kind_tac].
    intros Hin. apply list_elem_of_singleton in Hin. discriminate. }
  constructor.
  { cbn [shutdown.fn shutdown.name]. split; [|repeat split; line_tac].
    apply console_shutdownViaSysrq. }
  constructor; [|constructor].
  cbn [shutdown.fn shutdown.name]. split; [|repeat split; line_tac].
  apply (console_quiet _ [KExec]); [|apply emits_shutdownViaDirect; kind_tac].
  intros Hin. apply list_elem_of_singleton in Hin. discriminate.
Qed.

#[local] Instance same_pool_preorder : PreOrder same_pool.
Proof.
  split; [by intros w | intros w1 w2 w3 H1 H2]. unfold same_pool in *. congruence.
Qed.

Lemma same_pool_emit e : respects same_pool (emit e).
Proof. by intros w. Qed.

Lemma same_pool_log l level message extra :
  client l = None -> respects same_pool (logger.log l level message extra).
Proof.
  intros Hc w. unfold same_pool, logger.log, Printf, bind, ask, emit, spawn, ret.
  simpl. by rewrite Hc.
Qed.

Ltac pool_step :=
  match goal with
  | |- respects same_pool (bind _ _) => apply respects_bind; [apply _ | | intros ?]
  | |- respects same_pool (emit _) => apply same_pool_emit
  | |- respects same_pool (logger.log _ _ _ _) => by apply same_pool_log
  | |- respects same_pool (ret _) => apply respects_ret; apply _
  | |- respects same_pool (ask _) => apply respects_ask; apply _
  | |- respects same_pool (let _ := _ in _) => cbv zeta
  | |- respects same_pool (match ?x with _ => _ end) => destruct x
  end.
Ltac pool_tac := repeat pool_step.

Lemma same_pool_rangeMethods l ms lastErr :
  client l = None ->
  Forall (fun mth => respects same_pool (shutdown.fn mth)) ms ->
  respects same_pool (shutdown.rangeMethods l ms lastErr).
Proof.
  intros Hc H. revert lastErr. induction H as [|mth ms Hm _ IH]; intros lastErr.
  - apply respects_ret; apply _.
  - cbn [shutdown.rangeMethods].
    unfold logger.InfoWithExtra, logger.WarnWithExtra, logger.Info.
    apply respects_bind; [apply _ | by apply same_pool_log |]. intros _.
    apply respects_bind; [apply _ | exact Hm |]. intros [err|].
    + apply respects_bind; [apply _ | by apply same_pool_log | intros _; apply IH].
    + pool_tac.
Qed.

Lemma same_pool_NeutralizeStuartLittle m :
  client (shutdown.logger m) = None ->
  respects same_pool (shutdown.NeutralizeStuartLittle m).
Proof.
  intros Hc. unfold shutdown.NeutralizeStuartLittle, logger.Info.
  apply respects_bind; [apply _ | by apply same_pool_log |]. intros _.
  apply respects_bind; [apply _ | | intros []; apply respects_ret; apply _].
  apply same_pool_rangeMethods; [done|]. unfold shutdown.methods.
  repeat constructor; cbn [shutdown.fn].
  - unfold shutdown.shutdownViaNsenter, shutdown.CombinedOutput. pool_tac.
  - unfold shutdown.shutdownViaSysrq, shutdown.Stat, shutdown.WriteFile, logger.Warn.
    pool_tac.
  - unfold shutdown.shutdownViaDirect, shutdown.CombinedOutput. pool_tac.
Qed.

Lemma same_pool_CheckAndDeleteKey rc : respects same_pool (redis.CheckAndDeleteKey rc).
Proof.
  intros w. unfold same_pool. run_redis.
  destruct (redis_fault (host w) (trace w) (Get (redis.key rc))); simpl; [done|].
  destruct (store w !! redis.key rc); simpl; [|done].
  by destruct (redis_fault _ _ (Del _)).
Qed.

(** X26. The console never shows the cause of a failure in a detection cycle:
    whatever the host answers, every line the cycle writes to the console is
    one of seventeen fixed lines, made of a level and a message only.  The
    error of the check, the errors of the shutdown methods with the output of
    their commands and the name of the key are passed as extra fields, which
    go to the audit sink only: with loggers that have no client the cycle
    queues nothing, and these details are recorded nowhere. *)
Theorem console_shows_fixed_lines (rc : redis.Client) (sm : shutdown.Manager)
    (lg : Logger) (w : World) :
  Forall (on_console cycle_lines) (effect (checkAndShutdown rc sm lg) w) /\
  (forall s, s ∈ console (effect (checkAndShutdown rc sm lg) w) -> s ∈ cycle_lines) /\
  (client lg = None -> client (shutdown.logger sm) = None ->
   goroutines (snd (checkAndShutdown rc sm lg w)) = goroutines w).
Proof.
  assert (He : emits (on_console cycle_lines) (checkAndShutdown rc sm lg)).
  { unfold checkAndShutdown, logger.ErrorWithExtra, logger.Debug,
      logger.InfoWithExtra, logger.Info.
    apply emits_bind.
    { apply (console_quiet _ [KRedis]); [|apply emits_CheckAndDeleteKey; kind_tac].
      intros Hin. apply list_elem_of_singleton in Hin. discriminate. }
    intros [found [err|]]; cbn [fst snd]; [apply console_log; line_tac|].
    destruct found; cbn [negb]; [|apply console_log; line_tac].
    apply emits_bind; [apply console_log; line_tac|]. intros _.
    apply emits_bind; [apply console_NeutralizeStuartLittle|].
    intros [e|]; apply console_log; line_tac. }
  split; [apply He|]. split.
  - intros s Hs. destruct He as [_ He]. specialize (He w).
    unfold console in Hs. apply list_elem_of_omap in Hs as (e & Hin & Hout).
    rewrite Forall_forall in He. specialize (He e Hin).
    destruct e; try discriminate. simpl in Hout. injection Hout as ->. exact He.
  - intros Hlg Hsm.
    change (same_pool w (snd (checkAndShutdown rc sm lg w))). revert w.
    change (respects same_pool (checkAndShutdown rc sm lg)).
    unfold checkAndShutdown, logger.ErrorWithExtra, logger.Debug,
      logger.InfoWithExtra, logger.Info.
    apply respects_bind; [apply _ | apply same_pool_CheckAndDeleteKey |].
    intros [found [err|]]; cbn [fst snd]; [by apply same_pool_log|].
    destruct found; cbn [negb]; [|by apply same_pool_log].
    apply respects_bind; [apply _ | by apply same_pool_log |]. intros _.
    apply respects_bind; [apply _ | by apply same_pool_NeutralizeStuartLittle |].
    intros [e|]; by apply same_pool_log.
Qed.
